(** * Redis service front end of the YugaByte tablet client

    A shallow embedding of [yb/redisserver/redis_service.cc] (command
    registry, dispatcher, client set-up, read and write pipelines and their
    completion callbacks) and of the Redis operations, [SetColumn] and
    [SetKey] of [yb/client/yb_op.cc], followed by the properties proved
    about them. *)

From Stdlib Require Import ZArith Ascii String List Lia.
From stdpp Require Import base option strings gmap list.

Local Open Scope string_scope.
Local Open Scope Z_scope.
Local Open Scope list_scope.

(** ** Values shared by both files *)

(** [Slice]: a byte string. *)
Definition Slice := string.

(** [Status].  Only [ok()], [message()] and the code are used by the service. *)
Inductive StatusCode :=
  | NotFound | Corruption | NotSupported | InvalidArgument | IOError
  | RuntimeError | NetworkError | IllegalState | TimedOut | Aborted.

Inductive Status :=
  | OK
  | Error (code : StatusCode) (msg : string).

Definition ok (s : Status) : bool :=
  match s with OK => true | Error _ _ => false end.

Definition message (s : Status) : string :=
  match s with OK => "" | Error _ m => m end.

(** [RedisResponsePB]: the generated response message; [string_response] is
    the only field the service writes itself (in [EchoCommand]). *)
Record RedisResponsePB := mkRedisResponsePB {
  code : option Z;
  int_response : option Z;
  string_response : option string
}.

(** [new RedisResponsePB()]: every optional field unset. *)
Definition new_RedisResponsePB : RedisResponsePB :=
  {| code := None; int_response := None; string_response := None |}.

Definition set_string_response (v : string) (r : RedisResponsePB) : RedisResponsePB :=
  {| code := code r; int_response := int_response r; string_response := Some v |}.

(** The request messages are generated classes as well; a parser fills them
    and the service never looks inside, so a request is kept as the list of
    fields that have been set. *)
Definition RedisReadRequestPB := list (string * Slice).
Definition RedisWriteRequestPB := list (string * Slice).

Record YBTable := mkYBTable { table_name : string }.

(** ** The free store

    Response objects are heap allocated and reached through pointers
    ([unique_ptr<RedisResponsePB>], and the raw pointer [get()] returns), so
    object identity is an address. *)
Definition loc := positive.

Inductive ptr :=
  | nullptr
  | Ptr (l : loc).

Definition is_null (p : ptr) : bool :=
  match p with nullptr => true | Ptr _ => false end.

Abbreviation Store := (gmap loc RedisResponsePB).

(** [new T(v)]: a cell that was not allocated before, holding [v]. *)
Definition new_ (v : RedisResponsePB) (h : Store) : loc * Store :=
  let l := fresh (dom h) in (l, <[l := v]> h).

(** What running a piece of code can end in, besides returning. *)
Inductive Outcome (A : Type) :=
  | Returns (a : A)
  | CheckFailure (what : string)   (* CHECK / CHECK_EQ / CHECK_OK: process abort *)
  | AssertionFailure (what : string) (* assert(): abort *)
  | Undefined (what : string).     (* null or out-of-range access *)
Arguments Returns {A} a.
Arguments CheckFailure {A} what.
Arguments AssertionFailure {A} what.
Arguments Undefined {A} what.

(** ** yb_op.cc: YBRedisWriteOp *)
Module YBRedisWriteOp.

Record t := mk {
  table_ : YBTable;
  redis_write_request_ : RedisWriteRequestPB;
  redis_response_ : ptr
}.

(** Constructor: a fresh request, no response yet. *)
Definition create (table : YBTable) : t :=
  {| table_ := table; redis_write_request_ := []; redis_response_ := nullptr |}.

Definition set_redis_response_ (p : ptr) (op : t) : t :=
  {| table_ := table_ op;
     redis_write_request_ := redis_write_request_ op;
     redis_response_ := p |}.

Definition set_request (rq : RedisWriteRequestPB) (op : t) : t :=
  {| table_ := table_ op; redis_write_request_ := rq;
     redis_response_ := redis_response_ op |}.

(** [RedisResponsePB* YBRedisWriteOp::mutable_response()] *)
Definition mutable_response (h : Store) (op : t) : ptr * Store * t :=
  if is_null (redis_response_ op) then
    let '(l, h') := new_ new_RedisResponsePB h in
    let op' := set_redis_response_ (Ptr l) op in
    (redis_response_ op', h', op')
  else (redis_response_ op, h, op).

(** Modelled from the spec: [YBRedisWriteOp::response()] is defined in
    yb_op.h, which is not among the sources; the response slot is
    "populated only on success", so reading it is the dereference of the
    slot and has no defined result while the slot is empty. *)
Definition response (h : Store) (op : t) : Outcome RedisResponsePB :=
  match redis_response_ op with
  | nullptr => Undefined "*redis_response_"
  | Ptr l =>
      match h !! l with
      | Some r => Returns r
      | None => Undefined "*redis_response_"
      end
  end.

(** One more call, on the store and the operation the previous call left. *)
Definition call_again (r : ptr * Store * t) : ptr * Store * t :=
  mutable_response r.1.2 r.2.

End YBRedisWriteOp.

(** ** yb_op.cc: YBRedisReadOp *)
Module YBRedisReadOp.

Record t := mk {
  table_ : YBTable;
  redis_read_request_ : RedisReadRequestPB;
  redis_response_ : ptr
}.

Definition create (table : YBTable) : t :=
  {| table_ := table; redis_read_request_ := []; redis_response_ := nullptr |}.

Definition set_redis_response_ (p : ptr) (op : t) : t :=
  {| table_ := table_ op;
     redis_read_request_ := redis_read_request_ op;
     redis_response_ := p |}.

Definition set_request (rq : RedisReadRequestPB) (op : t) : t :=
  {| table_ := table_ op; redis_read_request_ := rq;
     redis_response_ := redis_response_ op |}.

(** [const RedisResponsePB& YBRedisReadOp::response() const]:
    [assert(redis_response_ != nullptr); return *redis_response_;] *)
Definition response (h : Store) (op : t) : Outcome RedisResponsePB :=
  match redis_response_ op with
  | nullptr => AssertionFailure "redis_response_ != nullptr"
  | Ptr l =>
      match h !! l with
      | Some r => Returns r
      | None => Undefined "*redis_response_"
      end
  end.

(** [RedisResponsePB* YBRedisReadOp::mutable_response()] *)
Definition mutable_response (h : Store) (op : t) : ptr * Store * t :=
  if is_null (redis_response_ op) then
    let '(l, h') := new_ new_RedisResponsePB h in
    let op' := set_redis_response_ (Ptr l) op in
    (redis_response_ op', h', op')
  else (redis_response_ op, h, op).

(** One more call, on the store and the operation the previous call left. *)
Definition call_again (r : ptr * Store * t) : ptr * Store * t :=
  mutable_response r.1.2 r.2.

End YBRedisReadOp.

(** ** Strings as the C library sees them *)

(** [std::string::c_str()] read through a [%s] conversion: the bytes before
    the first NUL. *)
Fixpoint c_str (s : string) : string :=
  match s with
  | EmptyString => EmptyString
  | String c rest => if Ascii.eqb c zero then EmptyString else String c (c_str rest)
  end.

(** Whether a NUL byte occurs in [s]. *)
Fixpoint has_nul (s : string) : bool :=
  match s with
  | EmptyString => false
  | String c rest => Ascii.eqb c zero || has_nul rest
  end.

(** [StringPrintf("%s : %s", a, b)] on two C strings. *)
Definition StringPrintf_s_colon_s (a b : string) : string :=
  c_str a +:+ " : " +:+ c_str b.

Definition is_upper (c : ascii) : bool :=
  let n := N_of_ascii c in ((65 <=? n) && (n <=? 90))%N.

Definition is_lower (c : ascii) : bool :=
  let n := N_of_ascii c in ((97 <=? n) && (n <=? 122))%N.

(** [tolower] in the C locale. *)
Definition tolower (c : ascii) : ascii :=
  if is_upper c then ascii_of_N (N_of_ascii c + 32) else c.

Definition toupper (c : ascii) : ascii :=
  if is_lower c then ascii_of_N (N_of_ascii c - 32) else c.

(** Modelled from the spec: [ToLowerCase] (yb/util) is not among the sources.
    [FetchHandler] calls [ToLowerCase(cmd_name, &cmd_name)] and, in the spec's
    words, "lower-cases the name and looks it up": every byte goes through
    [tolower]. *)
Fixpoint ToLowerCase (s : string) : string :=
  match s with
  | EmptyString => EmptyString
  | String c rest => String (tolower c) (ToLowerCase rest)
  end.

(** Two bytes that are the same, or the two casings of one letter. *)
Definition same_letter (a b : ascii) : bool :=
  Ascii.eqb a b
  || (is_upper a && Ascii.eqb b (tolower a))
  || (is_lower a && Ascii.eqb b (toupper a)).

(** Two strings that differ only in letter casing. *)
Fixpoint differ_only_in_casing (s1 s2 : string) : bool :=
  match s1, s2 with
  | EmptyString, EmptyString => true
  | String a r1, String b r2 => same_letter a b && differ_only_in_casing r1 r2
  | _, _ => false
  end.

(** ** Integer conversions of the arity test *)

Definition INT_MIN : Z := - 2 ^ 31.
Definition INT_MAX : Z := 2 ^ 31 - 1.

Definition in_int (z : Z) : bool := (INT_MIN <=? z) && (z <=? INT_MAX).

(** [int * int]; overflow is undefined. *)
Definition int_mul (a b : Z) : Outcome Z :=
  if in_int (a * b) then Returns (a * b) else Undefined "signed overflow".

(** An [int] converted to [size_t] for a mixed comparison. *)
Definition to_size_t (z : Z) : Z := z mod 2 ^ 64.

(** ** redis_service.cc: data *)

(** The member functions a command table entry can point to. *)
Inductive CommandFn :=
  | fn_GetCommand | fn_HGetCommand | fn_StrLenCommand | fn_ExistsCommand
  | fn_GetRangeCommand
  | fn_SetCommand | fn_HSetCommand | fn_GetSetCommand | fn_AppendCommand
  | fn_DelCommand | fn_SetRangeCommand | fn_IncrCommand
  | fn_EchoCommand.

(** [RedisServiceImpl::RedisCommandInfo]; [arity] is an [int]. *)
Record RedisCommandInfo := mkRedisCommandInfo {
  name : string;
  function_ptr : CommandFn;
  arity : Z
}.

(** A histogram is identified by the metric prototype it was instantiated
    from, [METRIC_handler_latency_yb_redisserver_RedisServerService_<x>]. *)
Definition Histogram := string.

Definition METRIC_handler_latency (x : string) : Histogram :=
  "handler_latency_yb_redisserver_RedisServerService_" +:+ x.

(** [rpc::RpcMethodMetrics]: [handler_latency] is a [scoped_refptr], null
    after default construction. *)
Record RpcMethodMetrics := mkRpcMethodMetrics {
  handler_latency : option Histogram
}.

Definition new_RpcMethodMetrics : RpcMethodMetrics :=
  {| handler_latency := None |}.

Record YBClient := mkYBClient {
  client_name : string;
  master_server_addr : string;
  default_rpc_timeout_sec : Z
}.

Inductive FlushMode := AUTO_FLUSH_SYNC | AUTO_FLUSH_BACKGROUND | MANUAL_FLUSH.

(** A session as the service configures it. *)
Record YBSession := mkYBSession {
  session_read_only : bool;
  session_timeout_millis : option Z;
  session_flush_mode : option FlushMode
}.

(** [RedisInboundCall] with its [RedisClientCommand]. *)
Record InboundCall := mkInboundCall {
  call_id : Z;
  cmd_args : list Slice
}.

(** [client::YBError]: the status of one failed operation. *)
Record YBError := mkYBError { error_status : Status }.

(** The completion objects.  [read_op_] / [write_op_] are [shared_ptr]s: the
    address of the operation the session was given as well.  [redis_call_]
    owns the call the constructor was given; [start_] is the time of
    construction. *)
Record ReadCommandCb := mkReadCommandCb {
  rcb_session_ : option YBSession;
  rcb_redis_call_ : InboundCall;
  read_op_ : loc;
  rcb_metrics_ : RpcMethodMetrics;
  rcb_metrics_internal_ : RpcMethodMetrics;
  rcb_start_ : Z
}.

Record WriteCommandCb := mkWriteCommandCb {
  wcb_session_ : option YBSession;
  wcb_redis_call_ : InboundCall;
  write_op_ : loc;
  wcb_metrics_ : RpcMethodMetrics;
  wcb_metrics_internal_ : RpcMethodMetrics;
  wcb_start_ : Z
}.

(** What the service does to its collaborators, in program order.  [LOG]
    lines are events; the [VLOG] and [DVLOG] lines, which print only at a
    raised verbosity, are left out. *)
Inductive Event :=
  | EvLogError (msg : string)
  | EvLogWarning (msg : string)
  | EvMutexLock
  | EvMutexUnlock
  | EvClientBuild (c : YBClient)
  | EvOpenTable (table : string)
  | EvNewSession (read_only : bool)
  | EvSetTimeoutMillis (ms : Z)
  | EvSetFlushMode (mode : FlushMode)
  | EvNewRedisRead (op : loc)
  | EvNewRedisWrite (op : loc)
  | EvReadAsync (session : YBSession) (op : loc) (cb : ReadCommandCb)
  | EvApply (session : YBSession) (op : loc)
  | EvFlushAsync (session : YBSession) (cb : WriteCommandCb)
  | EvGetPendingErrors
  | EvIncrement (h : Histogram) (micros : Z)
  | EvRespondSuccess (call : InboundCall) (payload : RedisResponsePB)
                     (metrics : RpcMethodMetrics)
  | EvRespondFailure (call : InboundCall) (status : Status)
                     (metrics : RpcMethodMetrics).

Definition is_response (e : Event) : bool :=
  match e with
  | EvRespondSuccess _ _ _ | EvRespondFailure _ _ _ => true
  | _ => false
  end.

(** [ReadAsync], [Apply] and [FlushAsync] hand work to the backend. *)
Definition is_backend_call (e : Event) : bool :=
  match e with
  | EvReadAsync _ _ _ | EvApply _ _ | EvFlushAsync _ _ => true
  | _ => false
  end.

Definition is_lock (e : Event) : bool :=
  match e with EvMutexLock => true | _ => false end.

Definition is_build_or_open (e : Event) : bool :=
  match e with EvClientBuild _ | EvOpenTable _ => true | _ => false end.

(** The responses among a run of events, in order. *)
Definition responses_of (evs : list Event) : list Event :=
  List.filter is_response evs.

(** [RedisServiceImpl]'s members. *)
Record RedisServiceImpl := mkRedisServiceImpl {
  yb_tier_master_addresses_ : string;
  yb_client_initialized_ : bool;
  client_ : option YBClient;
  table_ : option YBTable;
  command_name_to_info_map_ : gmap string RedisCommandInfo;
  metrics_ : gmap string RpcMethodMetrics
}.

(** The process: the service object and the objects on the free store.
    The two operation stores say what was made at each address; an
    operation stays at its address after its last [shared_ptr] is gone, so
    the stores tell what an address holds, not whether its object is still
    alive. *)
Record Process := mkProcess {
  service : RedisServiceImpl;
  responses : Store;
  read_ops : gmap loc YBRedisReadOp.t;
  write_ops : gmap loc YBRedisWriteOp.t
}.

Definition with_service (f : RedisServiceImpl -> RedisServiceImpl) (p : Process) : Process :=
  {| service := f (service p); responses := responses p;
     read_ops := read_ops p; write_ops := write_ops p |}.

Definition set_read_ops (ops : gmap loc YBRedisReadOp.t) (p : Process) : Process :=
  {| service := service p; responses := responses p;
     read_ops := ops; write_ops := write_ops p |}.

Definition set_write_ops (ops : gmap loc YBRedisWriteOp.t) (p : Process) : Process :=
  {| service := service p; responses := responses p;
     read_ops := read_ops p; write_ops := ops |}.

Definition set_responses (h : Store) (p : Process) : Process :=
  {| service := service p; responses := h;
     read_ops := read_ops p; write_ops := write_ops p |}.

Definition set_metrics_ (m : gmap string RpcMethodMetrics) (s : RedisServiceImpl) :=
  {| yb_tier_master_addresses_ := yb_tier_master_addresses_ s;
     yb_client_initialized_ := yb_client_initialized_ s;
     client_ := client_ s; table_ := table_ s;
     command_name_to_info_map_ := command_name_to_info_map_ s;
     metrics_ := m |}.

Definition set_command_name_to_info_map_ (m : gmap string RedisCommandInfo)
    (s : RedisServiceImpl) :=
  {| yb_tier_master_addresses_ := yb_tier_master_addresses_ s;
     yb_client_initialized_ := yb_client_initialized_ s;
     client_ := client_ s; table_ := table_ s;
     command_name_to_info_map_ := m;
     metrics_ := metrics_ s |}.

Definition set_client_ (c : option YBClient) (s : RedisServiceImpl) :=
  {| yb_tier_master_addresses_ := yb_tier_master_addresses_ s;
     yb_client_initialized_ := yb_client_initialized_ s;
     client_ := c; table_ := table_ s;
     command_name_to_info_map_ := command_name_to_info_map_ s;
     metrics_ := metrics_ s |}.

Definition set_table_ (t : option YBTable) (s : RedisServiceImpl) :=
  {| yb_tier_master_addresses_ := yb_tier_master_addresses_ s;
     yb_client_initialized_ := yb_client_initialized_ s;
     client_ := client_ s; table_ := t;
     command_name_to_info_map_ := command_name_to_info_map_ s;
     metrics_ := metrics_ s |}.

Definition set_yb_client_initialized_ (b : bool) (s : RedisServiceImpl) :=
  {| yb_tier_master_addresses_ := yb_tier_master_addresses_ s;
     yb_client_initialized_ := b;
     client_ := client_ s; table_ := table_ s;
     command_name_to_info_map_ := command_name_to_info_map_ s;
     metrics_ := metrics_ s |}.

(** What the collaborators answer during one dispatch. *)
Record Env := mkEnv {
  env_build : Status;           (* client_builder.Build(&client_) *)
  env_open_table : Status;      (* client_->OpenTable(table_name, &table_) *)
  env_set_flush_mode : Status;  (* session->SetFlushMode(MANUAL_FLUSH) *)
  env_apply : Status;           (* session->Apply(write_op) *)
  env_now : Z                   (* MonoTime::Now(MonoTime::FINE), microseconds *)
}.

(** ** A monad for the member functions: process state, emitted events,
    and abnormal termination *)

Definition M (A : Type) : Type := Process -> Outcome (A * Process * list Event).

Definition ret {A} (a : A) : M A := fun p => Returns (a, p, []).

(** Events that happened before [o] was reached. *)
Definition prefixed {A} (pre : list Event) (o : Outcome (A * Process * list Event))
    : Outcome (A * Process * list Event) :=
  match o with
  | Returns (a, p, evs) => Returns (a, p, pre ++ evs)
  | CheckFailure w => CheckFailure w
  | AssertionFailure w => AssertionFailure w
  | Undefined w => Undefined w
  end.

Definition bind {A B} (x : M A) (f : A -> M B) : M B :=
  fun p =>
    match x p with
    | Returns (a, p1, e1) => prefixed e1 (f a p1)
    | CheckFailure w => CheckFailure w
    | AssertionFailure w => AssertionFailure w
    | Undefined w => Undefined w
    end.

Declare Scope m_scope.
Delimit Scope m_scope with M.
Notation "x <- c1 ;; c2" := (bind c1 (fun x => c2))
  (at level 100, c1 at next level, right associativity) : m_scope.
Notation "c1 ;; c2" := (bind c1 (fun _ => c2))
  (at level 100, right associativity) : m_scope.

Definition emit (e : Event) : M unit := fun p => Returns (tt, p, [e]).
Definition get : M Process := fun p => Returns (p, p, []).
Definition modify (f : Process -> Process) : M unit := fun p => Returns (tt, f p, []).
Definition lift {A} (o : Outcome A) : M A :=
  fun p =>
    match o with
    | Returns a => Returns (a, p, [])
    | CheckFailure w => CheckFailure w
    | AssertionFailure w => AssertionFailure w
    | Undefined w => Undefined w
    end.

(** The events of a run that returned. *)
Definition events_of {A} (o : Outcome (A * Process * list Event)) : list Event :=
  match o with Returns (_, _, evs) => evs | _ => [] end.

Definition check_failure {A} (what : string) : M A := fun _ => CheckFailure what.
Definition undefined {A} (what : string) : M A := fun _ => Undefined what.

(** [Outcome] on its own, for the constructor. *)
Definition obind {A B} (x : Outcome A) (f : A -> Outcome B) : Outcome B :=
  match x with
  | Returns a => f a
  | CheckFailure w => CheckFailure w
  | AssertionFailure w => AssertionFailure w
  | Undefined w => Undefined w
  end.

(** The parsers of redis_parser.cc are passed in as function pointers; by
    their contract they fill the request of the operation they are given
    from the argument vector, or fail with a message. *)
Definition ReadParser := RedisReadRequestPB -> list Slice -> Status * RedisReadRequestPB.
Definition WriteParser := RedisWriteRequestPB -> list Slice -> Status * RedisWriteRequestPB.

(** The commands [PopulateHandlers] sets up, in the order it does. *)
Definition methods : list string :=
  ["get"; "hget"; "strlen"; "exists"; "getrange";
   "set"; "hset"; "getset"; "append"; "del"; "setrange"; "incr"; "echo"].

(** ** What redis_service.cc takes from files that are not among the sources

    The command table and the constants come from headers
    (redis_service.h, redis_constants.h), the parsers from redis_parser.cc,
    [Status::ToString] and the stream operator of [Slice] from yb/util. *)
Class Externals := {
  kRedisCommandTable : list RedisCommandInfo;
  kMethodCount : Z;
  kRedisTableName : string;
  kRpcTimeoutSec : Z;
  (** [DEFINE_int32(redis_service_yb_client_timeout_millis, 60000, ...)]: a
      flag, so its value is whatever the process was started with. *)
  FLAGS_redis_service_yb_client_timeout_millis : Z;
  Status_ToString : Status -> string;
  Slice_to_ostream : Slice -> string;
  ParseGet : ReadParser;
  ParseHGet : ReadParser;
  ParseStrLen : ReadParser;
  ParseExists : ReadParser;
  ParseGetRange : ReadParser;
  ParseSet : WriteParser;
  ParseHSet : WriteParser;
  ParseGetSet : WriteParser;
  ParseAppend : WriteParser;
  ParseDel : WriteParser;
  ParseSetRange : WriteParser;
  ParseIncr : WriteParser
}.

(** ** redis_service.cc: code *)
Section Service.

Context `{Externals}.

(** [metrics_[k]]: [operator[]] default-constructs a missing entry. *)
Definition metrics_at (k : string) : M RpcMethodMetrics :=
  fun p =>
    match metrics_ (service p) !! k with
    | Some v => Returns (v, p, [])
    | None =>
        Returns (new_RpcMethodMetrics,
                 with_service
                   (set_metrics_ (<[k := new_RpcMethodMetrics]> (metrics_ (service p)))) p,
                 [])
    end.

(** [SETUP_METRICS_FOR_METHOD(method, idx)] *)
Definition SETUP_METRICS_FOR_METHOD (method : string) (idx : nat)
    (s : RedisServiceImpl) : Outcome RedisServiceImpl :=
  match kRedisCommandTable !! idx with
  | None => Undefined "kRedisCommandTable[idx]"
  | Some info =>
      if String.eqb method (name info) then
        let s1 := set_command_name_to_info_map_
                    (<[method := info]> (command_name_to_info_map_ s)) s in
        Returns (set_metrics_
                   (<[method := {| handler_latency := Some (METRIC_handler_latency method) |}]>
                      (metrics_ s1)) s1)
      else CheckFailure "Expected command at index"
  end.

(** The run of [SETUP_METRICS_FOR_METHOD(m, idx); idx++;] lines. *)
Fixpoint setup_methods (ms : list string) (idx : nat) (s : RedisServiceImpl)
    : Outcome (nat * RedisServiceImpl) :=
  match ms with
  | [] => Returns (idx, s)
  | m :: rest =>
      obind (SETUP_METRICS_FOR_METHOD m idx s) (fun s' => setup_methods rest (S idx) s')
  end.

Definition setup_internal_metric (k : string) (s : RedisServiceImpl) : RedisServiceImpl :=
  set_metrics_ (<[k := {| handler_latency := Some (METRIC_handler_latency k) |}]> (metrics_ s)) s.

(** [RedisServiceImpl::PopulateHandlers] *)
Definition PopulateHandlers (s : RedisServiceImpl) : Outcome RedisServiceImpl :=
  if kMethodCount =? Z.of_nat (length kRedisCommandTable) then
    obind (setup_methods methods 0 s) (fun '(idx, s1) =>
      if kMethodCount =? Z.of_nat idx then
        Returns (setup_internal_metric "set_internal"
                   (setup_internal_metric "get_internal"
                      (setup_internal_metric "error" s1)))
      else CheckFailure "kMethodCount == idx")
  else CheckFailure "Expect to see kMethodCount elements in kRedisCommandTable".

(** [RedisServiceImpl::RedisServiceImpl] *)
Definition RedisServiceImpl_new (yb_tier_master_addresses : string)
    : Outcome RedisServiceImpl :=
  PopulateHandlers
    {| yb_tier_master_addresses_ := yb_tier_master_addresses;
       yb_client_initialized_ := false;
       client_ := None; table_ := None;
       command_name_to_info_map_ := ∅; metrics_ := ∅ |}.

(** [RedisServiceImpl::FetchHandler]; the result is a pointer into the
    constant command table, null when the command is unknown. *)
Definition FetchHandler (cmd_args : list Slice) : M (option RedisCommandInfo) :=
  match cmd_args with
  | [] => check_failure "Need to have at least the command name in the argument vector."
  | a :: _ =>
      let cmd_name := ToLowerCase a in
      (p <- get ;;
       match command_name_to_info_map_ (service p) !! cmd_name with
       | None =>
           (emit (EvLogError ("Command " +:+ cmd_name +:+ " not yet supported.")) ;;
            ret None)%M
       | Some info => ret (Some info)
       end)%M
  end.

(** [RedisServiceImpl::RespondWithFailure] *)
Definition RespondWithFailure (error : string) (call : InboundCall) : M unit :=
  match cmd_args call with
  | [] => undefined "c->cmd_args[0]"
  | cmd :: _ =>
      (m <- metrics_at "error" ;;
       emit (EvRespondFailure call
               (Error RuntimeError (StringPrintf_s_colon_s error cmd)) m))%M
  end.

(** [RedisServiceImpl::SetUpYBClient] *)
Definition SetUpYBClient (env : Env) (yb_tier_master_addresses : string) : M Status :=
  (emit EvMutexLock ;;
   p <- get ;;
   status <-
     (if negb (yb_client_initialized_ (service p)) then
        let c := {| client_name := "redis_ybclient";
                    master_server_addr := yb_tier_master_addresses;
                    default_rpc_timeout_sec := kRpcTimeoutSec |} in
        emit (EvClientBuild c) ;;
        if negb (ok (env_build env)) then ret (env_build env)
        else
          modify (with_service (set_client_ (Some c))) ;;
          emit (EvOpenTable kRedisTableName) ;;
          if negb (ok (env_open_table env)) then ret (env_open_table env)
          else
            modify (with_service (set_table_ (Some {| table_name := kRedisTableName |}))) ;;
            modify (with_service (set_yb_client_initialized_ true)) ;;
            ret OK
      else ret OK) ;;
   emit EvMutexUnlock ;;
   ret status)%M.

(** [RedisServiceImpl::ConfigureSession] *)
Definition ConfigureSession (session : YBSession) : M YBSession :=
  (emit (EvSetTimeoutMillis FLAGS_redis_service_yb_client_timeout_millis) ;;
   ret {| session_read_only := session_read_only session;
          session_timeout_millis := Some FLAGS_redis_service_yb_client_timeout_millis;
          session_flush_mode := session_flush_mode session |})%M.

(** [client_->NewSession(read_only)], [ConfigureSession],
    [CHECK_OK(session->SetFlushMode(MANUAL_FLUSH))]: the opening lines of
    both pipelines. *)
Definition open_session (env : Env) (read_only : bool) : M YBSession :=
  (p <- get ;;
   match client_ (service p) with
   | None => undefined "client_->NewSession"
   | Some _ =>
       emit (EvNewSession read_only) ;;
       s <- ConfigureSession {| session_read_only := read_only;
                                session_timeout_millis := None;
                                session_flush_mode := None |} ;;
       emit (EvSetFlushMode MANUAL_FLUSH) ;;
       if ok (env_set_flush_mode env) then
         ret {| session_read_only := session_read_only s;
                session_timeout_millis := session_timeout_millis s;
                session_flush_mode := Some MANUAL_FLUSH |}
       else check_failure "CHECK_OK(SetFlushMode)"
   end)%M.

(** [shared_ptr<YBRedisReadOp> read_op(table_->NewRedisRead())] *)
Definition NewRedisRead : M loc :=
  (p <- get ;;
   match table_ (service p) with
   | None => undefined "table_->NewRedisRead"
   | Some tbl =>
       let o := fresh (dom (read_ops p)) in
       modify (set_read_ops (<[o := YBRedisReadOp.create tbl]> (read_ops p))) ;;
       emit (EvNewRedisRead o) ;;
       ret o
   end)%M.

Definition NewRedisWrite : M loc :=
  (p <- get ;;
   match table_ (service p) with
   | None => undefined "table_->NewRedisWrite"
   | Some tbl =>
       let o := fresh (dom (write_ops p)) in
       modify (set_write_ops (<[o := YBRedisWriteOp.create tbl]> (write_ops p))) ;;
       emit (EvNewRedisWrite o) ;;
       ret o
   end)%M.

(** [parse(read_op.get(), c->cmd_args)] *)
Definition parse_read (parse : ReadParser) (o : loc) (args : list Slice) : M Status :=
  (p <- get ;;
   match read_ops p !! o with
   | None => undefined "read_op.get()"
   | Some op =>
       let '(s, rq) := parse (YBRedisReadOp.redis_read_request_ op) args in
       modify (set_read_ops (<[o := YBRedisReadOp.set_request rq op]> (read_ops p))) ;;
       ret s
   end)%M.

Definition parse_write (parse : WriteParser) (o : loc) (args : list Slice) : M Status :=
  (p <- get ;;
   match write_ops p !! o with
   | None => undefined "write_op.get()"
   | Some op =>
       let '(s, rq) := parse (YBRedisWriteOp.redis_write_request_ op) args in
       modify (set_write_ops (<[o := YBRedisWriteOp.set_request rq op]> (write_ops p))) ;;
       ret s
   end)%M.

(** [RedisServiceImpl::ReadCommand].  The local [shared_ptr]s go out of
    scope at the end: after a failed parse nothing else owns the operation,
    which the store keeps on record all the same. *)
Definition ReadCommand (env : Env) (call : InboundCall) (command_name : string)
    (parse : ReadParser) : M unit :=
  (read_only_session <- open_session env true ;;
   read_op <- NewRedisRead ;;
   s <- parse_read parse read_op (cmd_args call) ;;
   if negb (ok s) then RespondWithFailure (message s) call
   else
     metrics <- metrics_at command_name ;;
     metrics_internal <- metrics_at "get_internal" ;;
     emit (EvReadAsync read_only_session read_op
             {| rcb_session_ := Some read_only_session;
                rcb_redis_call_ := call;
                read_op_ := read_op;
                rcb_metrics_ := metrics;
                rcb_metrics_internal_ := metrics_internal;
                rcb_start_ := env_now env |}))%M.

Definition GetCommand env call := ReadCommand env call "get" ParseGet.
Definition HGetCommand env call := ReadCommand env call "hget" ParseHGet.
Definition StrLenCommand env call := ReadCommand env call "strlen" ParseStrLen.
Definition ExistsCommand env call := ReadCommand env call "exists" ParseExists.
Definition GetRangeCommand env call := ReadCommand env call "exists" ParseGetRange.

(** [RedisServiceImpl::WriteCommand]; the operation of a failed parse as in
    [ReadCommand]. *)
Definition WriteCommand (env : Env) (call : InboundCall) (command_name : string)
    (parse : WriteParser) : M unit :=
  (tmp_session <- open_session env false ;;
   write_op <- NewRedisWrite ;;
   s <- parse_write parse write_op (cmd_args call) ;;
   if negb (ok s) then RespondWithFailure (message s) call
   else
     emit (EvApply tmp_session write_op) ;;
     if negb (ok (env_apply env)) then check_failure "CHECK_OK(Apply)"
     else
       metrics <- metrics_at command_name ;;
       metrics_internal <- metrics_at "set_internal" ;;
       emit (EvFlushAsync tmp_session
               {| wcb_session_ := Some tmp_session;
                  wcb_redis_call_ := call;
                  write_op_ := write_op;
                  wcb_metrics_ := metrics;
                  wcb_metrics_internal_ := metrics_internal;
                  wcb_start_ := env_now env |}))%M.

Definition SetCommand env call := WriteCommand env call "set" ParseSet.
Definition HSetCommand env call := WriteCommand env call "hset" ParseHSet.
Definition GetSetCommand env call := WriteCommand env call "getset" ParseGetSet.
Definition AppendCommand env call := WriteCommand env call "append" ParseAppend.
Definition DelCommand env call := WriteCommand env call "del" ParseDel.
Definition SetRangeCommand env call := WriteCommand env call "setrange" ParseSetRange.
Definition IncrCommand env call := WriteCommand env call "incr" ParseIncr.

(** [RedisServiceImpl::EchoCommand] *)
Definition EchoCommand (env : Env) (call : InboundCall) : M unit :=
  match cmd_args call !! 1%nat with
  | None => undefined "c->cmd_args[1]"
  | Some a =>
      (m <- metrics_at "echo" ;;
       emit (EvRespondSuccess call (set_string_response a new_RedisResponsePB) m))%M
  end.

(** [(this->*cmd_info->function_ptr)(call, c)] *)
Definition invoke (f : CommandFn) (env : Env) (call : InboundCall) : M unit :=
  match f with
  | fn_GetCommand => GetCommand env call
  | fn_HGetCommand => HGetCommand env call
  | fn_StrLenCommand => StrLenCommand env call
  | fn_ExistsCommand => ExistsCommand env call
  | fn_GetRangeCommand => GetRangeCommand env call
  | fn_SetCommand => SetCommand env call
  | fn_HSetCommand => HSetCommand env call
  | fn_GetSetCommand => GetSetCommand env call
  | fn_AppendCommand => AppendCommand env call
  | fn_DelCommand => DelCommand env call
  | fn_SetRangeCommand => SetRangeCommand env call
  | fn_IncrCommand => IncrCommand env call
  | fn_EchoCommand => EchoCommand env call
  end.

(** [LOG(ERROR) << "Requested command " << c->cmd_args[0] << tail] *)
Definition log_requested_command (call : InboundCall) (tail : string) : M unit :=
  match cmd_args call with
  | [] => undefined "c->cmd_args[0]"
  | a :: _ => emit (EvLogError ("Requested command " +:+ Slice_to_ostream a +:+ tail))
  end.

(** The second statement of [ValidateAndHandle], under its comment
    "Handle the current redis command." *)
Definition handle_current_command (env : Env) (cmd_info : option RedisCommandInfo)
    (call : InboundCall) : M unit :=
  match cmd_info with
  | None => RespondWithFailure "Unsupported call." call
  | Some info =>
      let size := Z.of_nat (length (cmd_args call)) in
      (too_few <-
         (if arity info <? 0 then
            n <- lift (int_mul (-1) (arity info)) ;;
            ret (size <? to_size_t n)
          else ret false) ;;
       if too_few then
         log_requested_command call " does not have enough arguments." ;;
         RespondWithFailure "Too few arguments." call
       else if (0 <? arity info) && negb (size =? to_size_t (arity info)) then
         log_requested_command call " has wrong number of arguments." ;;
         RespondWithFailure "Wrong number of arguments." call
       else invoke (function_ptr info) env call)%M
  end.

(** [RedisServiceImpl::ValidateAndHandle] *)
Definition ValidateAndHandle (env : Env) (cmd_info : option RedisCommandInfo)
    (call : InboundCall) : M unit :=
  (p <- get ;;
   if negb (yb_client_initialized_ (service p)) then
     status <- SetUpYBClient env (yb_tier_master_addresses_ (service p)) ;;
     if negb (ok status) then
       RespondWithFailure ("Could not open .redis table. " +:+ Status_ToString status) call
     else handle_current_command env cmd_info call
   else handle_current_command env cmd_info call)%M.

(** [RedisServiceImpl::Handle]; a call is an object here, so the
    [CHECK_NOTNULL] on the pointer has nothing to fail on. *)
Definition Handle (env : Env) (call : InboundCall) : M unit :=
  (cmd_info <- FetchHandler (cmd_args call) ;;
   ValidateAndHandle env cmd_info call)%M.

(** [ReadCommandCb::Run]; [now] is what [MonoTime::Now] returns.  The
    closing [delete this] ends the completion object and with it its hold on
    the session and the operation; the object is not part of the process
    state, and the store keeps the operation on record. *)
Definition ReadCommandCb_Run (cb : ReadCommandCb) (now : Z) (status : Status) : M unit :=
  match handler_latency (rcb_metrics_internal_ cb) with
  | None => undefined "metrics_internal_.handler_latency->Increment"
  | Some h =>
      (emit (EvIncrement h (now - rcb_start_ cb)) ;;
       if ok status then
         p <- get ;;
         match read_ops p !! read_op_ cb with
         | None => undefined "read_op_->response()"
         | Some op =>
             ok_response <- lift (YBRedisReadOp.response (responses p) op) ;;
             emit (EvRespondSuccess (rcb_redis_call_ cb) ok_response (rcb_metrics_ cb))
         end
       else emit (EvRespondFailure (rcb_redis_call_ cb) status (rcb_metrics_ cb)))%M
  end.

(** The [for] loop over the pending errors. *)
Fixpoint log_pending_errors (errors : list YBError) : M unit :=
  match errors with
  | [] => ret tt
  | error :: rest =>
      (emit (EvLogWarning ("Explicit error while inserting: "
                           +:+ Status_ToString (error_status error))) ;;
       log_pending_errors rest)%M
  end.

(** [WriteCommandCb::Run]; [pending] is what
    [session_->GetPendingErrors(&errors, &overflowed)] hands back.  The
    closing [delete this] as in [ReadCommandCb::Run]. *)
Definition WriteCommandCb_Run (cb : WriteCommandCb) (now : Z)
    (pending : list YBError * bool) (status : Status) : M unit :=
  match handler_latency (wcb_metrics_internal_ cb) with
  | None => undefined "metrics_internal_.handler_latency->Increment"
  | Some h =>
      (emit (EvIncrement h (now - wcb_start_ cb)) ;;
       if ok status then
         p <- get ;;
         match write_ops p !! write_op_ cb with
         | None => undefined "write_op_->response()"
         | Some op =>
             ok_response <- lift (YBRedisWriteOp.response (responses p) op) ;;
             emit (EvRespondSuccess (wcb_redis_call_ cb) ok_response (wcb_metrics_ cb))
         end
       else
         match wcb_session_ cb with
         | Some _ =>
             emit EvGetPendingErrors ;;
             log_pending_errors (fst pending)
         | None => ret tt
         end ;;
         emit (EvRespondFailure (wcb_redis_call_ cb) status (wcb_metrics_ cb)))%M
  end.

End Service.

(** ** Notions the statements are written with *)

(** [x], started in [p], returns, and [Q] holds of what it returns. *)
Definition produces {A} (x : M A) (p : Process)
    (Q : A -> Process -> list Event -> Prop) : Prop :=
  exists a p' evs, x p = Returns (a, p', evs) /\ Q a p' evs.

(** [Q] holds of whatever [x], started in [p], returns, if it does. *)
Definition ensures {A} (x : M A) (p : Process)
    (Q : A -> Process -> list Event -> Prop) : Prop :=
  match x p with
  | Returns (a, p', evs) => Q a p' evs
  | _ => True
  end.

Section Dispatch.

Context `{Externals}.

(** The first statement of [ValidateAndHandle] on its own: the flag test
    and, when the flag is unset, the call of [SetUpYBClient]. *)
Definition ensure_client (env : Env) : M Status :=
  (p <- get ;;
   if negb (yb_client_initialized_ (service p)) then
     SetUpYBClient env (yb_tier_master_addresses_ (service p))
   else ret OK)%M.

(** The session both pipelines work with, and what opening it does. *)
Definition manual_session (read_only : bool) : YBSession :=
  {| session_read_only := read_only;
     session_timeout_millis := Some FLAGS_redis_service_yb_client_timeout_millis;
     session_flush_mode := Some MANUAL_FLUSH |}.

Definition session_events (read_only : bool) : list Event :=
  [EvNewSession read_only;
   EvSetTimeoutMillis FLAGS_redis_service_yb_client_timeout_millis;
   EvSetFlushMode MANUAL_FLUSH].

(** The client [SetUpYBClient] builds. *)
Definition redis_ybclient (addresses : string) : YBClient :=
  {| client_name := "redis_ybclient";
     master_server_addr := addresses;
     default_rpc_timeout_sec := kRpcTimeoutSec |}.

(** The warning [WriteCommandCb::Run] logs for one pending error. *)
Definition pending_error_warning (error : YBError) : Event :=
  EvLogWarning ("Explicit error while inserting: "
                +:+ Status_ToString (error_status error)).

(** What the build/open sequence of [SetUpYBClient] does under [env]. *)
Definition setup_events (env : Env) (addresses : string) : list Event :=
  [EvMutexLock; EvClientBuild (redis_ybclient addresses)]
  ++ (if ok (env_build env) then [EvOpenTable kRedisTableName] else [])
  ++ [EvMutexUnlock].

End Dispatch.

(** The status of the build/open sequence under [env]. *)
Definition setup_status (env : Env) : Status :=
  if ok (env_build env) then env_open_table env else env_build env.

(** An arity contract, as the spec words it, met by [size] arguments. *)
Definition arity_satisfied (a size : Z) : bool :=
  if a <? 0 then - a <=? size
  else if 0 <? a then size =? a
  else true.

(** [arity] is an [int] whose negation is an [int] as well. *)
Definition valid_arity (a : Z) : Prop := INT_MIN < a <= INT_MAX.

(** ** The backend's side of a submitted operation *)

(** Modelled from the spec: the code that completes a submitted read
    (yb/client/async_rpc.cc) is not among the sources.  The spec's data model
    has the "backend response slot (populated only on success)": on success
    the backend obtains the slot through [mutable_response] and stores the
    payload there before it runs the callback; on failure it leaves the
    operation alone. *)
Definition backend_complete_read (status : Status) (payload : RedisResponsePB)
    (o : loc) (p : Process) : Process :=
  if ok status then
    match read_ops p !! o with
    | None => p
    | Some op =>
        match YBRedisReadOp.mutable_response (responses p) op with
        | (Ptr l, h, op') =>
            set_responses (<[l := payload]> h) (set_read_ops (<[o := op']> (read_ops p)) p)
        | (nullptr, _, _) => p
        end
    end
  else p.

(** Modelled from the spec: the same for a flushed write. *)
Definition backend_complete_write (status : Status) (payload : RedisResponsePB)
    (o : loc) (p : Process) : Process :=
  if ok status then
    match write_ops p !! o with
    | None => p
    | Some op =>
        match YBRedisWriteOp.mutable_response (responses p) op with
        | (Ptr l, h, op') =>
            set_responses (<[l := payload]> h) (set_write_ops (<[o := op']> (write_ops p)) p)
        | (nullptr, _, _) => p
        end
    end
  else p.

(** ** Predicates used in the statements *)

(** The response slot of the read at [o] holds [r]. *)
Definition read_slot_holds (o : loc) (r : RedisResponsePB) (p : Process) : Prop :=
  exists op l,
    read_ops p !! o = Some op
    /\ YBRedisReadOp.redis_response_ op = Ptr l
    /\ responses p !! l = Some r.

Definition write_slot_holds (o : loc) (r : RedisResponsePB) (p : Process) : Prop :=
  exists op l,
    write_ops p !! o = Some op
    /\ YBRedisWriteOp.redis_response_ op = Ptr l
    /\ responses p !! l = Some r.

(** The metric [PopulateHandlers] leaves under key [k]. *)
Definition metric_of (k : string) : RpcMethodMetrics :=
  {| handler_latency := Some (METRIC_handler_latency k) |}.

Definition metric_keys : list string := methods ++ ["error"; "get_internal"; "set_internal"].

(** Every key of [PopulateHandlers] still maps to its own histogram. *)
Definition metrics_registered (s : RedisServiceImpl) : Prop :=
  forall k, In k metric_keys -> metrics_ s !! k = Some (metric_of k).

(** Once the flag is set, the client and the table are there. *)
Definition client_ready (s : RedisServiceImpl) : Prop :=
  yb_client_initialized_ s = true -> is_Some (client_ s) /\ is_Some (table_ s).

Definition service_invariant (s : RedisServiceImpl) : Prop :=
  metrics_registered s /\ client_ready s.

(** The registry maps [n] to a table entry of that name. *)
Definition named_entry (s : RedisServiceImpl) (n : string) : Prop :=
  exists i, command_name_to_info_map_ s !! n = Some i /\ name i = n.

(** Entries of [metrics_] are never overwritten or removed. *)
Definition metrics_kept (s s' : RedisServiceImpl) : Prop :=
  forall k v, metrics_ s !! k = Some v -> metrics_ s' !! k = Some v.

(** [s'] is [s] up to the entries [operator[]] added to [metrics_]. *)
Definition service_up_to_metrics (s s' : RedisServiceImpl) : Prop :=
  s' = set_metrics_ (metrics_ s') s /\ metrics_kept s s'.

(** An event that ends a dispatch: a response, or the submission of an
    operation whose completion will respond. *)
Definition is_submission (e : Event) : bool :=
  match e with EvReadAsync _ _ _ | EvFlushAsync _ _ => true | _ => false end.

Definition terminal (e : Event) : bool := is_response e || is_submission e.

(** What a dispatch of [call] under [env] may end with. *)
Definition terminal_for (env : Env) (call : InboundCall) (e : Event) : Prop :=
  match e with
  | EvRespondSuccess c _ _ => c = call
  | EvRespondFailure c _ _ => c = call
  | EvReadAsync s o cb =>
      rcb_redis_call_ cb = call /\ read_op_ cb = o /\ rcb_session_ cb = Some s
      /\ rcb_metrics_internal_ cb = metric_of "get_internal"
      /\ rcb_start_ cb = env_now env
  | EvFlushAsync s cb =>
      wcb_redis_call_ cb = call /\ wcb_session_ cb = Some s
      /\ wcb_metrics_internal_ cb = metric_of "set_internal"
      /\ wcb_start_ cb = env_now env
  | _ => False
  end.

(** An event that neither ends a dispatch nor belongs to the client set-up. *)
Definition quiet (e : Event) : bool :=
  negb (terminal e) && negb (is_lock e) && negb (is_build_or_open e).

(** Events of a dispatch of [call] that got past the client set-up: quiet
    ones, then the one that ends it. *)
Definition ends_dispatch (env : Env) (call : InboundCall) (evs : list Event) : Prop :=
  exists pre e, evs = pre ++ [e] /\ forallb quiet pre = true /\ terminal_for env call e.

(** No event of [evs] takes the mutex or builds the client or opens the table. *)
Definition no_setup (evs : list Event) : Prop :=
  forallb (fun e => negb (is_lock e) && negb (is_build_or_open e)) evs = true.

(** No event of [evs] hands work to the backend. *)
Definition no_backend_call (evs : list Event) : Prop :=
  forallb (fun e => negb (is_backend_call e)) evs = true.

(** The response the completion of [call] owes its caller. *)
Definition completion_response (call : InboundCall) (status : Status)
    (payload : RedisResponsePB) (metrics : RpcMethodMetrics) : Event :=
  if ok status then EvRespondSuccess call payload metrics
  else EvRespondFailure call status metrics.

(** "At least N" and "exactly N" read off an [arity]. *)
Definition at_least (info : RedisCommandInfo) (n : Z) : Prop :=
  arity info < 0 /\ n = - arity info.

Definition exactly (info : RedisCommandInfo) (n : Z) : Prop :=
  0 < arity info /\ n = arity info.

(** The failure [RespondWithFailure(error, call, c)] sends. *)
Definition failure_response (error : string) (call : InboundCall) (cmd : Slice)
    (m : RpcMethodMetrics) : Event :=
  EvRespondFailure call (Error RuntimeError (StringPrintf_s_colon_s error cmd)) m.

(** ** A sample instance, for running the definitions *)
Module Sample.

Definition table : list RedisCommandInfo :=
  [ mkRedisCommandInfo "get" fn_GetCommand 2;
    mkRedisCommandInfo "hget" fn_HGetCommand 3;
    mkRedisCommandInfo "strlen" fn_StrLenCommand 2;
    mkRedisCommandInfo "exists" fn_ExistsCommand 2;
    mkRedisCommandInfo "getrange" fn_GetRangeCommand 4;
    mkRedisCommandInfo "set" fn_SetCommand (-3);
    mkRedisCommandInfo "hset" fn_HSetCommand 4;
    mkRedisCommandInfo "getset" fn_GetSetCommand 3;
    mkRedisCommandInfo "append" fn_AppendCommand 3;
    mkRedisCommandInfo "del" fn_DelCommand 2;
    mkRedisCommandInfo "setrange" fn_SetRangeCommand 4;
    mkRedisCommandInfo "incr" fn_IncrCommand 2;
    mkRedisCommandInfo "echo" fn_EchoCommand 2 ].

Definition status_to_string (s : Status) : string :=
  match s with
  | OK => "OK"
  | Error TimedOut m => "Timed out: " +:+ m
  | Error NetworkError m => "Network error: " +:+ m
  | Error _ m => "Error: " +:+ m
  end.

(** A parser that wants a non-empty key after the command name. *)
Definition parse_key (rq : list (string * Slice)) (args : list Slice)
    : Status * list (string * Slice) :=
  match args with
  | _ :: String c k :: _ => (OK, ("key", String c k) :: rq)
  | _ => (Error InvalidArgument "A key is required", rq)
  end.

Definition externals : Externals :=
  {| kRedisCommandTable := table;
     kMethodCount := 13;
     kRedisTableName := ".redis";
     kRpcTimeoutSec := 5;
     FLAGS_redis_service_yb_client_timeout_millis := 60000;
     Status_ToString := status_to_string;
     Slice_to_ostream := fun s => s;
     ParseGet := parse_key; ParseHGet := parse_key; ParseStrLen := parse_key;
     ParseExists := parse_key; ParseGetRange := parse_key;
     ParseSet := parse_key; ParseHSet := parse_key; ParseGetSet := parse_key;
     ParseAppend := parse_key; ParseDel := parse_key; ParseSetRange := parse_key;
     ParseIncr := parse_key |}.

Definition env_up : Env :=
  {| env_build := OK; env_open_table := OK; env_set_flush_mode := OK;
     env_apply := OK; env_now := 1000 |}.

Definition env_down : Env :=
  {| env_build := Error NetworkError "master unreachable"; env_open_table := OK;
     env_set_flush_mode := OK; env_apply := OK; env_now := 1000 |}.

Definition fresh_process (s : RedisServiceImpl) : Process :=
  {| service := s; responses := ∅; read_ops := ∅; write_ops := ∅ |}.

(** The service after its constructor (the empty service should the
    constructor abort, which it does not for [table]). *)
Definition started : Process :=
  Eval vm_compute in
    match RedisServiceImpl_new (H := externals) "127.0.0.1:7100" with
    | Returns s => fresh_process s
    | _ => fresh_process (mkRedisServiceImpl "" false None None ∅ ∅)
    end.

(** The process after one dispatch that returned. *)
Definition after (env : Env) (call : InboundCall) (p : Process) : Process :=
  match Handle (H := externals) env call p with
  | Returns (_, p', _) => p'
  | _ => p
  end.

Definition ping : InboundCall := mkInboundCall 1 ["ECHO"; "hello"].
Definition get_k : InboundCall := mkInboundCall 2 ["GeT"; "k"].
Definition set_k_v : InboundCall := mkInboundCall 3 ["SET"; "k"; "v"].
Definition getrange_k : InboundCall := mkInboundCall 4 ["GETRANGE"; "k"; "0"; "1"].
Definition foo_bar : InboundCall := mkInboundCall 5 ["FOO"; "bar"].
Definition set_k : InboundCall := mkInboundCall 7 ["SET"; "k"].
Definition get_empty_key : InboundCall := mkInboundCall 8 ["GET"; ""].

(** The events of one dispatch that returned. *)
Definition events (env : Env) (call : InboundCall) (p : Process) : list Event :=
  events_of (Handle (H := externals) env call p).

(** The service once a first command has connected it. *)
Definition connected : Process := Eval vm_compute in after env_up ping started.

(** What the two pipelines submit for [get_k], [getrange_k] and [set_k_v]
    on the connected service. *)
Definition read_session : YBSession := manual_session (H := externals) true.
Definition write_session : YBSession := manual_session (H := externals) false.

Definition get_cb : ReadCommandCb :=
  mkReadCommandCb (Some read_session) get_k 1%positive
    (metric_of "get") (metric_of "get_internal") 1000.

Definition getrange_cb : ReadCommandCb :=
  mkReadCommandCb (Some read_session) getrange_k 1%positive
    (metric_of "exists") (metric_of "get_internal") 1000.

Definition set_cb : WriteCommandCb :=
  mkWriteCommandCb (Some write_session) set_k_v 1%positive
    (metric_of "set") (metric_of "set_internal") 1000.

Definition payload : RedisResponsePB := set_string_response "v" new_RedisResponsePB.

Definition timed_out : Status := Error TimedOut "flush timed out".

Definition two_pending : list YBError * bool :=
  ([mkYBError (Error IOError "row 1"); mkYBError (Error Aborted "row 2")], true).

End Sample.

(** ** Notions for the dispatch as a whole *)

(** Nothing the caller or the backend is handed: neither a response nor an
    operation. *)
Definition silent (e : Event) : bool :=
  negb (is_response e) && negb (is_backend_call e).

(** Entries of a store of operations stay where and what they are. *)
Definition ops_kept {A} (m m' : gmap loc A) : Prop :=
  forall o op, m !! o = Some op -> m' !! o = Some op.

(** What one dispatch may change of the process: entries added to [metrics_],
    operations added to the stores and, while the flag is unset, the client
    members. *)
Definition dispatch_frame (p p' : Process) : Prop :=
  yb_tier_master_addresses_ (service p') = yb_tier_master_addresses_ (service p)
  /\ command_name_to_info_map_ (service p') = command_name_to_info_map_ (service p)
  /\ metrics_kept (service p) (service p')
  /\ responses p' = responses p
  /\ ops_kept (read_ops p) (read_ops p')
  /\ ops_kept (write_ops p) (write_ops p')
  /\ (yb_client_initialized_ (service p) = true ->
      yb_client_initialized_ (service p') = true
      /\ client_ (service p') = client_ (service p)
      /\ table_ (service p') = table_ (service p)).

(** [p'] is [p] up to the entries [operator[]] added to [metrics_]. *)
Definition only_metrics (p p' : Process) : Prop :=
  p' = with_service (set_metrics_ (metrics_ (service p'))) p
  /\ metrics_kept (service p) (service p').

(** A handler leaves the service as it is up to [metrics_], the responses as
    they are, and the operations in place. *)
Definition handler_frame (p p' : Process) : Prop :=
  service_up_to_metrics (service p) (service p')
  /\ responses p' = responses p
  /\ ops_kept (read_ops p) (read_ops p')
  /\ ops_kept (write_ops p) (write_ops p').

(** An entry bound to [EchoCommand] asks for two arguments or more. *)
Definition echo_safe (i : RedisCommandInfo) : Prop :=
  function_ptr i = fn_EchoCommand -> 2 <= arity i \/ arity i <= -2.

Definition registry_well_formed (s : RedisServiceImpl) : Prop :=
  forall n i,
    command_name_to_info_map_ s !! n = Some i -> valid_arity (arity i) /\ echo_safe i.

Definition is_unlock (e : Event) : bool :=
  match e with EvMutexUnlock => true | _ => false end.

(** What [WriteCommandCb::Run] does about pending errors: the query and the
    warnings. *)
Definition is_pending_error_event (e : Event) : bool :=
  match e with EvGetPendingErrors | EvLogWarning _ => true | _ => false end.

Section DispatchShape.

Context `{Externals}.

(** The ways a dispatch of [call] ends: a failure from the dispatcher, under
    the "error" metric; the echo; a read submitted with its completion
    object; a write applied and flushed with its completion object. *)
Definition dispatch_tail (env : Env) (call : InboundCall) (tail : list Event) : Prop :=
  (exists error cmd rest,
      cmd_args call = cmd :: rest
      /\ tail = [failure_response error call cmd (metric_of "error")])
  \/ (exists a,
        cmd_args call !! 1%nat = Some a
        /\ tail = [EvRespondSuccess call (set_string_response a new_RedisResponsePB)
                     (metric_of "echo")])
  \/ (exists o n,
        In n methods
        /\ tail = [EvReadAsync (manual_session true) o
                     {| rcb_session_ := Some (manual_session true);
                        rcb_redis_call_ := call; read_op_ := o;
                        rcb_metrics_ := metric_of n;
                        rcb_metrics_internal_ := metric_of "get_internal";
                        rcb_start_ := env_now env |}])
  \/ (exists o n,
        In n methods
        /\ tail = [EvApply (manual_session false) o;
                   EvFlushAsync (manual_session false)
                     {| wcb_session_ := Some (manual_session false);
                        wcb_redis_call_ := call; write_op_ := o;
                        wcb_metrics_ := metric_of n;
                        wcb_metrics_internal_ := metric_of "set_internal";
                        wcb_start_ := env_now env |}]).

(** The events of a dispatch of [call]: silent ones, then one of the endings. *)
Definition dispatch_events (env : Env) (call : InboundCall) (evs : list Event) : Prop :=
  exists pre tail,
    evs = pre ++ tail /\ forallb silent pre = true /\ dispatch_tail env call tail.

(** What a handler leaves behind: its frame and, on a service whose metrics
    are registered, the events of a dispatch. *)
Definition handler_post (env : Env) (call : InboundCall) (p p' : Process)
    (evs : list Event) : Prop :=
  handler_frame p p' /\ (metrics_registered (service p) -> dispatch_events env call evs).

(** The state a read is left in, and to what end. *)
Definition read_outcome (env : Env) (call : InboundCall) (command_name : string)
    (parse : ReadParser) (p p' : Process) (evs : list Event) : Prop :=
  exists o tbl,
    table_ (service p) = Some tbl
    /\ read_ops p !! o = None
    /\ only_metrics
         (set_read_ops
            (<[o := YBRedisReadOp.mk tbl (parse [] (cmd_args call)).2 nullptr]>
               (read_ops p)) p) p'
    /\ exists e,
        evs = session_events true ++ [EvNewRedisRead o; e]
        /\ if ok (parse [] (cmd_args call)).1 then
             exists m mi,
               e = EvReadAsync (manual_session true) o
                     {| rcb_session_ := Some (manual_session true);
                        rcb_redis_call_ := call; read_op_ := o;
                        rcb_metrics_ := m; rcb_metrics_internal_ := mi;
                        rcb_start_ := env_now env |}
               /\ (forall v, metrics_ (service p) !! command_name = Some v -> m = v)
               /\ (forall v, metrics_ (service p) !! "get_internal" = Some v -> mi = v)
           else
             exists cmd rest m,
               cmd_args call = cmd :: rest
               /\ e = failure_response (message (parse [] (cmd_args call)).1) call cmd m
               /\ (forall v, metrics_ (service p) !! "error" = Some v -> m = v).

(** The same for a write. *)
Definition write_outcome (env : Env) (call : InboundCall) (command_name : string)
    (parse : WriteParser) (p p' : Process) (evs : list Event) : Prop :=
  exists o tbl,
    table_ (service p) = Some tbl
    /\ write_ops p !! o = None
    /\ only_metrics
         (set_write_ops
            (<[o := YBRedisWriteOp.mk tbl (parse [] (cmd_args call)).2 nullptr]>
               (write_ops p)) p) p'
    /\ if ok (parse [] (cmd_args call)).1 then
         exists m mi,
           evs = session_events false
                 ++ [EvNewRedisWrite o; EvApply (manual_session false) o;
                     EvFlushAsync (manual_session false)
                       {| wcb_session_ := Some (manual_session false);
                          wcb_redis_call_ := call; write_op_ := o;
                          wcb_metrics_ := m; wcb_metrics_internal_ := mi;
                          wcb_start_ := env_now env |}]
           /\ (forall v, metrics_ (service p) !! command_name = Some v -> m = v)
           /\ (forall v, metrics_ (service p) !! "set_internal" = Some v -> mi = v)
       else
         exists cmd rest m,
           cmd_args call = cmd :: rest
           /\ evs = session_events false
                    ++ [EvNewRedisWrite o;
                        failure_response (message (parse [] (cmd_args call)).1) call cmd m]
           /\ (forall v, metrics_ (service p) !! "error" = Some v -> m = v).

End DispatchShape.

(** ** What the run of a handler shows *)
Section HandlerShape.

Context `{Externals}.

(** The parser each read handler hands to [ReadCommand] and each write
    handler to [WriteCommand]. *)
Definition read_parser (f : CommandFn) : option ReadParser :=
  match f with
  | fn_GetCommand => Some ParseGet
  | fn_HGetCommand => Some ParseHGet
  | fn_StrLenCommand => Some ParseStrLen
  | fn_ExistsCommand => Some ParseExists
  | fn_GetRangeCommand => Some ParseGetRange
  | _ => None
  end.

Definition write_parser (f : CommandFn) : option WriteParser :=
  match f with
  | fn_SetCommand => Some ParseSet
  | fn_HSetCommand => Some ParseHSet
  | fn_GetSetCommand => Some ParseGetSet
  | fn_AppendCommand => Some ParseAppend
  | fn_DelCommand => Some ParseDel
  | fn_SetRangeCommand => Some ParseSetRange
  | fn_IncrCommand => Some ParseIncr
  | _ => None
  end.

(** What the handler [f] needs in order to return: [EchoCommand] a second
    argument; a pipeline the client, the table and a session that accepts
    manual flush, and a write pipeline an [Apply] that succeeds. *)
Definition handler_can_run (env : Env) (call : InboundCall) (f : CommandFn)
    (p : Process) : Prop :=
  match f with
  | fn_EchoCommand => is_Some (cmd_args call !! 1%nat)
  | _ =>
      is_Some (client_ (service p)) /\ is_Some (table_ (service p))
      /\ ok (env_set_flush_mode env) = true
      /\ (is_Some (write_parser f) -> ok (env_apply env) = true)
  end.

(** The events of a run of the handler [f] on [call], whose command token
    is [cmd].  [EchoCommand] answers with the second argument.  A read
    handler opens a read-only session, makes a read operation and, with the
    arguments parsed, submits it by [ReadAsync] with a completion object for
    [call]; a write handler opens a read-write session, makes a write
    operation and, with the arguments parsed, applies it and flushes with a
    completion object for [call].  When its parser fails, either answers
    with the parser's message, " : " and the command token. *)
Definition handler_run (env : Env) (call : InboundCall) (cmd : Slice) (f : CommandFn)
    (evs : list Event) : Prop :=
  match f with
  | fn_EchoCommand =>
      exists a m,
        cmd_args call !! 1%nat = Some a
        /\ evs = [EvRespondSuccess call (set_string_response a new_RedisResponsePB) m]
  | _ =>
      match read_parser f, write_parser f with
      | Some parse, _ =>
          exists o m mi,
            evs = [EvNewSession true;
                   EvSetTimeoutMillis FLAGS_redis_service_yb_client_timeout_millis;
                   EvSetFlushMode MANUAL_FLUSH;
                   EvNewRedisRead o;
                   if ok (parse [] (cmd_args call)).1 then
                     EvReadAsync (manual_session true) o
                       {| rcb_session_ := Some (manual_session true);
                          rcb_redis_call_ := call; read_op_ := o;
                          rcb_metrics_ := m; rcb_metrics_internal_ := mi;
                          rcb_start_ := env_now env |}
                   else
                     EvRespondFailure call
                       (Error RuntimeError
                          (c_str (message (parse [] (cmd_args call)).1)
                           +:+ " : " +:+ c_str cmd)) m]
      | None, Some parse =>
          exists o m mi,
            evs = [EvNewSession false;
                   EvSetTimeoutMillis FLAGS_redis_service_yb_client_timeout_millis;
                   EvSetFlushMode MANUAL_FLUSH;
                   EvNewRedisWrite o]
                  ++ (if ok (parse [] (cmd_args call)).1 then
                        [EvApply (manual_session false) o;
                         EvFlushAsync (manual_session false)
                           {| wcb_session_ := Some (manual_session false);
                              wcb_redis_call_ := call; write_op_ := o;
                              wcb_metrics_ := m; wcb_metrics_internal_ := mi;
                              wcb_start_ := env_now env |}]
                      else
                        [EvRespondFailure call
                           (Error RuntimeError
                              (c_str (message (parse [] (cmd_args call)).1)
                               +:+ " : " +:+ c_str cmd)) m])
      | None, None => False
      end
  end.

End HandlerShape.

(** Every key of [metrics_] in [s'] is a key of [metrics_] in [s] or one of
    the keys [PopulateHandlers] registers. *)
Definition metrics_within (s s' : RedisServiceImpl) : Prop :=
  forall k, is_Some (metrics_ s' !! k) -> is_Some (metrics_ s !! k) \/ In k metric_keys.

(** A member function that, through [metrics_[k]], adds entries under
    registered keys only. *)
Definition adds_registered_keys_only {A} (x : M A) : Prop :=
  forall p, ensures x p (fun _ p' _ => metrics_within (service p) (service p')).

(** Environments in which the session refuses manual flush, and in which
    [Apply] fails; a call whose command name has a NUL byte in it; and a
    command table that is too short. *)
Module SampleFaults.

Definition env_no_manual_flush : Env :=
  {| env_build := OK; env_open_table := OK;
     env_set_flush_mode := Error IllegalState "Cannot change flush mode";
     env_apply := OK; env_now := 1000 |}.

Definition env_apply_fails : Env :=
  {| env_build := OK; env_open_table := OK; env_set_flush_mode := OK;
     env_apply := Error IOError "Could not apply"; env_now := 1000 |}.

Definition foo_nul : InboundCall :=
  mkInboundCall 9 ["FOO" +:+ String zero "bar"; "x"].

(** A command table that ends after the five read commands, with a count
    to match. *)
Definition short_externals : Externals :=
  {| kRedisCommandTable := take 5 Sample.table;
     kMethodCount := 5;
     kRedisTableName := ".redis";
     kRpcTimeoutSec := 5;
     FLAGS_redis_service_yb_client_timeout_millis := 60000;
     Status_ToString := Sample.status_to_string;
     Slice_to_ostream := fun s => s;
     ParseGet := Sample.parse_key; ParseHGet := Sample.parse_key;
     ParseStrLen := Sample.parse_key; ParseExists := Sample.parse_key;
     ParseGetRange := Sample.parse_key; ParseSet := Sample.parse_key;
     ParseHSet := Sample.parse_key; ParseGetSet := Sample.parse_key;
     ParseAppend := Sample.parse_key; ParseDel := Sample.parse_key;
     ParseSetRange := Sample.parse_key; ParseIncr := Sample.parse_key |}.

End SampleFaults.

(** ** yb_op.cc: the YSQL operations *)

(** [DataType], the enumeration [SetColumn] switches on. *)
Inductive DataType :=
  | UNKNOWN_DATA | UINT8 | INT8 | UINT16 | INT16 | UINT32 | INT32 | UINT64
  | INT64 | STRING | BOOL | FLOAT | DOUBLE | BINARY | TIMESTAMP.

(** [static_cast] to the signed integer type of [w] bits. *)
Definition static_cast_int (w : Z) (z : Z) : Z :=
  (z + 2 ^ (w - 1)) mod 2 ^ w - 2 ^ (w - 1).

(** [YSQLValuePB], as its generated accessors show it: for each optional
    field, [has_x()] and [x()].  A floating-point number is kept as its bit
    pattern; [SetColumn] only hands it on. *)
Record YSQLValuePB := mkYSQLValuePB {
  has_datatype : bool;         datatype : DataType;
  has_int8_value : bool;       int8_value : Z;
  has_int16_value : bool;      int16_value : Z;
  has_int32_value : bool;      int32_value : Z;
  has_int64_value : bool;      int64_value : Z;
  has_float_value : bool;      float_value : Z;
  has_double_value : bool;     double_value : Z;
  has_string_value : bool;     string_value : string;
  has_bool_value : bool;       bool_value : bool;
  has_timestamp_value : bool;  timestamp_value : Z
}.

Definition set_int16_value (z : Z) (v : YSQLValuePB) : YSQLValuePB :=
  {| has_datatype := has_datatype v;               datatype := datatype v;
     has_int8_value := has_int8_value v;           int8_value := int8_value v;
     has_int16_value := true;                      int16_value := z;
     has_int32_value := has_int32_value v;         int32_value := int32_value v;
     has_int64_value := has_int64_value v;         int64_value := int64_value v;
     has_float_value := has_float_value v;         float_value := float_value v;
     has_double_value := has_double_value v;       double_value := double_value v;
     has_string_value := has_string_value v;       string_value := string_value v;
     has_bool_value := has_bool_value v;           bool_value := bool_value v;
     has_timestamp_value := has_timestamp_value v; timestamp_value := timestamp_value v |}.

Record YSQLColumnValuePB := mkYSQLColumnValuePB {
  column_id : Z;
  value : YSQLValuePB
}.

(** [YBPartialRow] and its schema are defined elsewhere; [SetColumn] uses
    the lookup of a column by id, the typed setters and [SetNull], and
    streams a [DataType] into the log. *)
Class PartialRow := {
  YBPartialRow : Type;
  kColumnNotFound : Z;
  find_column_by_id : YBPartialRow -> Z -> Z;
  SetInt8 : Z -> Z -> YBPartialRow -> Status * YBPartialRow;
  SetInt16 : Z -> Z -> YBPartialRow -> Status * YBPartialRow;
  SetInt32 : Z -> Z -> YBPartialRow -> Status * YBPartialRow;
  SetInt64 : Z -> Z -> YBPartialRow -> Status * YBPartialRow;
  SetFloat : Z -> Z -> YBPartialRow -> Status * YBPartialRow;
  SetDouble : Z -> Z -> YBPartialRow -> Status * YBPartialRow;
  SetString : Z -> Slice -> YBPartialRow -> Status * YBPartialRow;
  SetBool : Z -> bool -> YBPartialRow -> Status * YBPartialRow;
  SetTimestamp : Z -> Z -> YBPartialRow -> Status * YBPartialRow;
  SetNull : Z -> YBPartialRow -> Status * YBPartialRow;
  DataType_to_ostream : DataType -> string
}.

Section YSQL.

Context `{PartialRow}.

(** What a call leaves: the status it returns, the row, and the lines it
    wrote to the error log. *)
Definition Set_result : Type := Status * YBPartialRow * list string.

Definition quietly (r : Status * YBPartialRow) : Outcome Set_result :=
  Returns (r, []).

(** [Status SetColumn(YBPartialRow* row, const int32 column_id,
                      const YSQLValuePB& value)] *)
Definition SetColumn (row : YBPartialRow) (column_id : Z) (value : YSQLValuePB)
  : Outcome Set_result :=
  let column_idx := find_column_by_id row column_id in
  if column_idx =? kColumnNotFound then
    CheckFailure "CHECK_NE(column_idx, Schema::kColumnNotFound)"
  else if negb (has_datatype value) then
    CheckFailure "CHECK(value.has_datatype())"
  else
    match datatype value with
    | INT8 =>
        quietly (if has_int8_value value
                 then SetInt8 column_idx (static_cast_int 8 (int8_value value)) row
                 else SetNull column_idx row)
    | INT16 =>
        quietly (if has_int16_value value
                 then SetInt16 column_idx (static_cast_int 16 (int32_value value)) row
                 else SetNull column_idx row)
    | INT32 =>
        quietly (if has_int32_value value
                 then SetInt32 column_idx (int32_value value) row
                 else SetNull column_idx row)
    | INT64 =>
        quietly (if has_int64_value value
                 then SetInt64 column_idx (int64_value value) row
                 else SetNull column_idx row)
    | FLOAT =>
        quietly (if has_float_value value
                 then SetFloat column_idx (float_value value) row
                 else SetNull column_idx row)
    | DOUBLE =>
        quietly (if has_double_value value
                 then SetDouble column_idx (double_value value) row
                 else SetNull column_idx row)
    | STRING =>
        quietly (if has_string_value value
                 then SetString column_idx (string_value value) row
                 else SetNull column_idx row)
    | BOOL =>
        quietly (if has_bool_value value
                 then SetBool column_idx (bool_value value) row
                 else SetNull column_idx row)
    | TIMESTAMP =>
        quietly (if has_timestamp_value value
                 then SetTimestamp column_idx (timestamp_value value) row
                 else SetNull column_idx row)
    | UINT8 | UINT16 | UINT32 | UINT64 | BINARY | UNKNOWN_DATA =>
        Returns (Error RuntimeError "unsupported datatype", row,
                 ["Internal error: unsupported datatype "
                  +:+ DataType_to_ostream (datatype value)])
    end.

(** The loop of both [SetKey]s:
    [for (column_value : hashed_column_values)
       RETURN_NOT_OK(SetColumn(mutable_row(), ...)); return Status::OK();] *)
Fixpoint set_hashed_columns (hashed_column_values : list YSQLColumnValuePB)
  (row : YBPartialRow) : Outcome Set_result :=
  match hashed_column_values with
  | [] => Returns (OK, row, [])
  | column_value :: rest =>
      match SetColumn row (column_id column_value) (value column_value) with
      | Returns (s, row', lines) =>
          if ok s then
            match set_hashed_columns rest row' with
            | Returns (s', row'', lines') => Returns (s', row'', lines ++ lines')
            | stopped => stopped
            end
          else Returns (s, row', lines)
      | stopped => stopped
      end
  end.

(** [YBSqlWriteOp] and [YBSqlReadOp]: the row of [YBOperation] and the
    hashed column values of the request.  [SetKey] changes the row only. *)
Record YBSqlWriteOp := mkYBSqlWriteOp {
  write_row_ : YBPartialRow;
  ysql_write_request_ : list YSQLColumnValuePB
}.

Record YBSqlReadOp := mkYBSqlReadOp {
  read_row_ : YBPartialRow;
  ysql_read_request_ : list YSQLColumnValuePB
}.

(** [Status YBSqlWriteOp::SetKey()] *)
Definition YBSqlWriteOp_SetKey (op : YBSqlWriteOp) : Outcome Set_result :=
  set_hashed_columns (ysql_write_request_ op) (write_row_ op).

(** [Status YBSqlReadOp::SetKey()] *)
Definition YBSqlReadOp_SetKey (op : YBSqlReadOp) : Outcome Set_result :=
  set_hashed_columns (ysql_read_request_ op) (read_row_ op).

(** A call that did not end in [Status::OK()]: it returned an error or did
    not return. *)
Definition not_ok (o : Outcome Set_result) : Prop :=
  match o with
  | Returns (s, _, _) => ok s = false
  | _ => True
  end.

End YSQL.

(** The datatypes [SetColumn] has a case for. *)
Definition supported (d : DataType) : bool :=
  match d with
  | INT8 | INT16 | INT32 | INT64 | FLOAT | DOUBLE | STRING | BOOL | TIMESTAMP => true
  | _ => false
  end.

(** The presence flag [SetColumn] consults for a datatype. *)
Definition has_value_of (d : DataType) (v : YSQLValuePB) : bool :=
  match d with
  | INT8 => has_int8_value v
  | INT16 => has_int16_value v
  | INT32 => has_int32_value v
  | INT64 => has_int64_value v
  | FLOAT => has_float_value v
  | DOUBLE => has_double_value v
  | STRING => has_string_value v
  | BOOL => has_bool_value v
  | TIMESTAMP => has_timestamp_value v
  | _ => false
  end.

(** A row that records the setter calls made on it, over a schema of three
    columns with ids 0, 1 and 2; a string goes into column 2 only. *)
Module SampleRow.

Inductive Cell :=
  | CInt8 (z : Z) | CInt16 (z : Z) | CInt32 (z : Z) | CInt64 (z : Z)
  | CFloat (z : Z) | CDouble (z : Z) | CString (s : Slice) | CBool (b : bool)
  | CTimestamp (z : Z) | CNull.

Definition row : Type := list (Z * Cell).

Definition store (c : Cell) (idx : Z) (r : row) : Status * row :=
  (OK, (idx, c) :: r).

Definition store_string (idx : Z) (s : Slice) (r : row) : Status * row :=
  if idx =? 2 then (OK, (idx, CString s) :: r)
  else (Error InvalidArgument "invalid type string provided for column", r).

Definition show (d : DataType) : string :=
  match d with
  | UNKNOWN_DATA => "0" | UINT8 => "1" | INT8 => "2" | UINT16 => "3"
  | INT16 => "4" | UINT32 => "5" | INT32 => "6" | UINT64 => "7"
  | INT64 => "8" | STRING => "9" | BOOL => "10" | FLOAT => "11"
  | DOUBLE => "12" | BINARY => "13" | TIMESTAMP => "14"
  end.

Definition partial_row : PartialRow :=
  {| YBPartialRow := row;
     kColumnNotFound := -1;
     find_column_by_id := fun _ id => if (0 <=? id) && (id <? 3) then id else -1;
     SetInt8 := fun idx z => store (CInt8 z) idx;
     SetInt16 := fun idx z => store (CInt16 z) idx;
     SetInt32 := fun idx z => store (CInt32 z) idx;
     SetInt64 := fun idx z => store (CInt64 z) idx;
     SetFloat := fun idx z => store (CFloat z) idx;
     SetDouble := fun idx z => store (CDouble z) idx;
     SetString := store_string;
     SetBool := fun idx b => store (CBool b) idx;
     SetTimestamp := fun idx z => store (CTimestamp z) idx;
     SetNull := store CNull;
     DataType_to_ostream := show |}.

Definition no_value : YSQLValuePB :=
  {| has_datatype := false;        datatype := UNKNOWN_DATA;
     has_int8_value := false;      int8_value := 0;
     has_int16_value := false;     int16_value := 0;
     has_int32_value := false;     int32_value := 0;
     has_int64_value := false;     int64_value := 0;
     has_float_value := false;     float_value := 0;
     has_double_value := false;    double_value := 0;
     has_string_value := false;    string_value := "";
     has_bool_value := false;      bool_value := false;
     has_timestamp_value := false; timestamp_value := 0 |}.

Definition of_type (d : DataType) : YSQLValuePB :=
  {| has_datatype := true;         datatype := d;
     has_int8_value := false;      int8_value := 0;
     has_int16_value := false;     int16_value := 0;
     has_int32_value := false;     int32_value := 0;
     has_int64_value := false;     int64_value := 0;
     has_float_value := false;     float_value := 0;
     has_double_value := false;    double_value := 0;
     has_string_value := false;    string_value := "";
     has_bool_value := false;      bool_value := false;
     has_timestamp_value := false; timestamp_value := 0 |}.

(** An INT16 value as a writer that fills [int16_value] leaves it. *)
Definition int16_300 : YSQLValuePB := set_int16_value 300 (of_type INT16).

Definition string_abc : YSQLValuePB :=
  {| has_datatype := true;         datatype := STRING;
     has_int8_value := false;      int8_value := 0;
     has_int16_value := false;     int16_value := 0;
     has_int32_value := false;     int32_value := 0;
     has_int64_value := false;     int64_value := 0;
     has_float_value := false;     float_value := 0;
     has_double_value := false;    double_value := 0;
     has_string_value := true;     string_value := "abc";
     has_bool_value := false;      bool_value := false;
     has_timestamp_value := false; timestamp_value := 0 |}.

Definition key_columns : list YSQLColumnValuePB :=
  [ {| column_id := 0; value := int16_300 |};
    {| column_id := 1; value := string_abc |} ].

Definition more_columns : list YSQLColumnValuePB :=
  [ {| column_id := 7; value := no_value |} ].

Definition good_columns : list YSQLColumnValuePB :=
  [ {| column_id := 0; value := int16_300 |};
    {| column_id := 2; value := string_abc |};
    {| column_id := 1; value := of_type INT64 |} ].

End SampleRow.

(** * Properties *)

(** ** The Redis operations *)

Lemma new_is_fresh (v : RedisResponsePB) (h : Store) :
  h !! (new_ v h).1 = None.
Proof. unfold new_; simpl. apply not_elem_of_dom, is_fresh. Qed.

Lemma read_mutable_response_again (h : Store) (op : YBRedisReadOp.t) :
  YBRedisReadOp.call_again (YBRedisReadOp.mutable_response h op)
  = YBRedisReadOp.mutable_response h op.
Proof.
  unfold YBRedisReadOp.call_again, YBRedisReadOp.mutable_response.
  destruct (YBRedisReadOp.redis_response_ op) eqn:E; simpl.
  - reflexivity.
  - rewrite E. reflexivity.
Qed.

Lemma write_mutable_response_again (h : Store) (op : YBRedisWriteOp.t) :
  YBRedisWriteOp.call_again (YBRedisWriteOp.mutable_response h op)
  = YBRedisWriteOp.mutable_response h op.
Proof.
  unfold YBRedisWriteOp.call_again, YBRedisWriteOp.mutable_response.
  destruct (YBRedisWriteOp.redis_response_ op) eqn:E; simpl.
  - reflexivity.
  - rewrite E. reflexivity.
Qed.

Lemma iter_fixed {A} (f : A -> A) (a : A) (n : nat) :
  f a = a -> Nat.iter n f a = a.
Proof. intros Hf. induction n as [|n IH]; simpl; [reflexivity | now rewrite IH]. Qed.

Lemma read_mutable_response_first (h : Store) (op : YBRedisReadOp.t) :
  YBRedisReadOp.redis_response_ op = nullptr ->
  exists l,
    h !! l = None
    /\ YBRedisReadOp.mutable_response h op
       = (Ptr l, <[l := new_RedisResponsePB]> h, YBRedisReadOp.set_redis_response_ (Ptr l) op).
Proof.
  intros E. exists (new_ new_RedisResponsePB h).1. split.
  - apply new_is_fresh.
  - unfold YBRedisReadOp.mutable_response. rewrite E. reflexivity.
Qed.

Lemma write_mutable_response_first (h : Store) (op : YBRedisWriteOp.t) :
  YBRedisWriteOp.redis_response_ op = nullptr ->
  exists l,
    h !! l = None
    /\ YBRedisWriteOp.mutable_response h op
       = (Ptr l, <[l := new_RedisResponsePB]> h, YBRedisWriteOp.set_redis_response_ (Ptr l) op).
Proof.
  intros E. exists (new_ new_RedisResponsePB h).1. split.
  - apply new_is_fresh.
  - unfold YBRedisWriteOp.mutable_response. rewrite E. reflexivity.
Qed.

Lemma read_mutable_response_not_null (h : Store) (op : YBRedisReadOp.t) :
  (YBRedisReadOp.mutable_response h op).1.1 <> nullptr.
Proof.
  unfold YBRedisReadOp.mutable_response.
  destruct (YBRedisReadOp.redis_response_ op) eqn:E; simpl; discriminate.
Qed.

Lemma write_mutable_response_not_null (h : Store) (op : YBRedisWriteOp.t) :
  (YBRedisWriteOp.mutable_response h op).1.1 <> nullptr.
Proof.
  unfold YBRedisWriteOp.mutable_response.
  destruct (YBRedisWriteOp.redis_response_ op) eqn:E; simpl; discriminate.
Qed.

(** C9.  [mutable_response], of the read and of the write operation, never
    returns a null pointer; on an empty slot it allocates a cell that was not
    in use, default-initialised, and makes the slot own it; on a filled slot
    it returns the slot as it is; and any number of further calls return
    the same pointer and leave store and operation as the first call left
    them. *)
Theorem mutable_response_idempotent_never_null :
  (forall (h : Store) (op : YBRedisReadOp.t),
      let r := YBRedisReadOp.mutable_response h op in
      r.1.1 <> nullptr
      /\ (forall n, Nat.iter n YBRedisReadOp.call_again r = r)
      /\ (YBRedisReadOp.redis_response_ op = nullptr ->
          exists l, h !! l = None
                    /\ r = (Ptr l, <[l := new_RedisResponsePB]> h,
                            YBRedisReadOp.set_redis_response_ (Ptr l) op))
      /\ (YBRedisReadOp.redis_response_ op <> nullptr ->
          r = (YBRedisReadOp.redis_response_ op, h, op)))
  /\
  (forall (h : Store) (op : YBRedisWriteOp.t),
      let r := YBRedisWriteOp.mutable_response h op in
      r.1.1 <> nullptr
      /\ (forall n, Nat.iter n YBRedisWriteOp.call_again r = r)
      /\ (YBRedisWriteOp.redis_response_ op = nullptr ->
          exists l, h !! l = None
                    /\ r = (Ptr l, <[l := new_RedisResponsePB]> h,
                            YBRedisWriteOp.set_redis_response_ (Ptr l) op))
      /\ (YBRedisWriteOp.redis_response_ op <> nullptr ->
          r = (YBRedisWriteOp.redis_response_ op, h, op))).
Proof.
  split; intros h op r; subst r.
  - repeat split.
    + apply read_mutable_response_not_null.
    + intros n. apply iter_fixed, read_mutable_response_again.
    + apply read_mutable_response_first.
    + intros Hne. unfold YBRedisReadOp.mutable_response.
      destruct (YBRedisReadOp.redis_response_ op); [congruence | reflexivity].
  - repeat split.
    + apply write_mutable_response_not_null.
    + intros n. apply iter_fixed, write_mutable_response_again.
    + apply write_mutable_response_first.
    + intros Hne. unfold YBRedisWriteOp.mutable_response.
      destruct (YBRedisWriteOp.redis_response_ op); [congruence | reflexivity].
Qed.

(** ** Letter casing *)

Lemma same_letter_tolower (a b : ascii) :
  same_letter a b = true -> tolower a = tolower b.
Proof.
  unfold same_letter. intros Hs.
  apply orb_true_iff in Hs as [Hs | Hs]; [apply orb_true_iff in Hs as [Hs | Hs] |].
  - apply Ascii.eqb_eq in Hs. now subst.
  - apply andb_true_iff in Hs as [Hu Hb]. apply Ascii.eqb_eq in Hb. subst b.
    revert Hu. destruct a as [[] [] [] [] [] [] [] []]; vm_compute; congruence.
  - apply andb_true_iff in Hs as [Hl Hb]. apply Ascii.eqb_eq in Hb. subst b.
    revert Hl. destruct a as [[] [] [] [] [] [] [] []]; vm_compute; congruence.
Qed.

Lemma differ_only_in_casing_ToLowerCase (s1 s2 : string) :
  differ_only_in_casing s1 s2 = true -> ToLowerCase s1 = ToLowerCase s2.
Proof.
  revert s2. induction s1 as [|a r1 IH]; intros [|b r2]; simpl; try discriminate.
  - reflexivity.
  - intros Hd. apply andb_true_iff in Hd as [Hab Hr].
    rewrite (same_letter_tolower _ _ Hab), (IH _ Hr). reflexivity.
Qed.

Lemma methods_lower_case (n : string) : In n methods -> ToLowerCase n = n.
Proof.
  unfold methods. simpl. intros Hn.
  repeat (destruct Hn as [<- | Hn]; [reflexivity |]). destruct Hn.
Qed.

(** ** Reasoning about [M] *)

Lemma ensures_bind {A B} (x : M A) (f : A -> M B) p Q :
  ensures x p (fun a p1 e1 => ensures (f a) p1 (fun b p2 e2 => Q b p2 (e1 ++ e2))) ->
  ensures (bind x f) p Q.
Proof.
  unfold ensures, bind. destruct (x p) as [[[a p1] e1]| | |]; auto.
  destruct (f a p1) as [[[b p2] e2]| | |]; simpl; auto.
Qed.

Lemma produces_bind {A B} (x : M A) (f : A -> M B) p Q :
  produces x p (fun a p1 e1 => produces (f a) p1 (fun b p2 e2 => Q b p2 (e1 ++ e2))) ->
  produces (bind x f) p Q.
Proof.
  intros (a & p1 & e1 & Hx & b & p2 & e2 & Hf & HQ).
  exists b, p2, (e1 ++ e2). split; [| exact HQ].
  unfold bind. rewrite Hx. simpl. rewrite Hf. reflexivity.
Qed.

Lemma ensures_mono {A} (x : M A) p (Q Q' : A -> Process -> list Event -> Prop) :
  ensures x p Q -> (forall a p' evs, Q a p' evs -> Q' a p' evs) -> ensures x p Q'.
Proof.
  unfold ensures. destruct (x p) as [[[a p1] e1]| | |]; auto.
Qed.

Lemma produces_mono {A} (x : M A) p (Q Q' : A -> Process -> list Event -> Prop) :
  produces x p Q -> (forall a p' evs, Q a p' evs -> Q' a p' evs) -> produces x p Q'.
Proof.
  intros (a & p1 & e1 & Hx & HQ) Himp. exists a, p1, e1. auto.
Qed.

Lemma produces_ensures {A} (x : M A) p (Q : A -> Process -> list Event -> Prop) :
  produces x p Q -> ensures x p Q.
Proof.
  intros (a & p1 & e1 & Hx & HQ). unfold ensures. rewrite Hx. exact HQ.
Qed.

Lemma ensures_returned {A} (x : M A) p Q a p' evs :
  ensures x p Q -> x p = Returns (a, p', evs) -> Q a p' evs.
Proof. unfold ensures. intros HQ Hx. rewrite Hx in HQ. exact HQ. Qed.

Lemma bind_eq {A B} (x : M A) (f : A -> M B) p a p1 e1 :
  x p = Returns (a, p1, e1) -> bind x f p = prefixed e1 (f a p1).
Proof. unfold bind. now intros ->. Qed.

Section ServiceLemmas.
Context `{Externals}.

Lemma metrics_kept_refl s : metrics_kept s s.
Proof. intros k v. auto. Qed.

Lemma metrics_kept_trans s1 s2 s3 :
  metrics_kept s1 s2 -> metrics_kept s2 s3 -> metrics_kept s1 s3.
Proof. intros H12 H23 k v Hk. auto. Qed.

Lemma service_up_to_metrics_refl s : service_up_to_metrics s s.
Proof. split; [destruct s; reflexivity | apply metrics_kept_refl]. Qed.

Lemma service_up_to_metrics_trans s1 s2 s3 :
  service_up_to_metrics s1 s2 -> service_up_to_metrics s2 s3 ->
  service_up_to_metrics s1 s3.
Proof.
  intros [E12 K12] [E23 K23]. split.
  - rewrite E23 at 1. rewrite E12. reflexivity.
  - eapply metrics_kept_trans; eauto.
Qed.

Lemma metrics_at_spec k p :
  produces (metrics_at k) p (fun m p' evs =>
    evs = [] /\ service_up_to_metrics (service p) (service p')
    /\ (forall v, metrics_ (service p) !! k = Some v -> m = v /\ p' = p)).
Proof.
  unfold produces, metrics_at.
  destruct (metrics_ (service p) !! k) as [v|] eqn:Hk.
  - exists v, p, []. split; [reflexivity |]. split; [reflexivity |].
    split; [apply service_up_to_metrics_refl |].
    intros v' Hv'. split; [congruence | reflexivity].
  - eexists _, _, []. split; [reflexivity |].
    split; [reflexivity |]. split; [split |].
    + destruct p as [[] ? ? ?]; reflexivity.
    + intros k' v' Hk'. simpl. rewrite lookup_insert_ne; [exact Hk' | congruence].
    + discriminate.
Qed.

Lemma RespondWithFailure_spec error call cmd rest p :
  cmd_args call = cmd :: rest ->
  produces (RespondWithFailure error call) p (fun _ p' evs =>
    service_up_to_metrics (service p) (service p')
    /\ exists m, evs = [failure_response error call cmd m]
                 /\ (forall v, metrics_ (service p) !! "error" = Some v -> m = v)).
Proof.
  intros Hargs. unfold RespondWithFailure. rewrite Hargs.
  apply produces_bind.
  eapply produces_mono; [apply metrics_at_spec |].
  intros m p' evs (-> & Hs & Hm).
  eexists tt, p', _. split; [reflexivity |]. split; [exact Hs |].
  exists m. split; [reflexivity |]. intros v Hv. apply (Hm v Hv).
Qed.

Lemma RespondWithFailure_ensures error call p :
  ensures (RespondWithFailure error call) p (fun _ p' evs =>
    service_up_to_metrics (service p) (service p')
    /\ exists cmd rest m,
         cmd_args call = cmd :: rest /\ evs = [failure_response error call cmd m]).
Proof.
  destruct (cmd_args call) as [|cmd rest] eqn:Hargs.
  - unfold ensures, RespondWithFailure. rewrite Hargs. exact I.
  - apply produces_ensures.
    eapply produces_mono; [apply (RespondWithFailure_spec _ _ _ _ _ Hargs) |].
    intros _ p' evs (Hs & m & -> & _). split; [exact Hs |]. eauto.
Qed.

Lemma open_session_ensures env ro p :
  ensures (open_session env ro) p (fun s p' evs =>
    s = manual_session ro /\ p' = p /\ evs = session_events ro).
Proof.
  unfold ensures, open_session, bind, get, emit, ConfigureSession, ret, check_failure; simpl.
  destruct (client_ (service p)); simpl; [| exact I].
  destruct (ok (env_set_flush_mode env)); simpl; [| exact I].
  repeat split.
Qed.

Lemma open_session_eq env ro p c :
  client_ (service p) = Some c ->
  ok (env_set_flush_mode env) = true ->
  open_session env ro p = Returns (manual_session ro, p, session_events ro).
Proof.
  intros Hc Hf.
  unfold open_session, bind, get, emit, ConfigureSession, ret; simpl.
  rewrite Hc; simpl. rewrite Hf; simpl. reflexivity.
Qed.

Lemma NewRedisRead_eq p tbl :
  table_ (service p) = Some tbl ->
  NewRedisRead p
  = Returns (fresh (dom (read_ops p)),
             set_read_ops (<[fresh (dom (read_ops p)) := YBRedisReadOp.create tbl]> (read_ops p)) p,
             [EvNewRedisRead (fresh (dom (read_ops p)))]).
Proof.
  intros Ht. unfold NewRedisRead, bind, get, emit, modify, ret; simpl.
  rewrite Ht; simpl. reflexivity.
Qed.

Lemma NewRedisWrite_eq p tbl :
  table_ (service p) = Some tbl ->
  NewRedisWrite p
  = Returns (fresh (dom (write_ops p)),
             set_write_ops (<[fresh (dom (write_ops p)) := YBRedisWriteOp.create tbl]> (write_ops p)) p,
             [EvNewRedisWrite (fresh (dom (write_ops p)))]).
Proof.
  intros Ht. unfold NewRedisWrite, bind, get, emit, modify, ret; simpl.
  rewrite Ht; simpl. reflexivity.
Qed.

Lemma parse_read_eq parse o args p op :
  read_ops p !! o = Some op ->
  parse_read parse o args p
  = Returns ((parse (YBRedisReadOp.redis_read_request_ op) args).1,
             set_read_ops
               (<[o := YBRedisReadOp.set_request
                         (parse (YBRedisReadOp.redis_read_request_ op) args).2 op]>
                  (read_ops p)) p,
             []).
Proof.
  intros Ho. unfold parse_read, bind, get; simpl. rewrite Ho.
  destruct (parse (YBRedisReadOp.redis_read_request_ op) args) as [s rq]; reflexivity.
Qed.

Lemma parse_write_eq parse o args p op :
  write_ops p !! o = Some op ->
  parse_write parse o args p
  = Returns ((parse (YBRedisWriteOp.redis_write_request_ op) args).1,
             set_write_ops
               (<[o := YBRedisWriteOp.set_request
                         (parse (YBRedisWriteOp.redis_write_request_ op) args).2 op]>
                  (write_ops p)) p,
             []).
Proof.
  intros Ho. unfold parse_write, bind, get; simpl. rewrite Ho.
  destruct (parse (YBRedisWriteOp.redis_write_request_ op) args) as [s rq]; reflexivity.
Qed.

Lemma NewRedisRead_ensures p :
  ensures NewRedisRead p (fun o p' evs =>
    service p' = service p /\ evs = [EvNewRedisRead o]
    /\ exists tbl, read_ops p' !! o = Some (YBRedisReadOp.create tbl)).
Proof.
  unfold ensures. destruct (table_ (service p)) as [tbl|] eqn:Ht.
  - rewrite (NewRedisRead_eq _ _ Ht). repeat split.
    exists tbl. simpl. apply lookup_insert_eq.
  - unfold NewRedisRead, bind, get; simpl. rewrite Ht. exact I.
Qed.

Lemma NewRedisWrite_ensures p :
  ensures NewRedisWrite p (fun o p' evs =>
    service p' = service p /\ evs = [EvNewRedisWrite o]
    /\ exists tbl, write_ops p' !! o = Some (YBRedisWriteOp.create tbl)).
Proof.
  unfold ensures. destruct (table_ (service p)) as [tbl|] eqn:Ht.
  - rewrite (NewRedisWrite_eq _ _ Ht). repeat split.
    exists tbl. simpl. apply lookup_insert_eq.
  - unfold NewRedisWrite, bind, get; simpl. rewrite Ht. exact I.
Qed.

Lemma parse_read_ensures parse o args p :
  ensures (parse_read parse o args) p (fun s p' evs =>
    service p' = service p /\ evs = []
    /\ exists op, read_ops p !! o = Some op
                  /\ s = (parse (YBRedisReadOp.redis_read_request_ op) args).1).
Proof.
  unfold ensures. destruct (read_ops p !! o) as [op|] eqn:Ho.
  - rewrite (parse_read_eq _ _ _ _ _ Ho). repeat split. eauto.
  - unfold parse_read, bind, get; simpl. rewrite Ho. exact I.
Qed.

Lemma parse_write_ensures parse o args p :
  ensures (parse_write parse o args) p (fun s p' evs =>
    service p' = service p /\ evs = []
    /\ exists op, write_ops p !! o = Some op
                  /\ s = (parse (YBRedisWriteOp.redis_write_request_ op) args).1).
Proof.
  unfold ensures. destruct (write_ops p !! o) as [op|] eqn:Ho.
  - rewrite (parse_write_eq _ _ _ _ _ Ho). repeat split. eauto.
  - unfold parse_write, bind, get; simpl. rewrite Ho. exact I.
Qed.

Lemma ensures_emit e p (Q : unit -> Process -> list Event -> Prop) :
  Q tt p [e] -> ensures (emit e) p Q.
Proof. auto. Qed.

(** What [ReadCommand] does when it returns: it opened a session, made an
    operation, and then either answered the parser's failure or submitted
    the read with its completion object. *)
Lemma ReadCommand_ensures env call command_name parse p :
  ensures (ReadCommand env call command_name parse) p (fun _ p' evs =>
    service_up_to_metrics (service p) (service p')
    /\ exists o e,
        evs = session_events true ++ [EvNewRedisRead o; e]
        /\ if ok (parse [] (cmd_args call)).1 then
             exists m mi,
               e = EvReadAsync (manual_session true) o
                     {| rcb_session_ := Some (manual_session true);
                        rcb_redis_call_ := call; read_op_ := o;
                        rcb_metrics_ := m; rcb_metrics_internal_ := mi;
                        rcb_start_ := env_now env |}
               /\ (forall v, metrics_ (service p) !! command_name = Some v -> m = v)
               /\ (forall v, metrics_ (service p) !! "get_internal" = Some v -> mi = v)
           else
             exists cmd rest m,
               cmd_args call = cmd :: rest
               /\ e = failure_response (message (parse [] (cmd_args call)).1) call cmd m).
Proof.
  unfold ReadCommand.
  apply ensures_bind. eapply ensures_mono; [apply open_session_ensures |].
  intros s p1 e1 (-> & -> & ->).
  apply ensures_bind. eapply ensures_mono; [apply NewRedisRead_ensures |].
  intros o p2 e2 (Hs2 & -> & tbl & Ho).
  apply ensures_bind. eapply ensures_mono; [apply parse_read_ensures |].
  intros st p3 e3 (Hs3 & -> & op & Hop & ->).
  rewrite Ho in Hop. injection Hop as <-. simpl.
  destruct (ok (parse [] (cmd_args call)).1) eqn:Hok; simpl.
  - apply ensures_bind. eapply ensures_mono; [apply produces_ensures, metrics_at_spec |].
    intros m p4 e4 (-> & Hs4 & Hm).
    apply ensures_bind. eapply ensures_mono; [apply produces_ensures, metrics_at_spec |].
    intros mi p5 e5 (-> & Hs5 & Hmi).
    apply ensures_emit. rewrite Hs3, Hs2 in Hs4. split.
    + eapply service_up_to_metrics_trans; eauto.
    + exists o. eexists. split; [reflexivity |]. exists m, mi.
      split; [reflexivity |]. split.
      * intros v Hv. apply Hm. rewrite Hs3, Hs2. exact Hv.
      * intros v Hv. apply Hmi. apply Hs4. exact Hv.
  - eapply ensures_mono; [apply RespondWithFailure_ensures |].
    intros _ p4 e4 (Hs4 & cmd & rest & m & Hargs & ->).
    rewrite Hs3, Hs2 in Hs4. split; [exact Hs4 |].
    exists o. eexists. split; [reflexivity |]. eauto.
Qed.

Lemma WriteCommand_ensures env call command_name parse p :
  ensures (WriteCommand env call command_name parse) p (fun _ p' evs =>
    service_up_to_metrics (service p) (service p')
    /\ exists o,
        if ok (parse [] (cmd_args call)).1 then
          exists m mi,
            evs = session_events false
                  ++ [EvNewRedisWrite o; EvApply (manual_session false) o;
                      EvFlushAsync (manual_session false)
                        {| wcb_session_ := Some (manual_session false);
                           wcb_redis_call_ := call; write_op_ := o;
                           wcb_metrics_ := m; wcb_metrics_internal_ := mi;
                           wcb_start_ := env_now env |}]
            /\ (forall v, metrics_ (service p) !! command_name = Some v -> m = v)
            /\ (forall v, metrics_ (service p) !! "set_internal" = Some v -> mi = v)
        else
          exists cmd rest m,
            cmd_args call = cmd :: rest
            /\ evs = session_events false
                     ++ [EvNewRedisWrite o;
                         failure_response (message (parse [] (cmd_args call)).1) call cmd m]).
Proof.
  unfold WriteCommand.
  apply ensures_bind. eapply ensures_mono; [apply open_session_ensures |].
  intros s p1 e1 (-> & -> & ->).
  apply ensures_bind. eapply ensures_mono; [apply NewRedisWrite_ensures |].
  intros o p2 e2 (Hs2 & -> & tbl & Ho).
  apply ensures_bind. eapply ensures_mono; [apply parse_write_ensures |].
  intros st p3 e3 (Hs3 & -> & op & Hop & ->).
  rewrite Ho in Hop. injection Hop as <-. simpl.
  destruct (ok (parse [] (cmd_args call)).1) eqn:Hok; simpl.
  - apply ensures_bind. apply ensures_emit.
    destruct (ok (env_apply env)); simpl; [| exact I].
    apply ensures_bind. eapply ensures_mono; [apply produces_ensures, metrics_at_spec |].
    intros m p4 e4 (-> & Hs4 & Hm).
    apply ensures_bind. eapply ensures_mono; [apply produces_ensures, metrics_at_spec |].
    intros mi p5 e5 (-> & Hs5 & Hmi).
    apply ensures_emit. rewrite Hs3, Hs2 in Hs4. split.
    + eapply service_up_to_metrics_trans; eauto.
    + exists o, m, mi.
      split; [reflexivity |]. split.
      * intros v Hv. apply Hm. rewrite Hs3, Hs2. exact Hv.
      * intros v Hv. apply Hmi. apply Hs4. exact Hv.
  - eapply ensures_mono; [apply RespondWithFailure_ensures |].
    intros _ p4 e4 (Hs4 & cmd & rest & m & Hargs & ->).
    rewrite Hs3, Hs2 in Hs4. split; [exact Hs4 |].
    exists o, cmd, rest, m. split; [exact Hargs | reflexivity].
Qed.

Lemma EchoCommand_ensures env call p :
  ensures (EchoCommand env call) p (fun _ p' evs =>
    service_up_to_metrics (service p) (service p')
    /\ exists a m,
        cmd_args call !! 1%nat = Some a
        /\ evs = [EvRespondSuccess call (set_string_response a new_RedisResponsePB) m]
        /\ (forall v, metrics_ (service p) !! "echo" = Some v -> m = v)).
Proof.
  unfold EchoCommand. destruct (cmd_args call !! 1%nat) as [a|]; [| exact I].
  apply ensures_bind. eapply ensures_mono; [apply produces_ensures, metrics_at_spec |].
  intros m p1 e1 (-> & Hs & Hm). apply ensures_emit.
  split; [exact Hs |]. exists a, m. repeat split. intros v Hv. apply (Hm v Hv).
Qed.

Lemma ReadCommand_ends_dispatch env call command_name parse p :
  metrics_ (service p) !! "get_internal" = Some (metric_of "get_internal") ->
  ensures (ReadCommand env call command_name parse) p (fun _ p' evs =>
    service_up_to_metrics (service p) (service p') /\ ends_dispatch env call evs).
Proof.
  intros Hreg. eapply ensures_mono; [apply ReadCommand_ensures |].
  intros _ p' evs (Hs & o & e & -> & He). split; [exact Hs |].
  exists (session_events true ++ [EvNewRedisRead o]), e.
  split; [now rewrite <- app_assoc |]. split; [reflexivity |].
  destruct (ok (parse [] (cmd_args call)).1).
  - destruct He as (m & mi & -> & _ & Hmi). simpl.
    repeat split. apply Hmi. exact Hreg.
  - destruct He as (cmd & rest & m & _ & ->). reflexivity.
Qed.

Lemma WriteCommand_ends_dispatch env call command_name parse p :
  metrics_ (service p) !! "set_internal" = Some (metric_of "set_internal") ->
  ensures (WriteCommand env call command_name parse) p (fun _ p' evs =>
    service_up_to_metrics (service p) (service p') /\ ends_dispatch env call evs).
Proof.
  intros Hreg. eapply ensures_mono; [apply WriteCommand_ensures |].
  intros _ p' evs (Hs & o & He). split; [exact Hs |].
  destruct (ok (parse [] (cmd_args call)).1).
  - destruct He as (m & mi & -> & _ & Hmi).
    eexists (session_events false ++ [EvNewRedisWrite o; EvApply _ o]), _.
    split; [now rewrite <- app_assoc |]. split; [reflexivity |]. simpl.
    repeat split. apply Hmi. exact Hreg.
  - destruct He as (cmd & rest & m & _ & ->).
    eexists (session_events false ++ [EvNewRedisWrite o]), _.
    split; [now rewrite <- app_assoc |]. split; reflexivity.
Qed.

Lemma invoke_ends_dispatch f env call p :
  metrics_registered (service p) ->
  ensures (invoke f env call) p (fun _ p' evs =>
    service_up_to_metrics (service p) (service p') /\ ends_dispatch env call evs).
Proof.
  intros Hreg.
  assert (Hg : metrics_ (service p) !! "get_internal" = Some (metric_of "get_internal")).
  { apply Hreg. unfold metric_keys, methods. simpl. tauto. }
  assert (Hw : metrics_ (service p) !! "set_internal" = Some (metric_of "set_internal")).
  { apply Hreg. unfold metric_keys, methods. simpl. tauto. }
  destruct f; simpl;
    try (apply ReadCommand_ends_dispatch; exact Hg);
    try (apply WriteCommand_ends_dispatch; exact Hw).
  eapply ensures_mono; [apply EchoCommand_ensures |].
  intros _ p' evs (Hs & a & m & _ & -> & _). split; [exact Hs |].
  exists [], (EvRespondSuccess call (set_string_response a new_RedisResponsePB) m).
  repeat split.
Qed.

(** C8.  [FetchHandler] looks the lower-cased first argument up, so two
    argument vectors whose first elements differ only in letter casing get
    the same answer (and the same log line, if any); in particular every
    casing of a command [PopulateHandlers] registered resolves to that
    command's table entry. *)
Theorem FetchHandler_case_insensitive (a b : Slice) (ra rb : list Slice) (p : Process) :
  differ_only_in_casing a b = true ->
  FetchHandler (a :: ra) p = FetchHandler (b :: rb) p
  /\ (forall n info,
        In n methods ->
        command_name_to_info_map_ (service p) !! n = Some info ->
        differ_only_in_casing a n = true ->
        FetchHandler (a :: ra) p = Returns (Some info, p, [])
        /\ FetchHandler (b :: rb) p = Returns (Some info, p, [])).
Proof.
  intros Hab. apply differ_only_in_casing_ToLowerCase in Hab.
  assert (Heq : FetchHandler (a :: ra) p = FetchHandler (b :: rb) p).
  { unfold FetchHandler. rewrite Hab. reflexivity. }
  split; [exact Heq |].
  intros n info Hn Hinfo Han.
  apply differ_only_in_casing_ToLowerCase in Han.
  rewrite (methods_lower_case n Hn) in Han.
  assert (Ha : FetchHandler (a :: ra) p = Returns (Some info, p, [])).
  { unfold FetchHandler, bind, get; simpl. rewrite Han, Hinfo. reflexivity. }
  split; [exact Ha | rewrite <- Heq; exact Ha].
Qed.

(** *** [SetUpYBClient] *)

Lemma SetUpYBClient_initialized env addr p :
  yb_client_initialized_ (service p) = true ->
  SetUpYBClient env addr p = Returns (OK, p, [EvMutexLock; EvMutexUnlock]).
Proof.
  intros Hi. unfold SetUpYBClient, bind, emit, get, ret; simpl.
  rewrite Hi. reflexivity.
Qed.

Lemma SetUpYBClient_build_fails env addr p :
  yb_client_initialized_ (service p) = false ->
  ok (env_build env) = false ->
  SetUpYBClient env addr p
  = Returns (env_build env, p,
             [EvMutexLock; EvClientBuild (redis_ybclient addr); EvMutexUnlock]).
Proof.
  intros Hi Hb. unfold SetUpYBClient, bind, emit, get, ret; simpl.
  rewrite Hi; simpl. rewrite Hb; simpl. reflexivity.
Qed.

Lemma SetUpYBClient_open_fails env addr p :
  yb_client_initialized_ (service p) = false ->
  ok (env_build env) = true ->
  ok (env_open_table env) = false ->
  SetUpYBClient env addr p
  = Returns (env_open_table env,
             with_service (set_client_ (Some (redis_ybclient addr))) p,
             [EvMutexLock; EvClientBuild (redis_ybclient addr);
              EvOpenTable kRedisTableName; EvMutexUnlock]).
Proof.
  intros Hi Hb Ho. unfold SetUpYBClient, bind, emit, get, ret, modify; simpl.
  rewrite Hi; simpl. rewrite Hb; simpl. rewrite Ho; simpl. reflexivity.
Qed.

Lemma SetUpYBClient_succeeds env addr p :
  yb_client_initialized_ (service p) = false ->
  ok (env_build env) = true ->
  ok (env_open_table env) = true ->
  SetUpYBClient env addr p
  = Returns (OK,
             with_service (set_yb_client_initialized_ true)
               (with_service (set_table_ (Some {| table_name := kRedisTableName |}))
                  (with_service (set_client_ (Some (redis_ybclient addr))) p)),
             [EvMutexLock; EvClientBuild (redis_ybclient addr);
              EvOpenTable kRedisTableName; EvMutexUnlock]).
Proof.
  intros Hi Hb Ho. unfold SetUpYBClient, bind, emit, get, ret, modify; simpl.
  rewrite Hi; simpl. rewrite Hb; simpl. rewrite Ho; simpl. reflexivity.
Qed.


Lemma prefixed_nil {A} (o : Outcome (A * Process * list Event)) : prefixed [] o = o.
Proof. destruct o as [[[a p] evs]| | |]; reflexivity. Qed.

(** The outcome of the set-up stage, by cases on the flag and on what the
    builder and the table answer. *)
Lemma SetUpYBClient_cases env addr p :
  yb_client_initialized_ (service p) = false ->
  exists p1,
    SetUpYBClient env addr p = Returns (setup_status env, p1, setup_events env addr)
    /\ yb_client_initialized_ (service p1) = ok (setup_status env)
    /\ metrics_ (service p1) = metrics_ (service p)
    /\ command_name_to_info_map_ (service p1) = command_name_to_info_map_ (service p)
    /\ (ok (setup_status env) = true ->
        is_Some (client_ (service p1)) /\ is_Some (table_ (service p1))).
Proof.
  intros Hi. unfold setup_status, setup_events.
  destruct (ok (env_build env)) eqn:Hb; [destruct (ok (env_open_table env)) eqn:Ho |].
  - pose proof (SetUpYBClient_succeeds env addr p Hi Hb Ho) as E.
    destruct (env_open_table env); [| discriminate].
    eexists. split; [exact E |]. simpl. repeat split; eauto.
  - eexists. split; [apply SetUpYBClient_open_fails; assumption |].
    simpl. repeat split; try assumption; discriminate.
  - eexists. split; [apply SetUpYBClient_build_fails; assumption |].
    rewrite Hb. repeat split; try assumption; discriminate.
Qed.

Lemma ensure_client_initialized env p :
  yb_client_initialized_ (service p) = true ->
  ensure_client env p = Returns (OK, p, []).
Proof. intros Hi. unfold ensure_client, bind, get, ret; simpl. rewrite Hi. reflexivity. Qed.

Lemma ensure_client_uninitialized env p :
  yb_client_initialized_ (service p) = false ->
  ensure_client env p = SetUpYBClient env (yb_tier_master_addresses_ (service p)) p.
Proof.
  intros Hi. unfold ensure_client, bind, get; simpl. rewrite Hi. simpl.
  apply prefixed_nil.
Qed.

(** [ValidateAndHandle] is the set-up stage followed by the failure
    response or by the command stage. *)
Lemma ValidateAndHandle_stages env info call p :
  exists status p1 pre,
    ensure_client env p = Returns (status, p1, pre)
    /\ ValidateAndHandle env info call p
       = prefixed pre
           ((if ok status then handle_current_command env info call
             else RespondWithFailure
                    ("Could not open .redis table. " +:+ Status_ToString status) call) p1)
    /\ metrics_ (service p1) = metrics_ (service p)
    /\ (client_ready (service p) -> client_ready (service p1))
    /\ (if yb_client_initialized_ (service p)
        then status = OK /\ p1 = p /\ pre = []
        else status = setup_status env
             /\ pre = setup_events env (yb_tier_master_addresses_ (service p))
             /\ yb_client_initialized_ (service p1) = ok status).
Proof.
  destruct (yb_client_initialized_ (service p)) eqn:Hi.
  - exists OK, p, []. rewrite (ensure_client_initialized _ _ Hi).
    split; [reflexivity |]. split.
    + unfold ValidateAndHandle, bind, get; simpl. rewrite Hi; simpl.
      rewrite !prefixed_nil. reflexivity.
    + split; [reflexivity |]. split; [tauto |]. auto.
  - destruct (SetUpYBClient_cases env (yb_tier_master_addresses_ (service p)) p Hi)
      as (p1 & Hset & Hflag & Hm & _ & Hready).
    exists (setup_status env), p1, (setup_events env (yb_tier_master_addresses_ (service p))).
    rewrite (ensure_client_uninitialized _ _ Hi).
    split; [exact Hset |]. split.
    + unfold ValidateAndHandle. unfold bind at 1. unfold get at 1. simpl.
      rewrite Hi; simpl. rewrite prefixed_nil.
      rewrite (bind_eq _ _ _ _ _ _ Hset).
      destruct (ok (setup_status env)); reflexivity.
    + split; [exact Hm |]. split; [| auto].
      intros _ Hi1. apply Hready. rewrite <- Hflag. exact Hi1.
Qed.


(** *** The command stage *)

Lemma to_size_t_small z : 0 <= z <= INT_MAX -> to_size_t z = z.
Proof.
  unfold to_size_t, INT_MAX. intros Hz. apply Z.mod_small. lia.
Qed.

Lemma int_mul_neg a : valid_arity a -> a < 0 -> int_mul (-1) a = Returns (- a).
Proof.
  unfold valid_arity, int_mul, in_int, INT_MIN, INT_MAX. intros Hv Ha.
  replace (-1 * a) with (- a) by lia.
  destruct (- 2 ^ 31 <=? - a) eqn:E1; [| lia].
  destruct (- a <=? 2 ^ 31 - 1) eqn:E2; [reflexivity | lia].
Qed.

Lemma handle_current_command_arity env info call p :
  valid_arity (arity info) ->
  handle_current_command env (Some info) call p
  = if (arity info <? 0) && (Z.of_nat (length (cmd_args call)) <? - arity info) then
      bind (log_requested_command call " does not have enough arguments.")
           (fun _ => RespondWithFailure "Too few arguments." call) p
    else if (0 <? arity info) && negb (Z.of_nat (length (cmd_args call)) =? arity info) then
      bind (log_requested_command call " has wrong number of arguments.")
           (fun _ => RespondWithFailure "Wrong number of arguments." call) p
    else invoke (function_ptr info) env call p.
Proof.
  intros Hv. unfold handle_current_command.
  destruct (arity info <? 0) eqn:Hneg.
  - apply Z.ltb_lt in Hneg.
    unfold bind at 1. unfold bind at 1. unfold lift.
    rewrite (int_mul_neg _ Hv Hneg). simpl.
    rewrite to_size_t_small by (unfold valid_arity, INT_MIN, INT_MAX in *; lia).
    rewrite prefixed_nil.
    replace (0 <? arity info) with false by (symmetry; apply Z.ltb_ge; lia).
    destruct (Z.of_nat (length (cmd_args call)) <? - arity info); reflexivity.
  - apply Z.ltb_ge in Hneg. unfold bind at 1. simpl. rewrite prefixed_nil.
    destruct (0 <? arity info) eqn:Hpos; [| reflexivity].
    apply Z.ltb_lt in Hpos.
    rewrite to_size_t_small by (unfold valid_arity in Hv; lia).
    destruct (negb (Z.of_nat (length (cmd_args call)) =? arity info)); reflexivity.
Qed.

Lemma arity_satisfied_tests a size :
  arity_satisfied a size
  = negb ((a <? 0) && (size <? - a)) && negb ((0 <? a) && negb (size =? a)).
Proof.
  unfold arity_satisfied.
  destruct (a <? 0) eqn:Hneg; simpl.
  - apply Z.ltb_lt in Hneg.
    replace (0 <? a) with false by (symmetry; apply Z.ltb_ge; lia). simpl.
    rewrite andb_true_r. rewrite Z.leb_antisym. reflexivity.
  - destruct (0 <? a); simpl; [now rewrite negb_involutive | reflexivity].
Qed.

Lemma log_requested_command_eq call tail cmd rest p :
  cmd_args call = cmd :: rest ->
  log_requested_command call tail p
  = Returns (tt, p, [EvLogError ("Requested command " +:+ Slice_to_ostream cmd +:+ tail)]).
Proof. intros Hargs. unfold log_requested_command. rewrite Hargs. reflexivity. Qed.

Lemma log_requested_command_ensures call tail p :
  ensures (log_requested_command call tail) p (fun _ p' evs =>
    p' = p /\ exists msg, evs = [EvLogError msg]).
Proof.
  unfold ensures, log_requested_command. destruct (cmd_args call); [exact I |].
  simpl. eauto.
Qed.

Lemma failure_ends_dispatch env error call cmd m :
  ends_dispatch env call [failure_response error call cmd m].
Proof. exists [], (failure_response error call cmd m). repeat split. Qed.

Lemma logged_failure_ensures env tail error call p :
  ensures (bind (log_requested_command call tail)
                (fun _ => RespondWithFailure error call)) p (fun _ p' evs =>
    service_up_to_metrics (service p) (service p') /\ ends_dispatch env call evs).
Proof.
  apply ensures_bind. eapply ensures_mono; [apply log_requested_command_ensures |].
  intros _ p1 e1 (-> & msg & ->).
  eapply ensures_mono; [apply RespondWithFailure_ensures |].
  intros _ p2 e2 (Hs & cmd & rest & m & _ & ->). split; [exact Hs |].
  exists [EvLogError msg], (failure_response error call cmd m). repeat split.
Qed.

Lemma handle_current_command_ends_dispatch env info call p :
  metrics_registered (service p) ->
  ensures (handle_current_command env info call) p (fun _ p' evs =>
    service_up_to_metrics (service p) (service p') /\ ends_dispatch env call evs).
Proof.
  intros Hreg. destruct info as [info|]; simpl.
  - apply ensures_bind.
    apply (ensures_mono _ _ (fun _ p' evs => p' = p /\ evs = [])).
    { unfold ensures, bind, lift, int_mul, ret.
      destruct (arity info <? 0); [| simpl; auto].
      destruct (in_int (-1 * arity info)); simpl; auto. }
    intros too_few p1 e1 (-> & ->). simpl.
    destruct too_few; [apply logged_failure_ensures |].
    destruct ((0 <? arity info) && _); [apply logged_failure_ensures |].
    apply invoke_ends_dispatch, Hreg.
  - eapply ensures_mono; [apply RespondWithFailure_ensures |].
    intros _ p2 e2 (Hs & cmd & rest & m & _ & ->). split; [exact Hs |].
    apply failure_ends_dispatch.
Qed.


(** *** The whole dispatch *)

Lemma metrics_registered_kept s s' :
  metrics_kept s s' -> metrics_registered s -> metrics_registered s'.
Proof. intros Hk Hr k Hin. apply Hk, Hr, Hin. Qed.

Lemma client_ready_up_to_metrics s s' :
  service_up_to_metrics s s' -> client_ready s -> client_ready s'.
Proof.
  intros [-> _] Hr. unfold client_ready in *. simpl. exact Hr.
Qed.

Lemma ensures_prefixed {A} (x : M A) p pre (Q : A -> Process -> list Event -> Prop) :
  ensures x p (fun a p' evs => Q a p' (pre ++ evs)) ->
  match prefixed pre (x p) with
  | Returns (a, p', evs) => Q a p' evs
  | _ => True
  end.
Proof. unfold ensures. destruct (x p) as [[[a p'] evs]| | |]; simpl; auto. Qed.

Lemma ValidateAndHandle_ensures env info call p :
  metrics_registered (service p) ->
  ensures (ValidateAndHandle env info call) p (fun _ p' evs =>
    metrics_registered (service p')
    /\ (client_ready (service p) -> client_ready (service p'))
    /\ exists evs',
        evs = (if yb_client_initialized_ (service p) then []
               else setup_events env (yb_tier_master_addresses_ (service p))) ++ evs'
        /\ ends_dispatch env call evs').
Proof.
  intros Hreg.
  destruct (ValidateAndHandle_stages env info call p)
    as (st & p1 & pre & _ & Hvh & Hm & Hready & Hcases).
  unfold ensures. rewrite Hvh. apply ensures_prefixed.
  assert (Hreg1 : metrics_registered (service p1)).
  { intros k Hk. rewrite Hm. apply Hreg, Hk. }
  assert (Hpre : pre = if yb_client_initialized_ (service p) then []
                       else setup_events env (yb_tier_master_addresses_ (service p))).
  { destruct (yb_client_initialized_ (service p)); tauto. }
  assert (Hpost : forall (u : unit) p' evs,
             service_up_to_metrics (service p1) (service p') /\ ends_dispatch env call evs ->
             metrics_registered (service p')
             /\ (client_ready (service p) -> client_ready (service p'))
             /\ exists evs',
                 pre ++ evs
                 = (if yb_client_initialized_ (service p) then []
                    else setup_events env (yb_tier_master_addresses_ (service p))) ++ evs'
                 /\ ends_dispatch env call evs').
  { intros _ p' evs (Hs & He). split; [| split].
    - eapply metrics_registered_kept; [apply Hs | exact Hreg1].
    - intros Hr. eapply client_ready_up_to_metrics; [exact Hs | auto].
    - exists evs. rewrite <- Hpre. auto. }
  destruct (ok st).
  - eapply ensures_mono; [apply handle_current_command_ends_dispatch, Hreg1 | exact Hpost].
  - eapply ensures_mono; [apply RespondWithFailure_ensures |].
    intros u p' evs (Hs & cmd & rest & m & _ & ->). apply (Hpost u).
    split; [exact Hs | apply failure_ends_dispatch].
Qed.

Lemma FetchHandler_ensures args p :
  ensures (FetchHandler args) p (fun info p' evs =>
    p' = p /\ (evs = [] \/ exists msg, evs = [EvLogError msg])).
Proof.
  unfold ensures, FetchHandler. destruct args as [|a rest]; [exact I |].
  unfold bind, get; simpl.
  destruct (command_name_to_info_map_ (service p) !! ToLowerCase a); simpl; eauto.
Qed.

Lemma setup_events_not_terminal env addr :
  List.filter terminal (setup_events env addr) = [].
Proof. unfold setup_events. destruct (ok (env_build env)); reflexivity. Qed.

Lemma quiet_not_terminal pre : forallb quiet pre = true -> List.filter terminal pre = [].
Proof.
  induction pre as [|e pre IH]; simpl; [reflexivity |].
  intros Hq. apply andb_true_iff in Hq as [He Hq].
  unfold quiet in He. destruct (terminal e); [discriminate | auto].
Qed.

Lemma terminal_for_terminal env call e : terminal_for env call e -> terminal e = true.
Proof. destruct e; simpl; tauto. Qed.

Lemma ends_dispatch_one_terminal env call evs :
  ends_dispatch env call evs ->
  exists e, List.filter terminal evs = [e] /\ terminal_for env call e.
Proof.
  intros (pre & e & -> & Hq & He). exists e. split; [| exact He].
  rewrite List.filter_app, (quiet_not_terminal _ Hq). simpl.
  rewrite (terminal_for_terminal _ _ _ He). reflexivity.
Qed.

(** Every dispatch that returns ended with exactly one response or
    submission, for the call it was given, and left the service in a state
    the next dispatch can start from. *)
Lemma Handle_ensures env call p :
  metrics_registered (service p) ->
  ensures (Handle env call) p (fun _ p' evs =>
    metrics_registered (service p')
    /\ (client_ready (service p) -> client_ready (service p'))
    /\ exists e, List.filter terminal evs = [e] /\ terminal_for env call e).
Proof.
  intros Hreg. unfold Handle.
  apply ensures_bind. eapply ensures_mono; [apply FetchHandler_ensures |].
  intros info p1 e1 (-> & He1).
  eapply ensures_mono; [apply ValidateAndHandle_ensures, Hreg |].
  intros _ p' evs (Hreg' & Hready & evs' & -> & Hends).
  split; [exact Hreg' |]. split; [exact Hready |].
  destruct (ends_dispatch_one_terminal _ _ _ Hends) as (e & Hf & He).
  exists e. split; [| exact He].
  rewrite !List.filter_app, Hf.
  replace (List.filter terminal e1) with (@nil Event)
    by (destruct He1 as [-> | [msg ->]]; reflexivity).
  destruct (yb_client_initialized_ (service p)); [reflexivity |].
  rewrite setup_events_not_terminal. reflexivity.
Qed.


(** *** Past the set-up stage nothing touches the mutex *)

Lemma no_setup_app evs1 evs2 : no_setup evs1 -> no_setup evs2 -> no_setup (evs1 ++ evs2).
Proof. unfold no_setup. rewrite forallb_app. intros -> ->. reflexivity. Qed.

Lemma invoke_no_setup f env call p :
  ensures (invoke f env call) p (fun _ _ evs => no_setup evs).
Proof.
  assert (Hr : forall n parse,
             ensures (ReadCommand env call n parse) p (fun _ _ evs => no_setup evs)).
  { intros n parse. eapply ensures_mono; [apply ReadCommand_ensures |].
    intros _ p' evs (_ & o & e & -> & He).
    destruct (ok (parse [] (cmd_args call)).1).
    - destruct He as (m & mi & -> & _). reflexivity.
    - destruct He as (cmd & rest & m & _ & ->). reflexivity. }
  assert (Hw : forall n parse,
             ensures (WriteCommand env call n parse) p (fun _ _ evs => no_setup evs)).
  { intros n parse. eapply ensures_mono; [apply WriteCommand_ensures |].
    intros _ p' evs (_ & o & He).
    destruct (ok (parse [] (cmd_args call)).1).
    - destruct He as (m & mi & -> & _). reflexivity.
    - destruct He as (cmd & rest & m & _ & ->). reflexivity. }
  destruct f; simpl; try apply Hr; try apply Hw.
  eapply ensures_mono; [apply EchoCommand_ensures |].
  intros _ p' evs (_ & a & m & _ & -> & _). reflexivity.
Qed.

Lemma logged_failure_no_setup tail error call p :
  ensures (bind (log_requested_command call tail)
                (fun _ => RespondWithFailure error call)) p (fun _ _ evs => no_setup evs).
Proof.
  apply ensures_bind. eapply ensures_mono; [apply log_requested_command_ensures |].
  intros _ p1 e1 (-> & msg & ->).
  eapply ensures_mono; [apply RespondWithFailure_ensures |].
  intros _ p2 e2 (_ & cmd & rest & m & _ & ->). reflexivity.
Qed.

Lemma handle_current_command_no_setup env info call p :
  ensures (handle_current_command env info call) p (fun _ _ evs => no_setup evs).
Proof.
  destruct info as [info|]; simpl.
  - apply ensures_bind.
    apply (ensures_mono _ _ (fun _ p' evs => p' = p /\ evs = [])).
    { unfold ensures, bind, lift, int_mul, ret.
      destruct (arity info <? 0); [| simpl; auto].
      destruct (in_int (-1 * arity info)); simpl; auto. }
    intros too_few p1 e1 (-> & ->). simpl.
    destruct too_few; [apply logged_failure_no_setup |].
    destruct ((0 <? arity info) && _); [apply logged_failure_no_setup |].
    apply invoke_no_setup.
  - eapply ensures_mono; [apply RespondWithFailure_ensures |].
    intros _ p2 e2 (_ & cmd & rest & m & _ & ->). reflexivity.
Qed.

Lemma ValidateAndHandle_initialized env info call p :
  yb_client_initialized_ (service p) = true ->
  ValidateAndHandle env info call p = handle_current_command env info call p.
Proof.
  intros Hi. unfold ValidateAndHandle, bind, get; simpl. rewrite Hi; simpl.
  apply prefixed_nil.
Qed.


(** *** The completion callbacks *)

Lemma ReadCommandCb_Run_responds cb now status payload p h :
  handler_latency (rcb_metrics_internal_ cb) = Some h ->
  (ok status = true -> read_slot_holds (read_op_ cb) payload p) ->
  ReadCommandCb_Run cb now status p
  = Returns (tt, p,
             [EvIncrement h (now - rcb_start_ cb);
              completion_response (rcb_redis_call_ cb) status payload (rcb_metrics_ cb)]).
Proof.
  intros Hh Hslot. unfold ReadCommandCb_Run, completion_response. rewrite Hh.
  unfold bind, emit, get, lift; simpl.
  destruct (ok status); [| reflexivity].
  destruct (Hslot eq_refl) as (op & l & Hop & Hl & Hr).
  rewrite Hop. unfold YBRedisReadOp.response. rewrite Hl, Hr. reflexivity.
Qed.

Lemma log_pending_errors_eq errors p :
  log_pending_errors errors p = Returns (tt, p, map pending_error_warning errors).
Proof.
  induction errors as [|e errors IH]; [reflexivity |].
  simpl. unfold bind, emit. simpl. rewrite IH. reflexivity.
Qed.

Lemma WriteCommandCb_Run_fails cb now pending status p h :
  handler_latency (wcb_metrics_internal_ cb) = Some h ->
  ok status = false ->
  WriteCommandCb_Run cb now pending status p
  = Returns (tt, p,
             [EvIncrement h (now - wcb_start_ cb)]
             ++ match wcb_session_ cb with
                | Some _ => EvGetPendingErrors :: map pending_error_warning pending.1
                | None => []
                end
             ++ [EvRespondFailure (wcb_redis_call_ cb) status (wcb_metrics_ cb)]).
Proof.
  intros Hh Hok. unfold WriteCommandCb_Run. rewrite Hh.
  unfold bind at 1. unfold emit at 1. rewrite Hok. simpl.
  destruct (wcb_session_ cb).
  - unfold bind, emit. simpl. rewrite log_pending_errors_eq. simpl.
    reflexivity.
  - reflexivity.
Qed.

Lemma WriteCommandCb_Run_succeeds cb now pending status payload p h :
  handler_latency (wcb_metrics_internal_ cb) = Some h ->
  ok status = true ->
  write_slot_holds (write_op_ cb) payload p ->
  WriteCommandCb_Run cb now pending status p
  = Returns (tt, p,
             [EvIncrement h (now - wcb_start_ cb);
              EvRespondSuccess (wcb_redis_call_ cb) payload (wcb_metrics_ cb)]).
Proof.
  intros Hh Hok (op & l & Hop & Hl & Hr). unfold WriteCommandCb_Run. rewrite Hh.
  unfold bind, emit, get, lift; simpl. rewrite Hok.
  rewrite Hop. unfold YBRedisWriteOp.response. rewrite Hl, Hr. reflexivity.
Qed.

Lemma responses_of_app evs1 evs2 :
  responses_of (evs1 ++ evs2) = responses_of evs1 ++ responses_of evs2.
Proof. apply List.filter_app. Qed.

Lemma responses_of_warnings errors :
  responses_of (map pending_error_warning errors) = [].
Proof. induction errors; simpl; auto. Qed.

Lemma responses_of_terminal evs :
  responses_of evs = List.filter is_response (List.filter terminal evs).
Proof.
  unfold responses_of. induction evs as [|e evs IH]; simpl; [reflexivity |].
  unfold terminal at 1. destruct (is_response e) eqn:He; simpl.
  - rewrite He, IH. reflexivity.
  - destruct (is_submission e); simpl; [rewrite He |]; exact IH.
Qed.

Lemma in_filter_singleton (f : Event -> bool) evs e e' :
  List.filter f evs = [e] -> In e' evs -> f e' = true -> e' = e.
Proof.
  intros Hf Hin He'.
  assert (Hin' : In e' (List.filter f evs)) by (apply List.filter_In; auto).
  rewrite Hf in Hin'. destruct Hin' as [<- | []]. reflexivity.
Qed.

(** C1.  Take a dispatch that returned and submitted an operation (its
    events contain the [ReadAsync], or the [FlushAsync], that carries the
    completion object).  The dispatch itself sent no response; and when the
    backend then runs the completion object once, with any status (having
    filled the response slot when the status is OK), [Run] returns and
    sends exactly one response, to the call that was dispatched: the
    success response with the operation's payload when the status is OK, the
    failure response with that status otherwise. *)
Theorem completion_sends_exactly_one_response env call p p1 evs :
  metrics_registered (service p) ->
  Handle env call p = Returns (tt, p1, evs) ->
  (forall session o cb,
      In (EvReadAsync session o cb) evs ->
      responses_of evs = []
      /\ forall now status payload p2,
          (ok status = true -> read_slot_holds (read_op_ cb) payload p2) ->
          exists evs2,
            ReadCommandCb_Run cb now status p2 = Returns (tt, p2, evs2)
            /\ responses_of evs2
               = [completion_response call status payload (rcb_metrics_ cb)])
  /\ (forall session cb,
        In (EvFlushAsync session cb) evs ->
        responses_of evs = []
        /\ forall now pending status payload p2,
            (ok status = true -> write_slot_holds (write_op_ cb) payload p2) ->
            exists evs2,
              WriteCommandCb_Run cb now pending status p2 = Returns (tt, p2, evs2)
              /\ responses_of evs2
                 = [completion_response call status payload (wcb_metrics_ cb)]).
Proof.
  intros Hreg Hrun.
  destruct (ensures_returned _ _ _ _ _ _ (Handle_ensures env call p Hreg) Hrun)
    as (_ & _ & e & Hterm & He).
  split.
  - intros session o cb Hin.
    assert (e = EvReadAsync session o cb) as ->.
    { symmetry. eapply in_filter_singleton; eauto. }
    destruct He as (Hcall & _ & _ & Hmi & _).
    split; [rewrite responses_of_terminal, Hterm; reflexivity |].
    intros now status payload p2 Hslot. eexists. split.
    + apply ReadCommandCb_Run_responds; [rewrite Hmi; reflexivity | exact Hslot].
    + rewrite Hcall. unfold completion_response. destruct (ok status); reflexivity.
  - intros session cb Hin.
    assert (e = EvFlushAsync session cb) as ->.
    { symmetry. eapply in_filter_singleton; eauto. }
    destruct He as (Hcall & _ & Hmi & _).
    split; [rewrite responses_of_terminal, Hterm; reflexivity |].
    intros now pending status payload p2 Hslot.
    destruct (ok status) eqn:Hok.
    + eexists. split.
      * eapply WriteCommandCb_Run_succeeds; [rewrite Hmi; reflexivity | exact Hok | auto].
      * rewrite Hcall. unfold completion_response. rewrite Hok. reflexivity.
    + eexists. split.
      * eapply WriteCommandCb_Run_fails; [rewrite Hmi; reflexivity | exact Hok].
      * rewrite Hcall. unfold completion_response. rewrite Hok.
        rewrite !responses_of_app. simpl.
        destruct (wcb_session_ cb); simpl; [rewrite responses_of_warnings |]; reflexivity.
Qed.


(** *** The dispatcher *)

Lemma produces_prefixed {A} (x y : M A) p p1 pre (Q : A -> Process -> list Event -> Prop) :
  x p = prefixed pre (y p1) ->
  produces y p1 (fun a p' evs => Q a p' (pre ++ evs)) ->
  produces x p Q.
Proof.
  intros Hx (a & p' & evs & Hy & HQ). exists a, p', (pre ++ evs).
  split; [| exact HQ]. rewrite Hx, Hy. reflexivity.
Qed.

Lemma logged_failure_produces tail error call cmd rest p :
  cmd_args call = cmd :: rest ->
  produces (bind (log_requested_command call tail)
                 (fun _ => RespondWithFailure error call)) p (fun _ _ evs =>
    exists m,
      evs = [EvLogError ("Requested command " +:+ Slice_to_ostream cmd +:+ tail);
             failure_response error call cmd m]).
Proof.
  intros Hargs. apply produces_bind.
  exists tt, p, [EvLogError ("Requested command " +:+ Slice_to_ostream cmd +:+ tail)].
  split; [apply (log_requested_command_eq _ _ _ _ _ Hargs) |].
  eapply produces_mono; [apply (RespondWithFailure_spec _ _ _ _ _ Hargs) |].
  intros _ p' evs (_ & m & -> & _). exists m. reflexivity.
Qed.

Lemma ensure_client_events env p status p1 pre :
  ensure_client env p = Returns (status, p1, pre) ->
  responses_of pre = [] /\ no_backend_call pre
  /\ (yb_client_initialized_ (service p) = true -> pre = []).
Proof.
  intros Hens.
  destruct (ValidateAndHandle_stages env None (mkInboundCall 0 []) p)
    as (st & q & pre' & Hens' & _ & _ & _ & Hcases).
  rewrite Hens in Hens'. injection Hens' as <- <- <-.
  destruct (yb_client_initialized_ (service p)).
  - destruct Hcases as (_ & _ & ->). repeat split.
  - destruct Hcases as (_ & -> & _). unfold setup_events.
    destruct (ok (env_build env)); repeat split; discriminate.
Qed.


Lemma Handle_recognized env call cmd rest i p :
  cmd_args call = cmd :: rest ->
  command_name_to_info_map_ (service p) !! ToLowerCase cmd = Some i ->
  Handle env call p = ValidateAndHandle env (Some i) call p.
Proof.
  intros Hargs Hi. unfold Handle. unfold bind at 1. rewrite Hargs.
  unfold FetchHandler, bind, get; simpl. rewrite Hi; simpl.
  apply prefixed_nil.
Qed.

Lemma no_backend_call_app evs1 evs2 :
  no_backend_call evs1 -> no_backend_call evs2 -> no_backend_call (evs1 ++ evs2).
Proof. unfold no_backend_call. rewrite forallb_app. intros -> ->. reflexivity. Qed.


(** *** The metric a read retains *)

Lemma ReadCommand_retains env call command_name parse p p' evs session o cb v :
  metrics_ (service p) !! command_name = Some v ->
  ReadCommand env call command_name parse p = Returns (tt, p', evs) ->
  In (EvReadAsync session o cb) evs ->
  rcb_metrics_ cb = v.
Proof.
  intros Hv Hrun Hin.
  destruct (ensures_returned _ _ _ _ _ _ (ReadCommand_ensures env call command_name parse p) Hrun)
    as (_ & o' & e & -> & He).
  apply in_app_or in Hin as [Hin | Hin].
  { simpl in Hin. repeat (destruct Hin as [Hin | Hin]; [discriminate |]). destruct Hin. }
  destruct Hin as [Hin | [Hin | []]]; [discriminate |]. subst e.
  destruct (ok (parse [] (cmd_args call)).1).
  - destruct He as (m & mi & [= _ _ ->] & Hm & _). simpl. apply Hm, Hv.
  - destruct He as (cmd & rest & m & _ & He). discriminate.
Qed.

(** The four read commands that pass their own name retain their own metric. *)
Lemma read_commands_retain_own_metric env call p p' evs session o cb :
  metrics_registered (service p) ->
  In (EvReadAsync session o cb) evs ->
  (GetCommand env call p = Returns (tt, p', evs) -> rcb_metrics_ cb = metric_of "get")
  /\ (HGetCommand env call p = Returns (tt, p', evs) -> rcb_metrics_ cb = metric_of "hget")
  /\ (StrLenCommand env call p = Returns (tt, p', evs) -> rcb_metrics_ cb = metric_of "strlen")
  /\ (ExistsCommand env call p = Returns (tt, p', evs) -> rcb_metrics_ cb = metric_of "exists").
Proof.
  intros Hreg Hin.
  repeat split; intros Hrun;
    (eapply ReadCommand_retains; [| exact Hrun | exact Hin]);
    apply Hreg; unfold metric_keys, methods; simpl; tauto.
Qed.

(** C4, on the code.  The completion object [GetRangeCommand] attaches
    retains the metric registered under "exists", which is not the one
    registered under "getrange": the command passes "exists" to
    [ReadCommand] as its name. *)
Theorem GetRangeCommand_retains_exists_metric env call p p' evs session o cb :
  metrics_registered (service p) ->
  GetRangeCommand env call p = Returns (tt, p', evs) ->
  In (EvReadAsync session o cb) evs ->
  rcb_metrics_ cb = metric_of "exists" /\ rcb_metrics_ cb <> metric_of "getrange".
Proof.
  intros Hreg Hrun Hin.
  assert (Hm : rcb_metrics_ cb = metric_of "exists").
  { eapply ReadCommand_retains; [| exact Hrun | exact Hin].
    apply Hreg. unfold metric_keys, methods. simpl. tauto. }
  split; [exact Hm |]. rewrite Hm. discriminate.
Qed.

(** *** Client set-up *)

(** C5.  While the flag is unset, a build or open failure is what
    [SetUpYBClient] returns, the flag stays unset, and the next call, with
    whatever the collaborators answer then, goes through the build/open
    sequence again from the start and sets the flag exactly when that one
    succeeds.  Once the flag is set, [SetUpYBClient] returns OK having done
    nothing but take and release the mutex, and [ValidateAndHandle] does not
    call it: the dispatch is the command stage alone, and none of its events
    touches the mutex, the builder or the table. *)
Theorem SetUpYBClient_retry_and_fast_path env addr p :
  (yb_client_initialized_ (service p) = false ->
   ok (setup_status env) = false ->
   exists p1,
     SetUpYBClient env addr p = Returns (setup_status env, p1, setup_events env addr)
     /\ yb_client_initialized_ (service p1) = false
     /\ forall env2 addr2,
         exists p2,
           SetUpYBClient env2 addr2 p1
           = Returns (setup_status env2, p2, setup_events env2 addr2)
           /\ yb_client_initialized_ (service p2) = ok (setup_status env2))
  /\ (yb_client_initialized_ (service p) = true ->
      SetUpYBClient env addr p = Returns (OK, p, [EvMutexLock; EvMutexUnlock])
      /\ forall info call,
          ValidateAndHandle env info call p = handle_current_command env info call p
          /\ ensures (ValidateAndHandle env info call) p (fun _ _ evs => no_setup evs)).
Proof.
  split.
  - intros Hi Hfail.
    destruct (SetUpYBClient_cases env addr p Hi) as (p1 & Hset & Hflag & _).
    exists p1. split; [exact Hset |]. rewrite Hfail in Hflag. split; [exact Hflag |].
    intros env2 addr2.
    destruct (SetUpYBClient_cases env2 addr2 p1 Hflag) as (p2 & Hset2 & Hflag2 & _).
    exists p2. split; assumption.
  - intros Hi. split; [apply SetUpYBClient_initialized, Hi |].
    intros info call.
    pose proof (ValidateAndHandle_initialized env info call p Hi) as Heq.
    split; [exact Heq |].
    unfold ensures. rewrite Heq. apply handle_current_command_no_setup.
Qed.

(** *** Parse failures *)

Lemma c_str_without_nul s : has_nul s = false -> c_str s = s.
Proof.
  induction s as [|c s IH]; simpl; [reflexivity |].
  destruct (Ascii.eqb c zero); simpl; [discriminate |].
  intros Hs. rewrite (IH Hs). reflexivity.
Qed.

(** C6.  In both pipelines, when the parser returns a status that is not OK
    the call is answered at once with a failure whose message is the
    parser's message (followed by " : " and the command token), and the
    events of the call contain no [ReadAsync], [Apply] or [FlushAsync]. *)
Theorem parse_failure_answers_without_backend_call env call cmd rest c tbl p :
  cmd_args call = cmd :: rest ->
  client_ (service p) = Some c ->
  table_ (service p) = Some tbl ->
  ok (env_set_flush_mode env) = true ->
  (forall command_name (parse : ReadParser),
      ok (parse [] (cmd_args call)).1 = false ->
      produces (ReadCommand env call command_name parse) p (fun _ _ evs =>
        no_backend_call evs
        /\ exists o m,
            evs = session_events true
                  ++ [EvNewRedisRead o;
                      failure_response (message (parse [] (cmd_args call)).1) call cmd m]))
  /\ (forall command_name (parse : WriteParser),
        ok (parse [] (cmd_args call)).1 = false ->
        produces (WriteCommand env call command_name parse) p (fun _ _ evs =>
          no_backend_call evs
          /\ exists o m,
              evs = session_events false
                    ++ [EvNewRedisWrite o;
                        failure_response (message (parse [] (cmd_args call)).1) call cmd m]))
  /\ (forall error m,
        has_nul error = false ->
        failure_response error call cmd m
        = EvRespondFailure call (Error RuntimeError (error +:+ " : " +:+ c_str cmd)) m).
Proof.
  intros Hargs Hc Ht Hf. split; [| split].
  - intros command_name parse Hfail. unfold ReadCommand.
    apply produces_bind. eexists _, _, _.
    split; [apply (open_session_eq _ _ _ _ Hc Hf) |].
    apply produces_bind. eexists _, _, _.
    split; [apply (NewRedisRead_eq _ _ Ht) |].
    apply produces_bind. eexists _, _, _.
    split; [apply parse_read_eq; simpl; apply lookup_insert_eq |].
    simpl. rewrite Hfail. simpl.
    eapply produces_mono; [apply (RespondWithFailure_spec _ _ _ _ _ Hargs) |].
    intros _ p' evs (_ & m & -> & _). split; [reflexivity |]. eauto.
  - intros command_name parse Hfail. unfold WriteCommand.
    apply produces_bind. eexists _, _, _.
    split; [apply (open_session_eq _ _ _ _ Hc Hf) |].
    apply produces_bind. eexists _, _, _.
    split; [apply (NewRedisWrite_eq _ _ Ht) |].
    apply produces_bind. eexists _, _, _.
    split; [apply parse_write_eq; simpl; apply lookup_insert_eq |].
    simpl. rewrite Hfail. simpl.
    eapply produces_mono; [apply (RespondWithFailure_spec _ _ _ _ _ Hargs) |].
    intros _ p' evs (_ & m & -> & _). split; [reflexivity |]. eauto.
  - intros error m Hn. unfold failure_response, StringPrintf_s_colon_s.
    rewrite (c_str_without_nul _ Hn). reflexivity.
Qed.

(** *** Pending errors *)

(** C7.  When the status is not OK, [WriteCommandCb::Run] (holding a
    session, as every completion object that [WriteCommand] makes does)
    asks the session for its pending errors, logs one warning per error, in
    order, and only then responds; the response is the failure with the
    status [Run] was given, whatever the pending errors and the overflow
    flag are. *)
Theorem WriteCommandCb_failure_logs_pending_errors cb now pending status p h s :
  handler_latency (wcb_metrics_internal_ cb) = Some h ->
  wcb_session_ cb = Some s ->
  ok status = false ->
  WriteCommandCb_Run cb now pending status p
  = Returns (tt, p,
             [EvIncrement h (now - wcb_start_ cb); EvGetPendingErrors]
             ++ map pending_error_warning pending.1
             ++ [EvRespondFailure (wcb_redis_call_ cb) status (wcb_metrics_ cb)])
  /\ forall pending',
      responses_of (events_of (WriteCommandCb_Run cb now pending' status p))
      = [EvRespondFailure (wcb_redis_call_ cb) status (wcb_metrics_ cb)].
Proof.
  intros Hh Hs Hok. split.
  - rewrite (WriteCommandCb_Run_fails _ _ _ _ _ _ Hh Hok), Hs. reflexivity.
  - intros pending'.
    rewrite (WriteCommandCb_Run_fails _ _ _ _ _ _ Hh Hok), Hs. simpl.
    unfold responses_of. simpl.
    change (List.filter is_response
              (map pending_error_warning pending'.1
               ++ [EvRespondFailure (wcb_redis_call_ cb) status (wcb_metrics_ cb)]))
      with (responses_of
              (map pending_error_warning pending'.1
               ++ [EvRespondFailure (wcb_redis_call_ cb) status (wcb_metrics_ cb)])).
    rewrite responses_of_app, responses_of_warnings. reflexivity.
Qed.

End ServiceLemmas.

(** ** The response slot *)

Lemma backend_complete_read_populates payload o p op :
  read_ops p !! o = Some op ->
  read_slot_holds o payload (backend_complete_read OK payload o p).
Proof.
  intros Hop. unfold backend_complete_read. simpl. rewrite Hop.
  unfold YBRedisReadOp.mutable_response.
  destruct (YBRedisReadOp.redis_response_ op) as [|l] eqn:Hslot; simpl.
  - eexists _, _. simpl. split; [apply lookup_insert_eq |].
    split; [reflexivity | apply lookup_insert_eq].
  - exists op, l. simpl. split; [apply lookup_insert_eq |].
    split; [exact Hslot | apply lookup_insert_eq].
Qed.

Lemma backend_complete_write_populates payload o p op :
  write_ops p !! o = Some op ->
  write_slot_holds o payload (backend_complete_write OK payload o p).
Proof.
  intros Hop. unfold backend_complete_write. simpl. rewrite Hop.
  unfold YBRedisWriteOp.mutable_response.
  destruct (YBRedisWriteOp.redis_response_ op) as [|l] eqn:Hslot; simpl.
  - eexists _, _. simpl. split; [apply lookup_insert_eq |].
    split; [reflexivity | apply lookup_insert_eq].
  - exists op, l. simpl. split; [apply lookup_insert_eq |].
    split; [exact Hslot | apply lookup_insert_eq].
Qed.

(** C10.  [YBRedisReadOp::response()] fails its assertion on an empty slot
    and returns the object the slot points to otherwise.  So
    [ReadCommandCb::Run], given status OK for an operation whose slot is
    still empty, stops at the assertion; whereas after the backend has
    completed the operation with status OK the slot holds the payload, and
    [Run] with status OK gets past [response()] and responds with it. *)
Theorem response_asserts_populated_slot :
  (forall (h : Store) op,
      YBRedisReadOp.redis_response_ op = nullptr ->
      YBRedisReadOp.response h op = AssertionFailure "redis_response_ != nullptr")
  /\ (forall (h : Store) op l r,
        YBRedisReadOp.redis_response_ op = Ptr l -> h !! l = Some r ->
        YBRedisReadOp.response h op = Returns r)
  /\ (forall cb now p op hist,
        handler_latency (rcb_metrics_internal_ cb) = Some hist ->
        read_ops p !! read_op_ cb = Some op ->
        YBRedisReadOp.redis_response_ op = nullptr ->
        ReadCommandCb_Run cb now OK p = AssertionFailure "redis_response_ != nullptr")
  /\ (forall cb now p op hist payload,
        handler_latency (rcb_metrics_internal_ cb) = Some hist ->
        read_ops p !! read_op_ cb = Some op ->
        let p' := backend_complete_read OK payload (read_op_ cb) p in
        read_slot_holds (read_op_ cb) payload p'
        /\ ReadCommandCb_Run cb now OK p'
           = Returns (tt, p',
                      [EvIncrement hist (now - rcb_start_ cb);
                       EvRespondSuccess (rcb_redis_call_ cb) payload (rcb_metrics_ cb)])).
Proof.
  split; [| split; [| split]].
  - intros h op Hnull. unfold YBRedisReadOp.response. rewrite Hnull. reflexivity.
  - intros h op l r Hl Hr. unfold YBRedisReadOp.response. rewrite Hl, Hr. reflexivity.
  - intros cb now p op hist Hh Hop Hnull.
    unfold ReadCommandCb_Run. rewrite Hh.
    unfold bind, emit, get, lift; simpl. rewrite Hop.
    unfold YBRedisReadOp.response. rewrite Hnull. reflexivity.
  - intros cb now p op hist payload Hh Hop p'.
    pose proof (backend_complete_read_populates payload _ _ _ Hop) as Hslot.
    split; [exact Hslot |].
    apply (ReadCommandCb_Run_responds cb now OK payload p' hist Hh).
    intros _. exact Hslot.
Qed.

Section Construction.
Context `{Externals}.

(** *** The constructor *)

Lemma SETUP_METRICS_FOR_METHOD_spec m idx s s' :
  SETUP_METRICS_FOR_METHOD m idx s = Returns s' ->
  yb_client_initialized_ s' = yb_client_initialized_ s
  /\ (forall n, n = m \/ named_entry s n -> named_entry s' n)
  /\ (forall n, n = m \/ metrics_ s !! n = Some (metric_of n) ->
                metrics_ s' !! n = Some (metric_of n)).
Proof.
  unfold SETUP_METRICS_FOR_METHOD.
  destruct (kRedisCommandTable !! idx) as [i|]; [| discriminate].
  destruct (String.eqb m (name i)) eqn:E; [| discriminate].
  apply String.eqb_eq in E. intros [= <-]. simpl. split; [reflexivity |]. split.
  - intros n Hn. unfold named_entry. simpl.
    destruct (decide (m = n)) as [<- | Hne].
    + exists i. rewrite lookup_insert_eq. auto.
    + rewrite lookup_insert_ne by exact Hne.
      destruct Hn as [-> | Hn]; [congruence | exact Hn].
  - intros n Hn.
    destruct (decide (m = n)) as [<- | Hne].
    + apply lookup_insert_eq.
    + rewrite lookup_insert_ne by exact Hne.
      destruct Hn as [-> | Hn]; [congruence | exact Hn].
Qed.

Lemma setup_methods_spec ms :
  forall idx s idx' s',
    setup_methods ms idx s = Returns (idx', s') ->
    idx' = (idx + length ms)%nat
    /\ yb_client_initialized_ s' = yb_client_initialized_ s
    /\ (forall n, In n ms \/ named_entry s n -> named_entry s' n)
    /\ (forall n, In n ms \/ metrics_ s !! n = Some (metric_of n) ->
                  metrics_ s' !! n = Some (metric_of n)).
Proof.
  induction ms as [|m ms IH]; intros idx s idx' s'; simpl.
  - intros [= <- <-]. split; [lia |]. split; [reflexivity |]. split; intros n [[] | Hn]; exact Hn.
  - destruct (SETUP_METRICS_FOR_METHOD m idx s) as [s1| | |] eqn:Hm; simpl; try discriminate.
    intros Hrest.
    destruct (SETUP_METRICS_FOR_METHOD_spec _ _ _ _ Hm) as (Hf1 & He1 & Hm1).
    destruct (IH _ _ _ _ Hrest) as (-> & Hf2 & He2 & Hm2).
    split; [lia |]. split; [congruence |]. split.
    + intros n [[<- | Hn] | Hn]; apply He2; auto.
    + intros n [[<- | Hn] | Hn]; apply Hm2; auto.
Qed.

Lemma setup_internal_metric_lookup k k' s :
  metrics_ (setup_internal_metric k s) !! k'
  = if decide (k = k') then Some (metric_of k) else metrics_ s !! k'.
Proof. unfold setup_internal_metric. simpl. apply lookup_insert. Qed.

(** The constructor, when it does not abort, leaves every metric key
    registered, every command of [methods] bound to a table entry of that
    name, and the client unset. *)
Lemma RedisServiceImpl_new_invariant addresses s :
  RedisServiceImpl_new addresses = Returns s ->
  service_invariant s
  /\ yb_client_initialized_ s = false
  /\ forall n, In n methods -> named_entry s n.
Proof.
  unfold RedisServiceImpl_new, PopulateHandlers.
  destruct (kMethodCount =? Z.of_nat (length kRedisCommandTable)); [| discriminate].
  destruct (setup_methods methods 0 _) as [[idx s1]| | |] eqn:Hsetup; simpl; try discriminate.
  destruct (kMethodCount =? Z.of_nat idx); [| discriminate].
  intros [= <-].
  destruct (setup_methods_spec _ _ _ _ _ Hsetup) as (_ & Hflag & Hent & Hmet).
  simpl in Hflag.
  assert (Hunset : yb_client_initialized_
                     (setup_internal_metric "set_internal"
                        (setup_internal_metric "get_internal"
                           (setup_internal_metric "error" s1))) = false) by exact Hflag.
  split; [split |]; [| | split].
  - intros k Hk. rewrite !setup_internal_metric_lookup.
    repeat case_decide; subst; try reflexivity.
    apply Hmet. left. unfold metric_keys in Hk.
    apply in_app_or in Hk as [Hk | Hk]; [exact Hk |].
    simpl in Hk. destruct Hk as [<- | [<- | [<- | []]]]; congruence.
  - intros Hi. rewrite Hunset in Hi. discriminate.
  - exact Hunset.
  - intros n Hn. destruct (Hent n (or_introl Hn)) as (i & Hi & Hname).
    exists i. split; [exact Hi | exact Hname].
Qed.

(** A dispatch that returns hands the invariant on to the next one. *)
Lemma Handle_preserves_invariant env call p p' evs :
  service_invariant (service p) ->
  Handle env call p = Returns (tt, p', evs) ->
  service_invariant (service p').
Proof.
  intros [Hreg Hready] Hrun.
  destruct (ensures_returned _ _ _ _ _ _ (Handle_ensures env call p Hreg) Hrun)
    as (Hreg' & Hready' & _).
  split; [exact Hreg' | exact (Hready' Hready)].
Qed.

End Construction.

(** * The sample instance run through the theorems *)
Module SampleRuns.
Import Sample.

Lemma started_is_constructed :
  RedisServiceImpl_new (H := externals) "127.0.0.1:7100" = Returns (service started).
Proof. vm_compute. reflexivity. Qed.

Lemma started_invariant : service_invariant (service started).
Proof.
  apply (RedisServiceImpl_new_invariant (H := externals) _ _ started_is_constructed).
Qed.

Lemma connected_invariant : service_invariant (service connected).
Proof.
  apply (Handle_preserves_invariant (H := externals) env_up ping started connected
           (events env_up ping started) started_invariant).
  vm_compute. reflexivity.
Qed.

Lemma connected_registered : metrics_registered (service connected).
Proof. exact (proj1 connected_invariant). Qed.


Lemma connected_initialized : yb_client_initialized_ (service connected) = true.
Proof. vm_compute. reflexivity. Qed.

Lemma started_uninitialized : yb_client_initialized_ (service started) = false.
Proof. vm_compute. reflexivity. Qed.

(** GET k and SET k v on the connected service, then the backend completing
    the read with the payload and the flush with a timeout. *)
Lemma completion_sends_exactly_one_response_witness :
  metrics_registered (service connected)
  /\ Handle (H := externals) env_up get_k connected
     = Returns (tt, after env_up get_k connected, events env_up get_k connected)
  /\ In (EvReadAsync read_session 1%positive get_cb) (events env_up get_k connected)
  /\ responses_of (events env_up get_k connected) = []
  /\ (exists evs2,
        ReadCommandCb_Run get_cb 2500 OK
          (backend_complete_read OK payload 1%positive (after env_up get_k connected))
        = Returns (tt, backend_complete_read OK payload 1%positive
                         (after env_up get_k connected), evs2)
        /\ responses_of evs2 = [EvRespondSuccess get_k payload (metric_of "get")])
  /\ Handle (H := externals) env_up set_k_v connected
     = Returns (tt, after env_up set_k_v connected, events env_up set_k_v connected)
  /\ In (EvFlushAsync write_session set_cb) (events env_up set_k_v connected)
  /\ exists evs2,
      WriteCommandCb_Run (H := externals) set_cb 2500 two_pending timed_out
        (after env_up set_k_v connected)
      = Returns (tt, after env_up set_k_v connected, evs2)
      /\ responses_of evs2 = [EvRespondFailure set_k_v timed_out (metric_of "set")].
Proof.
  assert (Hrun : Handle (H := externals) env_up get_k connected
                 = Returns (tt, after env_up get_k connected, events env_up get_k connected))
    by (vm_compute; reflexivity).
  assert (Hin : In (EvReadAsync read_session 1%positive get_cb)
                   (events env_up get_k connected))
    by (vm_compute; tauto).
  assert (Hrun' : Handle (H := externals) env_up set_k_v connected
                  = Returns (tt, after env_up set_k_v connected,
                             events env_up set_k_v connected))
    by (vm_compute; reflexivity).
  assert (Hin' : In (EvFlushAsync write_session set_cb) (events env_up set_k_v connected))
    by (vm_compute; tauto).
  destruct (completion_sends_exactly_one_response (H := externals)
              env_up get_k connected _ _ connected_registered Hrun) as [Hread _].
  destruct (completion_sends_exactly_one_response (H := externals)
              env_up set_k_v connected _ _ connected_registered Hrun') as [_ Hwrite].
  destruct (Hread _ _ _ Hin) as [Hnone Hcb].
  destruct (Hwrite _ _ Hin') as [_ Hcb'].
  split; [exact connected_registered |].
  split; [exact Hrun |]. split; [exact Hin |]. split; [exact Hnone |].
  split.
  { apply (Hcb 2500 OK payload). intros _.
    apply (backend_complete_read_populates payload 1%positive _
             (YBRedisReadOp.mk (mkYBTable ".redis") [("key", "k")] nullptr)).
    vm_compute. reflexivity. }
  split; [exact Hrun' |]. split; [exact Hin' |].
  apply (Hcb' 2500 two_pending timed_out payload). discriminate.
Defined.


(** GETRANGE k 0 1 on the connected service. *)
Lemma GetRangeCommand_retains_exists_metric_witness :
  metrics_registered (service connected)
  /\ GetRangeCommand (H := externals) env_up getrange_k connected
     = Returns (tt, after env_up getrange_k connected, events env_up getrange_k connected)
  /\ In (EvReadAsync read_session 1%positive getrange_cb)
        (events env_up getrange_k connected)
  /\ rcb_metrics_ getrange_cb = metric_of "exists"
  /\ rcb_metrics_ getrange_cb <> metric_of "getrange".
Proof.
  assert (Hrun : GetRangeCommand (H := externals) env_up getrange_k connected
                 = Returns (tt, after env_up getrange_k connected,
                            events env_up getrange_k connected))
    by (vm_compute; reflexivity).
  assert (Hin : In (EvReadAsync read_session 1%positive getrange_cb)
                   (events env_up getrange_k connected))
    by (vm_compute; tauto).
  split; [exact connected_registered |]. split; [exact Hrun |]. split; [exact Hin |].
  exact (GetRangeCommand_retains_exists_metric (H := externals) env_up getrange_k
           connected _ _ _ _ _ connected_registered Hrun Hin).
Defined.

(** A first set-up with the master unreachable, then one with it back; and
    a set-up on the connected service. *)
Lemma SetUpYBClient_retry_and_fast_path_witness :
  (exists p1,
      SetUpYBClient (H := externals) env_down "127.0.0.1:7100" started
      = Returns (Error NetworkError "master unreachable", p1,
                 setup_events (H := externals) env_down "127.0.0.1:7100")
      /\ yb_client_initialized_ (service p1) = false
      /\ exists p2,
          SetUpYBClient (H := externals) env_up "127.0.0.1:7100" p1
          = Returns (OK, p2, setup_events (H := externals) env_up "127.0.0.1:7100")
          /\ yb_client_initialized_ (service p2) = true)
  /\ SetUpYBClient (H := externals) env_down "127.0.0.1:7100" connected
     = Returns (OK, connected, [EvMutexLock; EvMutexUnlock]).
Proof.
  split.
  - destruct (SetUpYBClient_retry_and_fast_path (H := externals) env_down
                "127.0.0.1:7100" started) as [Hfail _].
    destruct (Hfail started_uninitialized eq_refl) as (p1 & Hset & Hflag & Hretry).
    exists p1. split; [exact Hset |]. split; [exact Hflag |].
    destruct (Hretry env_up "127.0.0.1:7100") as (p2 & Hset2 & Hflag2).
    exists p2. split; [exact Hset2 | exact Hflag2].
  - destruct (SetUpYBClient_retry_and_fast_path (H := externals) env_down
                "127.0.0.1:7100" connected) as [_ Hfast].
    exact (proj1 (Hfast connected_initialized)).
Defined.

(** GET with an empty key on the connected service: the sample parser
    refuses it. *)
Lemma parse_failure_answers_without_backend_call_witness :
  cmd_args get_empty_key = "GET" :: [""]
  /\ client_ (service connected) = Some (redis_ybclient (H := externals) "127.0.0.1:7100")
  /\ table_ (service connected) = Some (mkYBTable ".redis")
  /\ ok (env_set_flush_mode env_up) = true
  /\ ok (parse_key [] (cmd_args get_empty_key)).1 = false
  /\ produces (ReadCommand (H := externals) env_up get_empty_key "get" parse_key) connected
       (fun _ _ evs =>
          no_backend_call evs
          /\ exists o m,
              evs = session_events (H := externals) true
                    ++ [EvNewRedisRead o;
                        failure_response "A key is required" get_empty_key "GET" m]).
Proof.
  assert (Hc : client_ (service connected)
               = Some (redis_ybclient (H := externals) "127.0.0.1:7100"))
    by (vm_compute; reflexivity).
  assert (Ht : table_ (service connected) = Some (mkYBTable ".redis"))
    by (vm_compute; reflexivity).
  split; [reflexivity |]. split; [exact Hc |]. split; [exact Ht |].
  split; [reflexivity |]. split; [reflexivity |].
  destruct (parse_failure_answers_without_backend_call (H := externals) env_up
              get_empty_key "GET" [""] _ _ connected eq_refl Hc Ht eq_refl)
    as (Hread & _ & _).
  exact (Hread "get" parse_key eq_refl).
Defined.

(** The flush of SET k v timing out, with two errors pending. *)
Lemma WriteCommandCb_failure_logs_pending_errors_witness :
  handler_latency (wcb_metrics_internal_ set_cb) = Some (METRIC_handler_latency "set_internal")
  /\ wcb_session_ set_cb = Some write_session
  /\ ok timed_out = false
  /\ WriteCommandCb_Run (H := externals) set_cb 2500 two_pending timed_out connected
     = Returns (tt, connected,
                [EvIncrement (METRIC_handler_latency "set_internal") 1500;
                 EvGetPendingErrors;
                 EvLogWarning "Explicit error while inserting: Error: row 1";
                 EvLogWarning "Explicit error while inserting: Error: row 2";
                 EvRespondFailure set_k_v timed_out (metric_of "set")]).
Proof.
  split; [reflexivity |]. split; [reflexivity |]. split; [reflexivity |].
  exact (proj1 (WriteCommandCb_failure_logs_pending_errors (H := externals) set_cb 2500
                  two_pending timed_out connected _ write_session
                  eq_refl eq_refl eq_refl)).
Defined.

(** "GeT" and "gEt" on the connected service. *)
Lemma FetchHandler_case_insensitive_witness :
  differ_only_in_casing "GeT" "gEt" = true
  /\ FetchHandler ["GeT"; "k"] connected = FetchHandler ["gEt"] connected
  /\ FetchHandler ["GeT"; "k"] connected
     = Returns (Some (mkRedisCommandInfo "get" fn_GetCommand 2), connected, []).
Proof.
  destruct (FetchHandler_case_insensitive "GeT" "gEt" ["k"] [] connected eq_refl)
    as [Hsame Hreg].
  split; [reflexivity |]. split; [exact Hsame |].
  apply (Hreg "get" (mkRedisCommandInfo "get" fn_GetCommand 2)).
  - unfold methods. simpl. tauto.
  - vm_compute. reflexivity.
  - reflexivity.
Defined.

End SampleRuns.

(** ** The dispatch as a whole *)
Section DispatchAsAWhole.

Context `{Externals}.

Lemma ops_kept_refl {A} (m : gmap loc A) : ops_kept m m.
Proof. intros o op Ho. exact Ho. Qed.

Lemma ops_kept_trans {A} (m1 m2 m3 : gmap loc A) :
  ops_kept m1 m2 -> ops_kept m2 m3 -> ops_kept m1 m3.
Proof. intros H12 H23 o op Ho. auto. Qed.

Lemma ops_kept_insert_fresh {A} (m : gmap loc A) o op :
  m !! o = None -> ops_kept m (<[o := op]> m).
Proof.
  intros Hfresh o' op' Ho'. rewrite lookup_insert_ne; [exact Ho' | congruence].
Qed.

Lemma only_metrics_refl p : only_metrics p p.
Proof. split; [destruct p as [[] ? ? ?]; reflexivity | apply metrics_kept_refl]. Qed.

Lemma only_metrics_trans p1 p2 p3 :
  only_metrics p1 p2 -> only_metrics p2 p3 -> only_metrics p1 p3.
Proof.
  intros [E12 K12] [E23 K23]. split.
  - rewrite E23 at 1. rewrite E12. reflexivity.
  - eapply metrics_kept_trans; eauto.
Qed.

Lemma only_metrics_frame p p' : only_metrics p p' -> handler_frame p p'.
Proof.
  intros [E K]. split; [split; [| exact K] |].
  - rewrite E at 1. reflexivity.
  - rewrite E. simpl. split; [reflexivity |]. split; apply ops_kept_refl.
Qed.

Lemma handler_frame_refl p : handler_frame p p.
Proof. apply only_metrics_frame, only_metrics_refl. Qed.

Lemma handler_frame_trans p1 p2 p3 :
  handler_frame p1 p2 -> handler_frame p2 p3 -> handler_frame p1 p3.
Proof.
  intros (Hs12 & Hr12 & Ho12 & Hw12) (Hs23 & Hr23 & Ho23 & Hw23).
  split; [eapply service_up_to_metrics_trans; eauto |].
  split; [congruence |].
  split; eapply ops_kept_trans; eauto.
Qed.

Lemma metrics_at_only k p :
  produces (metrics_at k) p (fun m p' evs =>
    evs = [] /\ only_metrics p p'
    /\ (forall v, metrics_ (service p) !! k = Some v -> m = v)).
Proof.
  unfold produces, metrics_at.
  destruct (metrics_ (service p) !! k) as [v|] eqn:Hk.
  - exists v, p, []. split; [reflexivity |]. split; [reflexivity |].
    split; [apply only_metrics_refl | congruence].
  - eexists _, _, []. split; [reflexivity |]. split; [reflexivity |]. split.
    + split; [destruct p as [[] ? ? ?]; reflexivity |].
      intros k' v' Hk'. simpl. rewrite lookup_insert_ne; [exact Hk' | congruence].
    + discriminate.
Qed.

Lemma RespondWithFailure_only error call p :
  ensures (RespondWithFailure error call) p (fun _ p' evs =>
    only_metrics p p'
    /\ exists cmd rest m,
        cmd_args call = cmd :: rest
        /\ evs = [failure_response error call cmd m]
        /\ (forall v, metrics_ (service p) !! "error" = Some v -> m = v)).
Proof.
  unfold RespondWithFailure. destruct (cmd_args call) as [|cmd rest]; [exact I |].
  apply ensures_bind. eapply ensures_mono; [apply produces_ensures, metrics_at_only |].
  intros m p' evs (-> & Hf & Hm). apply ensures_emit.
  split; [exact Hf |]. exists cmd, rest, m. auto.
Qed.

Lemma NewRedisRead_frame p :
  ensures NewRedisRead p (fun o p' evs =>
    exists tbl,
      table_ (service p) = Some tbl
      /\ read_ops p !! o = None
      /\ p' = set_read_ops (<[o := YBRedisReadOp.create tbl]> (read_ops p)) p
      /\ evs = [EvNewRedisRead o]).
Proof.
  unfold ensures. destruct (table_ (service p)) as [tbl|] eqn:Ht.
  - rewrite (NewRedisRead_eq _ _ Ht). exists tbl. split; [reflexivity |].
    split; [apply not_elem_of_dom, is_fresh |]. split; reflexivity.
  - unfold NewRedisRead, bind, get; simpl. rewrite Ht. exact I.
Qed.

Lemma NewRedisWrite_frame p :
  ensures NewRedisWrite p (fun o p' evs =>
    exists tbl,
      table_ (service p) = Some tbl
      /\ write_ops p !! o = None
      /\ p' = set_write_ops (<[o := YBRedisWriteOp.create tbl]> (write_ops p)) p
      /\ evs = [EvNewRedisWrite o]).
Proof.
  unfold ensures. destruct (table_ (service p)) as [tbl|] eqn:Ht.
  - rewrite (NewRedisWrite_eq _ _ Ht). exists tbl. split; [reflexivity |].
    split; [apply not_elem_of_dom, is_fresh |]. split; reflexivity.
  - unfold NewRedisWrite, bind, get; simpl. rewrite Ht. exact I.
Qed.

Lemma parse_read_frame parse o args p :
  ensures (parse_read parse o args) p (fun s p' evs =>
    exists op,
      read_ops p !! o = Some op
      /\ s = (parse (YBRedisReadOp.redis_read_request_ op) args).1
      /\ p' = set_read_ops
                (<[o := YBRedisReadOp.set_request
                          (parse (YBRedisReadOp.redis_read_request_ op) args).2 op]>
                   (read_ops p)) p
      /\ evs = []).
Proof.
  unfold ensures. destruct (read_ops p !! o) as [op|] eqn:Ho.
  - rewrite (parse_read_eq _ _ _ _ _ Ho). exists op. repeat split; try exact Ho.
  - unfold parse_read, bind, get; simpl. rewrite Ho. exact I.
Qed.

Lemma parse_write_frame parse o args p :
  ensures (parse_write parse o args) p (fun s p' evs =>
    exists op,
      write_ops p !! o = Some op
      /\ s = (parse (YBRedisWriteOp.redis_write_request_ op) args).1
      /\ p' = set_write_ops
                (<[o := YBRedisWriteOp.set_request
                          (parse (YBRedisWriteOp.redis_write_request_ op) args).2 op]>
                   (write_ops p)) p
      /\ evs = []).
Proof.
  unfold ensures. destruct (write_ops p !! o) as [op|] eqn:Ho.
  - rewrite (parse_write_eq _ _ _ _ _ Ho). exists op. repeat split; try exact Ho.
  - unfold parse_write, bind, get; simpl. rewrite Ho. exact I.
Qed.

Lemma ReadCommand_outcome env call command_name parse p :
  ensures (ReadCommand env call command_name parse) p (fun _ p' evs =>
    read_outcome env call command_name parse p p' evs).
Proof.
  unfold ReadCommand.
  apply ensures_bind. eapply ensures_mono; [apply open_session_ensures |].
  intros s p1 e1 (-> & -> & ->).
  apply ensures_bind. eapply ensures_mono; [apply NewRedisRead_frame |].
  intros o p2 e2 (tbl & Ht & Hfresh & -> & ->).
  apply ensures_bind. eapply ensures_mono; [apply parse_read_frame |].
  intros st p3 e3 (op & Hop & -> & -> & ->).
  simpl in Hop. rewrite lookup_insert_eq in Hop. injection Hop as <-.
  simpl. rewrite insert_insert_eq.
  destruct (ok (parse [] (cmd_args call)).1) eqn:Hok; simpl.
  - apply ensures_bind. eapply ensures_mono; [apply produces_ensures, metrics_at_only |].
    intros m p4 e4 (-> & Hf4 & Hm).
    apply ensures_bind. eapply ensures_mono; [apply produces_ensures, metrics_at_only |].
    intros mi p5 e5 (-> & Hf5 & Hmi).
    apply ensures_emit.
    exists o, tbl. split; [exact Ht |]. split; [exact Hfresh |].
    split; [exact (only_metrics_trans _ _ _ Hf4 Hf5) |].
    eexists. split; [reflexivity |]. rewrite Hok. exists m, mi.
    split; [reflexivity |]. split; [exact Hm |].
    intros v Hv. apply Hmi. apply Hf4. exact Hv.
  - eapply ensures_mono; [apply RespondWithFailure_only |].
    intros _ p4 e4 (Hf4 & cmd & rest & m & Hargs & -> & Hm).
    exists o, tbl. split; [exact Ht |]. split; [exact Hfresh |].
    split; [exact Hf4 |].
    eexists. split; [reflexivity |]. rewrite Hok. exists cmd, rest, m. auto.
Qed.

Lemma WriteCommand_outcome env call command_name parse p :
  ensures (WriteCommand env call command_name parse) p (fun _ p' evs =>
    write_outcome env call command_name parse p p' evs).
Proof.
  unfold WriteCommand.
  apply ensures_bind. eapply ensures_mono; [apply open_session_ensures |].
  intros s p1 e1 (-> & -> & ->).
  apply ensures_bind. eapply ensures_mono; [apply NewRedisWrite_frame |].
  intros o p2 e2 (tbl & Ht & Hfresh & -> & ->).
  apply ensures_bind. eapply ensures_mono; [apply parse_write_frame |].
  intros st p3 e3 (op & Hop & -> & -> & ->).
  simpl in Hop. rewrite lookup_insert_eq in Hop. injection Hop as <-.
  simpl. rewrite insert_insert_eq.
  destruct (ok (parse [] (cmd_args call)).1) eqn:Hok; simpl.
  - apply ensures_bind. apply ensures_emit.
    destruct (ok (env_apply env)); simpl; [| exact I].
    apply ensures_bind. eapply ensures_mono; [apply produces_ensures, metrics_at_only |].
    intros m p4 e4 (-> & Hf4 & Hm).
    apply ensures_bind. eapply ensures_mono; [apply produces_ensures, metrics_at_only |].
    intros mi p5 e5 (-> & Hf5 & Hmi).
    apply ensures_emit.
    exists o, tbl. split; [exact Ht |]. split; [exact Hfresh |].
    split; [exact (only_metrics_trans _ _ _ Hf4 Hf5) |].
    rewrite Hok. exists m, mi.
    split; [reflexivity |]. split; [exact Hm |].
    intros v Hv. apply Hmi. apply Hf4. exact Hv.
  - eapply ensures_mono; [apply RespondWithFailure_only |].
    intros _ p4 e4 (Hf4 & cmd & rest & m & Hargs & -> & Hm).
    exists o, tbl. split; [exact Ht |]. split; [exact Hfresh |].
    split; [exact Hf4 |].
    rewrite Hok. exists cmd, rest, m. auto.
Qed.


Lemma in_methods_registered s n :
  metrics_registered s -> In n methods -> metrics_ s !! n = Some (metric_of n).
Proof. intros Hreg Hn. apply Hreg. unfold metric_keys. apply in_or_app. auto. Qed.

Lemma internal_registered s :
  metrics_registered s ->
  metrics_ s !! "error" = Some (metric_of "error")
  /\ metrics_ s !! "get_internal" = Some (metric_of "get_internal")
  /\ metrics_ s !! "set_internal" = Some (metric_of "set_internal").
Proof.
  intros Hreg. repeat split; apply Hreg; unfold metric_keys; apply in_or_app; right;
    simpl; tauto.
Qed.

Lemma failure_dispatch_events env error call cmd rest pre :
  cmd_args call = cmd :: rest ->
  forallb silent pre = true ->
  dispatch_events env call (pre ++ [failure_response error call cmd (metric_of "error")]).
Proof.
  intros Hargs Hpre. exists pre, [failure_response error call cmd (metric_of "error")].
  split; [reflexivity |]. split; [exact Hpre |]. left. eauto.
Qed.

Lemma read_outcome_post env call n parse p p' evs :
  In n methods ->
  read_outcome env call n parse p p' evs -> handler_post env call p p' evs.
Proof.
  intros Hn (o & tbl & Ht & Hfresh & Honly & e & -> & He). split.
  - eapply handler_frame_trans; [| apply only_metrics_frame, Honly].
    split; [apply service_up_to_metrics_refl |]. split; [reflexivity |].
    split; [apply ops_kept_insert_fresh, Hfresh | apply ops_kept_refl].
  - intros Hreg. destruct (internal_registered _ Hreg) as (Herr & Hget & _).
    destruct (ok (parse [] (cmd_args call)).1).
    + destruct He as (m & mi & -> & Hm & Hmi).
      rewrite (Hm _ (in_methods_registered _ _ Hreg Hn)), (Hmi _ Hget).
      eexists (session_events true ++ [EvNewRedisRead o]), _.
      split; [now rewrite <- app_assoc |]. split; [reflexivity |].
      right. right. left. exists o, n. auto.
    + destruct He as (cmd & rest & m & Hargs & -> & Hm). rewrite (Hm _ Herr).
      replace (session_events true
               ++ [EvNewRedisRead o;
                   failure_response (message (parse [] (cmd_args call)).1) call cmd
                     (metric_of "error")])
        with ((session_events true ++ [EvNewRedisRead o])
              ++ [failure_response (message (parse [] (cmd_args call)).1) call cmd
                    (metric_of "error")])
        by now rewrite <- app_assoc.
      eapply failure_dispatch_events; [exact Hargs | reflexivity].
Qed.

Lemma write_outcome_post env call n parse p p' evs :
  In n methods ->
  write_outcome env call n parse p p' evs -> handler_post env call p p' evs.
Proof.
  intros Hn (o & tbl & Ht & Hfresh & Honly & He). split.
  - eapply handler_frame_trans; [| apply only_metrics_frame, Honly].
    split; [apply service_up_to_metrics_refl |]. split; [reflexivity |].
    split; [apply ops_kept_refl | apply ops_kept_insert_fresh, Hfresh].
  - intros Hreg. destruct (internal_registered _ Hreg) as (Herr & _ & Hset).
    destruct (ok (parse [] (cmd_args call)).1).
    + destruct He as (m & mi & -> & Hm & Hmi).
      rewrite (Hm _ (in_methods_registered _ _ Hreg Hn)), (Hmi _ Hset).
      eexists (session_events false ++ [EvNewRedisWrite o]), _.
      split; [now rewrite <- app_assoc |]. split; [reflexivity |].
      right. right. right. exists o, n. auto.
    + destruct He as (cmd & rest & m & Hargs & -> & Hm). rewrite (Hm _ Herr).
      replace (session_events false
               ++ [EvNewRedisWrite o;
                   failure_response (message (parse [] (cmd_args call)).1) call cmd
                     (metric_of "error")])
        with ((session_events false ++ [EvNewRedisWrite o])
              ++ [failure_response (message (parse [] (cmd_args call)).1) call cmd
                    (metric_of "error")])
        by now rewrite <- app_assoc.
      eapply failure_dispatch_events; [exact Hargs | reflexivity].
Qed.

Lemma EchoCommand_outcome env call p :
  ensures (EchoCommand env call) p (fun _ p' evs =>
    only_metrics p p'
    /\ exists a m,
        cmd_args call !! 1%nat = Some a
        /\ evs = [EvRespondSuccess call (set_string_response a new_RedisResponsePB) m]
        /\ (forall v, metrics_ (service p) !! "echo" = Some v -> m = v)).
Proof.
  unfold EchoCommand. destruct (cmd_args call !! 1%nat) as [a|]; [| exact I].
  apply ensures_bind. eapply ensures_mono; [apply produces_ensures, metrics_at_only |].
  intros m p1 e1 (-> & Hs & Hm). apply ensures_emit.
  split; [exact Hs |]. exists a, m. auto.
Qed.

Lemma invoke_post f env call p :
  ensures (invoke f env call) p (fun _ p' evs => handler_post env call p p' evs).
Proof.
  assert (Hr : forall n parse,
             In n methods ->
             ensures (ReadCommand env call n parse) p
               (fun _ p' evs => handler_post env call p p' evs)).
  { intros n parse Hn. eapply ensures_mono; [apply ReadCommand_outcome |].
    intros u p' evs. apply read_outcome_post, Hn. }
  assert (Hw : forall n parse,
             In n methods ->
             ensures (WriteCommand env call n parse) p
               (fun _ p' evs => handler_post env call p p' evs)).
  { intros n parse Hn. eapply ensures_mono; [apply WriteCommand_outcome |].
    intros u p' evs. apply write_outcome_post, Hn. }
  destruct f; simpl;
    try (apply Hr; unfold methods; simpl; tauto);
    try (apply Hw; unfold methods; simpl; tauto).
  eapply ensures_mono; [apply EchoCommand_outcome |].
  intros _ p' evs (Honly & a & m & Ha & -> & Hm). split.
  - apply only_metrics_frame, Honly.
  - intros Hreg.
    rewrite (Hm _ (in_methods_registered _ "echo" Hreg ltac:(unfold methods; simpl; tauto))).
    eexists [], _. split; [reflexivity |]. split; [reflexivity |].
    right. left. exists a. auto.
Qed.

Lemma logged_failure_post env tail error call p :
  ensures (bind (log_requested_command call tail)
                (fun _ => RespondWithFailure error call)) p (fun _ p' evs =>
    handler_post env call p p' evs).
Proof.
  apply ensures_bind. eapply ensures_mono; [apply log_requested_command_ensures |].
  intros _ p1 e1 (-> & msg & ->).
  eapply ensures_mono; [apply RespondWithFailure_only |].
  intros _ p2 e2 (Honly & cmd & rest & m & Hargs & -> & Hm). split.
  - apply only_metrics_frame, Honly.
  - intros Hreg. destruct (internal_registered _ Hreg) as (Herr & _).
    rewrite (Hm _ Herr).
    apply (failure_dispatch_events env error call cmd rest [EvLogError msg] Hargs).
    reflexivity.
Qed.

Lemma handle_current_command_post env info call p :
  ensures (handle_current_command env info call) p (fun _ p' evs =>
    handler_post env call p p' evs).
Proof.
  destruct info as [info|]; simpl.
  - apply ensures_bind.
    apply (ensures_mono _ _ (fun _ p' evs => p' = p /\ evs = [])).
    { unfold ensures, bind, lift, int_mul, ret.
      destruct (arity info <? 0); [| simpl; auto].
      destruct (in_int (-1 * arity info)); simpl; auto. }
    intros too_few p1 e1 (-> & ->). simpl.
    destruct too_few; [apply logged_failure_post |].
    destruct ((0 <? arity info) && _); [apply logged_failure_post |].
    apply invoke_post.
  - eapply ensures_mono; [apply RespondWithFailure_only |].
    intros _ p2 e2 (Honly & cmd & rest & m & Hargs & -> & Hm). split.
    + apply only_metrics_frame, Honly.
    + intros Hreg. destruct (internal_registered _ Hreg) as (Herr & _).
      rewrite (Hm _ Herr).
      apply (failure_dispatch_events env _ call cmd rest [] Hargs). reflexivity.
Qed.

(** What the set-up stage may change. *)
Lemma ensure_client_frame env p status p1 pre :
  ensure_client env p = Returns (status, p1, pre) ->
  dispatch_frame p p1
  /\ metrics_ (service p1) = metrics_ (service p)
  /\ forallb silent pre = true
  /\ read_ops p1 = read_ops p /\ write_ops p1 = write_ops p.
Proof.
  intros Hens.
  assert (Hframe : forall q : Process,
             q = p -> dispatch_frame p q /\ metrics_ (service q) = metrics_ (service p)
                      /\ read_ops q = read_ops p /\ write_ops q = write_ops p).
  { intros q ->. repeat split; auto using metrics_kept_refl, ops_kept_refl. }
  destruct (yb_client_initialized_ (service p)) eqn:Hi.
  - rewrite (ensure_client_initialized _ _ Hi) in Hens. injection Hens as <- <- <-.
    destruct (Hframe p eq_refl) as (Hf & Hm & Hr & Hw). auto.
  - rewrite (ensure_client_uninitialized _ _ Hi) in Hens.
    assert (Hpre : forallb silent (setup_events env (yb_tier_master_addresses_ (service p)))
                   = true).
    { unfold setup_events. destruct (ok (env_build env)); reflexivity. }
    destruct (ok (env_build env)) eqn:Hb; [destruct (ok (env_open_table env)) eqn:Ho |].
    + rewrite (SetUpYBClient_succeeds _ _ _ Hi Hb Ho) in Hens. injection Hens as <- <- <-.
      split; [| split; [reflexivity | split; [| split; reflexivity]]].
      * split; [reflexivity |]. split; [reflexivity |].
        split; [intros k v Hk; exact Hk |]. split; [reflexivity |].
        split; [apply ops_kept_refl |]. split; [apply ops_kept_refl |].
        intros Hi'. congruence.
      * unfold setup_events in Hpre. rewrite Hb in Hpre. exact Hpre.
    + rewrite (SetUpYBClient_open_fails _ _ _ Hi Hb Ho) in Hens. injection Hens as <- <- <-.
      split; [| split; [reflexivity | split; [| split; reflexivity]]].
      * split; [reflexivity |]. split; [reflexivity |].
        split; [intros k v Hk; exact Hk |]. split; [reflexivity |].
        split; [apply ops_kept_refl |]. split; [apply ops_kept_refl |].
        intros Hi'. congruence.
      * unfold setup_events in Hpre. rewrite Hb in Hpre. exact Hpre.
    + rewrite (SetUpYBClient_build_fails _ _ _ Hi Hb) in Hens. injection Hens as <- <- <-.
      split; [| split; [reflexivity | split; [| split; reflexivity]]].
      * split; [reflexivity |]. split; [reflexivity |].
        split; [intros k v Hk; exact Hk |]. split; [reflexivity |].
        split; [apply ops_kept_refl |]. split; [apply ops_kept_refl |].
        intros Hi'. congruence.
      * unfold setup_events in Hpre. rewrite Hb in Hpre. exact Hpre.
Qed.

Lemma dispatch_frame_handler p p1 p' :
  dispatch_frame p p1 -> handler_frame p1 p' -> dispatch_frame p p'.
Proof.
  intros (Ha & Hm & Hk & Hr & Hro & Hwo & Hflag) ([Hs Hk'] & Hr' & Hro' & Hwo').
  assert (Ea : yb_tier_master_addresses_ (service p')
               = yb_tier_master_addresses_ (service p1)) by (rewrite Hs; reflexivity).
  assert (Em : command_name_to_info_map_ (service p')
               = command_name_to_info_map_ (service p1)) by (rewrite Hs; reflexivity).
  assert (Ei : yb_client_initialized_ (service p')
               = yb_client_initialized_ (service p1)) by (rewrite Hs; reflexivity).
  assert (Ec : client_ (service p') = client_ (service p1)) by (rewrite Hs; reflexivity).
  assert (Et : table_ (service p') = table_ (service p1)) by (rewrite Hs; reflexivity).
  split; [congruence |]. split; [congruence |].
  split; [eapply metrics_kept_trans; eauto |].
  split; [congruence |].
  split; [eapply ops_kept_trans; eauto |].
  split; [eapply ops_kept_trans; eauto |].
  intros Hi. destruct (Hflag Hi) as (Hi1 & Hc1 & Ht1).
  split; [congruence |]. split; congruence.
Qed.

Lemma dispatch_events_prefixed env call pre evs :
  forallb silent pre = true ->
  dispatch_events env call evs -> dispatch_events env call (pre ++ evs).
Proof.
  intros Hpre (pre' & tail & -> & Hpre' & Htail).
  exists (pre ++ pre'), tail. split; [now rewrite app_assoc |].
  split; [| exact Htail]. rewrite forallb_app, Hpre, Hpre'. reflexivity.
Qed.

Lemma ValidateAndHandle_post env info call p :
  ensures (ValidateAndHandle env info call) p (fun _ p' evs =>
    dispatch_frame p p'
    /\ (metrics_registered (service p) -> dispatch_events env call evs)).
Proof.
  destruct (ValidateAndHandle_stages env info call p)
    as (st & p1 & pre & Hens & Hvh & _).
  destruct (ensure_client_frame _ _ _ _ _ Hens) as (Hframe & Hm & Hpre & _).
  unfold ensures. rewrite Hvh. apply ensures_prefixed.
  assert (Hpost : forall (u : unit) p' evs,
             handler_post env call p1 p' evs ->
             dispatch_frame p p'
             /\ (metrics_registered (service p) -> dispatch_events env call (pre ++ evs))).
  { intros _ p' evs (Hf & Hev). split; [eapply dispatch_frame_handler; eauto |].
    intros Hreg. apply dispatch_events_prefixed; [exact Hpre |].
    apply Hev. intros k Hk. rewrite Hm. apply Hreg, Hk. }
  destruct (ok st).
  - eapply ensures_mono; [apply handle_current_command_post | exact Hpost].
  - eapply ensures_mono; [apply RespondWithFailure_only |].
    intros u p' evs (Honly & cmd & rest & m & Hargs & -> & Herr). apply (Hpost u).
    split; [apply only_metrics_frame, Honly |].
    intros Hreg. destruct (internal_registered _ Hreg) as (He & _).
    rewrite (Herr _ He).
    apply (failure_dispatch_events env _ call cmd rest [] Hargs). reflexivity.
Qed.

Lemma Handle_post env call p :
  ensures (Handle env call) p (fun _ p' evs =>
    dispatch_frame p p'
    /\ (metrics_registered (service p) -> dispatch_events env call evs)).
Proof.
  unfold Handle.
  apply ensures_bind. eapply ensures_mono; [apply FetchHandler_ensures |].
  intros info p1 e1 (-> & He1).
  eapply ensures_mono; [apply ValidateAndHandle_post |].
  intros _ p' evs (Hframe & Hev). split; [exact Hframe |].
  intros Hreg. apply dispatch_events_prefixed; [| exact (Hev Hreg)].
  destruct He1 as [-> | [msg ->]]; reflexivity.
Qed.


(** X3.  A dispatch that returns, on a service whose metrics are registered,
    has done nothing the caller or the backend sees before its last step,
    and that step is one of four: a failure response under the "error"
    metric, the echo under the "echo" metric, a [ReadAsync] on a read-only
    manual-flush session, or an [Apply] followed by a [FlushAsync] on a
    read-write manual-flush session for the same operation; the completion
    object holds the call, the session, the operation, the metric of one of
    the thirteen commands and the matching internal metric. *)
Theorem dispatch_ends_one_way env call p p' evs :
  metrics_registered (service p) ->
  Handle env call p = Returns (tt, p', evs) ->
  dispatch_events env call evs.
Proof.
  intros Hreg Hrun.
  exact (proj2 (ensures_returned _ _ _ _ _ _ (Handle_post env call p) Hrun) Hreg).
Qed.

(** X4.  A dispatch that returns leaves the registry and the master
    addresses as they were, removes or overwrites no metric, leaves the
    response objects alone, keeps every operation already in the stores at
    its address with its contents, and, once the flag is set, keeps the flag,
    the client and the table. *)
Theorem dispatch_keeps_the_rest env call p p' evs :
  Handle env call p = Returns (tt, p', evs) ->
  dispatch_frame p p'.
Proof.
  intros Hrun.
  exact (proj1 (ensures_returned _ _ _ _ _ _ (Handle_post env call p) Hrun)).
Qed.




(** *** A dispatch returns *)

Lemma ReadCommand_returns env call command_name parse p c tbl cmd rest :
  client_ (service p) = Some c ->
  table_ (service p) = Some tbl ->
  ok (env_set_flush_mode env) = true ->
  cmd_args call = cmd :: rest ->
  produces (ReadCommand env call command_name parse) p (fun _ _ _ => True).
Proof.
  intros Hc Ht Hf Hargs. unfold ReadCommand.
  apply produces_bind. eexists _, _, _.
  split; [apply (open_session_eq _ _ _ _ Hc Hf) |].
  apply produces_bind. eexists _, _, _.
  split; [apply (NewRedisRead_eq _ _ Ht) |].
  apply produces_bind. eexists _, _, _.
  split; [apply parse_read_eq; simpl; apply lookup_insert_eq |].
  simpl. destruct (ok (parse [] (cmd_args call)).1); simpl.
  - apply produces_bind. eapply produces_mono; [apply metrics_at_spec |].
    intros m p4 e4 _.
    apply produces_bind. eapply produces_mono; [apply metrics_at_spec |].
    intros mi p5 e5 _. eexists tt, _, _. split; [reflexivity | exact I].
  - eapply produces_mono; [apply (RespondWithFailure_spec _ _ _ _ _ Hargs) |]. auto.
Qed.

Lemma WriteCommand_returns env call command_name parse p c tbl cmd rest :
  client_ (service p) = Some c ->
  table_ (service p) = Some tbl ->
  ok (env_set_flush_mode env) = true ->
  ok (env_apply env) = true ->
  cmd_args call = cmd :: rest ->
  produces (WriteCommand env call command_name parse) p (fun _ _ _ => True).
Proof.
  intros Hc Ht Hf Ha Hargs. unfold WriteCommand.
  apply produces_bind. eexists _, _, _.
  split; [apply (open_session_eq _ _ _ _ Hc Hf) |].
  apply produces_bind. eexists _, _, _.
  split; [apply (NewRedisWrite_eq _ _ Ht) |].
  apply produces_bind. eexists _, _, _.
  split; [apply parse_write_eq; simpl; apply lookup_insert_eq |].
  simpl. destruct (ok (parse [] (cmd_args call)).1); simpl.
  - apply produces_bind. eexists tt, _, _. split; [reflexivity |].
    rewrite Ha. simpl.
    apply produces_bind. eapply produces_mono; [apply metrics_at_spec |].
    intros m p4 e4 _.
    apply produces_bind. eapply produces_mono; [apply metrics_at_spec |].
    intros mi p5 e5 _. eexists tt, _, _. split; [reflexivity | exact I].
  - eapply produces_mono; [apply (RespondWithFailure_spec _ _ _ _ _ Hargs) |]. auto.
Qed.

Lemma EchoCommand_returns env call p :
  (2 <= length (cmd_args call))%nat ->
  produces (EchoCommand env call) p (fun _ _ _ => True).
Proof.
  intros Hlen. unfold EchoCommand.
  destruct (cmd_args call !! 1%nat) as [a|] eqn:Ha.
  - apply produces_bind. eapply produces_mono; [apply metrics_at_spec |].
    intros m p1 e1 _. eexists tt, _, _. split; [reflexivity | exact I].
  - apply lookup_ge_None in Ha. unfold Slice in *. lia.
Qed.

Lemma invoke_returns f env call p c tbl cmd rest :
  client_ (service p) = Some c ->
  table_ (service p) = Some tbl ->
  ok (env_set_flush_mode env) = true ->
  ok (env_apply env) = true ->
  cmd_args call = cmd :: rest ->
  (f = fn_EchoCommand -> (2 <= length (cmd_args call))%nat) ->
  produces (invoke f env call) p (fun _ _ _ => True).
Proof.
  intros Hc Ht Hf Ha Hargs Hecho.
  destruct f; simpl;
    try (eapply ReadCommand_returns; eassumption);
    try (eapply WriteCommand_returns; eassumption).
  apply EchoCommand_returns, Hecho. reflexivity.
Qed.

Lemma logged_failure_returns tail error call cmd rest p :
  cmd_args call = cmd :: rest ->
  produces (bind (log_requested_command call tail)
                 (fun _ => RespondWithFailure error call)) p (fun _ _ _ => True).
Proof.
  intros Hargs.
  eapply produces_mono; [apply (logged_failure_produces _ _ _ _ _ _ Hargs) | auto].
Qed.

Lemma handle_current_command_returns env info call p c tbl cmd rest :
  client_ (service p) = Some c ->
  table_ (service p) = Some tbl ->
  ok (env_set_flush_mode env) = true ->
  ok (env_apply env) = true ->
  cmd_args call = cmd :: rest ->
  (forall i, info = Some i -> valid_arity (arity i) /\ echo_safe i) ->
  produces (handle_current_command env info call) p (fun _ _ _ => True).
Proof.
  intros Hc Ht Hf Ha Hargs Hinfo. destruct info as [i|].
  - destruct (Hinfo i eq_refl) as [Hv Hecho].
    unfold produces. rewrite (handle_current_command_arity _ _ _ _ Hv).
    destruct ((arity i <? 0) && _) eqn:Hfew;
      [apply (logged_failure_returns _ _ _ _ _ _ Hargs) |].
    destruct ((0 <? arity i) && _) eqn:Hwrong;
      [apply (logged_failure_returns _ _ _ _ _ _ Hargs) |].
    eapply invoke_returns; try eassumption.
    intros Hfn. destruct (Hecho Hfn) as [Hge | Hle].
    + replace (0 <? arity i) with true in Hwrong by (symmetry; apply Z.ltb_lt; lia).
      simpl in Hwrong. apply negb_false_iff, Z.eqb_eq in Hwrong. lia.
    + replace (arity i <? 0) with true in Hfew by (symmetry; apply Z.ltb_lt; lia).
      simpl in Hfew. apply Z.ltb_ge in Hfew. lia.
  - simpl. eapply produces_mono; [apply (RespondWithFailure_spec _ _ _ _ _ Hargs) |]. auto.
Qed.

(** X6.  On a service that satisfies its invariant and whose registry binds
    [EchoCommand] only with an arity of two or more, with a session that
    accepts manual flush and an [Apply] that succeeds, the dispatch of a call
    with at least the command name returns: no null client or table is
    dereferenced, no argument is read out of range and no [CHECK] fails. *)
Theorem dispatch_returns env call p :
  service_invariant (service p) ->
  registry_well_formed (service p) ->
  cmd_args call <> [] ->
  ok (env_set_flush_mode env) = true ->
  ok (env_apply env) = true ->
  exists p' evs, Handle env call p = Returns (tt, p', evs).
Proof.
  intros [Hreg Hready] Hwf Hargs Hf Ha.
  destruct (cmd_args call) as [|cmd rest] eqn:Hcall; [congruence |].
  assert (Hfetch : produces (FetchHandler (cmd_args call)) p (fun info p1 _ =>
            p1 = p /\ forall i, info = Some i -> valid_arity (arity i) /\ echo_safe i)).
  { rewrite Hcall.
    destruct (command_name_to_info_map_ (service p) !! ToLowerCase cmd) as [i|] eqn:Hi.
    - exists (Some i), p, []. split.
      + unfold FetchHandler, bind, get; simpl. rewrite Hi. reflexivity.
      + split; [reflexivity |]. intros i' [= <-]. exact (Hwf _ _ Hi).
    - eexists None, p, _. split.
      + unfold FetchHandler, bind, get; simpl. rewrite Hi. reflexivity.
      + split; [reflexivity |]. discriminate. }
  assert (Hall : produces (Handle env call) p (fun _ _ _ => True)).
  { unfold Handle. apply produces_bind.
    eapply produces_mono; [exact Hfetch |].
    intros info p1 e1 (-> & Hinfo).
    destruct (ValidateAndHandle_stages env info call p)
      as (st & q & pre & _ & Hvh & _ & Hready' & Hcases).
    eapply produces_prefixed; [exact Hvh |].
    destruct (ok st) eqn:Hst.
    - assert (Hq : yb_client_initialized_ (service q) = true).
      { destruct (yb_client_initialized_ (service p)) eqn:Hi.
        - destruct Hcases as (_ & -> & _). exact Hi.
        - destruct Hcases as (_ & _ & Hq). congruence. }
      destruct (Hready' Hready Hq) as [[c Hc] [tbl Ht]].
      eapply produces_mono;
        [eapply (handle_current_command_returns env info call q c tbl cmd rest); eauto |].
      auto.
    - eapply produces_mono; [apply (RespondWithFailure_spec _ _ _ _ _ Hcall) |]. auto. }
  destruct Hall as ([] & p' & evs & Hrun & _). eauto.
Qed.

(** X7.  A session that refuses manual flush takes either pipeline down at
    [CHECK_OK(SetFlushMode)], before any parsing, and an [Apply] that fails
    takes the write pipeline down at [CHECK_OK(Apply)]: in neither case does
    the pipeline return, so no failure response comes from it. *)
Theorem check_ok_failures_abort env call command_name p c :
  client_ (service p) = Some c ->
  (ok (env_set_flush_mode env) = false ->
   (forall parse : ReadParser,
       ReadCommand env call command_name parse p = CheckFailure "CHECK_OK(SetFlushMode)")
   /\ (forall parse : WriteParser,
         WriteCommand env call command_name parse p = CheckFailure "CHECK_OK(SetFlushMode)"))
  /\ (forall (parse : WriteParser) tbl,
        table_ (service p) = Some tbl ->
        ok (env_set_flush_mode env) = true ->
        ok (parse [] (cmd_args call)).1 = true ->
        ok (env_apply env) = false ->
        WriteCommand env call command_name parse p = CheckFailure "CHECK_OK(Apply)").
Proof.
  intros Hc. split.
  - intros Hf.
    assert (Hopen : forall ro, open_session env ro p = CheckFailure "CHECK_OK(SetFlushMode)").
    { intros ro. unfold open_session, bind, get, emit, ConfigureSession, ret, check_failure.
      simpl. rewrite Hc. simpl. rewrite Hf. reflexivity. }
    split; intros parse.
    + unfold ReadCommand. unfold bind at 1. rewrite Hopen. reflexivity.
    + unfold WriteCommand. unfold bind at 1. rewrite Hopen. reflexivity.
  - intros parse tbl Ht Hf Hok Ha. unfold WriteCommand.
    rewrite (bind_eq _ _ _ _ _ _ (open_session_eq _ _ _ _ Hc Hf)).
    rewrite (bind_eq _ _ _ _ _ _ (NewRedisWrite_eq _ _ Ht)).
    erewrite bind_eq; [| apply parse_write_eq; simpl; apply lookup_insert_eq].
    simpl. rewrite Hok. simpl.
    unfold bind at 1. unfold emit at 1. rewrite Ha. reflexivity.
Qed.


(** X8.  [SetUpYBClient] returns on every path, the failing ones included,
    with the mutex taken first and released last and nothing else touching
    it; the status it returns is OK exactly when the flag is set on return;
    whenever the flag is set on return the client and the table are there;
    and it changes nothing but the client, the table and the flag. *)
Theorem SetUpYBClient_always_returns env addr p :
  exists status p' mid,
    SetUpYBClient env addr p = Returns (status, p', [EvMutexLock] ++ mid ++ [EvMutexUnlock])
    /\ forallb (fun e => negb (is_lock e) && negb (is_unlock e)) mid = true
    /\ (ok status = true <-> yb_client_initialized_ (service p') = true)
    /\ (client_ready (service p) -> client_ready (service p'))
    /\ metrics_ (service p') = metrics_ (service p)
    /\ command_name_to_info_map_ (service p') = command_name_to_info_map_ (service p)
    /\ responses p' = responses p
    /\ read_ops p' = read_ops p /\ write_ops p' = write_ops p.
Proof.
  destruct (yb_client_initialized_ (service p)) eqn:Hi.
  - exists OK, p, []. rewrite (SetUpYBClient_initialized _ _ _ Hi).
    split; [reflexivity |]. split; [reflexivity |].
    split; [rewrite Hi; tauto |]. split; [tauto |]. repeat split.
  - destruct (ok (env_build env)) eqn:Hb; [destruct (ok (env_open_table env)) eqn:Ho |].
    + exists OK. eexists. exists [EvClientBuild (redis_ybclient addr); EvOpenTable kRedisTableName].
      rewrite (SetUpYBClient_succeeds _ _ _ Hi Hb Ho).
      split; [reflexivity |]. split; [reflexivity |].
      split; [simpl; tauto |].
      split; [intros _ _; simpl; split; eexists; reflexivity |].
      repeat split.
    + exists (env_open_table env). eexists.
      exists [EvClientBuild (redis_ybclient addr); EvOpenTable kRedisTableName].
      rewrite (SetUpYBClient_open_fails _ _ _ Hi Hb Ho).
      split; [reflexivity |]. split; [reflexivity |].
      split; [simpl; rewrite Hi, Ho; split; discriminate |].
      split; [intros _; unfold client_ready; simpl; rewrite Hi; discriminate |].
      repeat split.
    + exists (env_build env). eexists. exists [EvClientBuild (redis_ybclient addr)].
      rewrite (SetUpYBClient_build_fails _ _ _ Hi Hb).
      split; [reflexivity |]. split; [reflexivity |].
      split; [rewrite Hi, Hb; split; discriminate |].
      split; [intros Hr; exact Hr |].
      repeat split.
Qed.

(** X9.  ECHO through the whole dispatcher.  On a service whose flag is set,
    a call whose first argument is, in any casing, a name the registry binds
    to [EchoCommand], and whose number of arguments meets the entry's arity,
    is answered with one success response whose string is the second
    argument, byte for byte; nothing else happens: no session, no operation,
    no log line, and the process is left as it was. *)
Theorem echo_answers_with_its_argument env call cmd a rest i p :
  cmd_args call = cmd :: a :: rest ->
  command_name_to_info_map_ (service p) !! ToLowerCase cmd = Some i ->
  function_ptr i = fn_EchoCommand ->
  valid_arity (arity i) ->
  arity_satisfied (arity i) (Z.of_nat (length (cmd_args call))) = true ->
  yb_client_initialized_ (service p) = true ->
  metrics_ (service p) !! "echo" = Some (metric_of "echo") ->
  Handle env call p
  = Returns (tt, p,
             [EvRespondSuccess call (set_string_response a new_RedisResponsePB)
                (metric_of "echo")]).
Proof.
  intros Hargs Hi Hfn Hv Hsat Hflag Hm.
  rewrite (Handle_recognized _ _ _ _ _ _ Hargs Hi).
  rewrite (ValidateAndHandle_initialized _ _ _ _ Hflag).
  rewrite (handle_current_command_arity _ _ _ _ Hv).
  rewrite arity_satisfied_tests in Hsat.
  apply andb_true_iff in Hsat as [H1 H2].
  apply negb_true_iff in H1. apply negb_true_iff in H2. rewrite H1, H2.
  rewrite Hfn. simpl. unfold EchoCommand. rewrite Hargs. simpl.
  unfold bind, metrics_at, emit. rewrite Hm. reflexivity.
Qed.

Lemma warnings_are_pending_error_events errors :
  forallb is_pending_error_event (map pending_error_warning errors) = true.
Proof. induction errors as [|e errs IH]; [reflexivity | exact IH]. Qed.

(** X10.  The events of a completion.  Whatever status a completion object
    is run with, a [Run] that returns has first recorded the time since the
    object was made in the internal metric and has last sent one response,
    for the call and under the metric the object was made with: the success
    response when the status is OK and the failure with that status
    otherwise; in between the read completion does nothing, and the write
    completion does nothing on OK and only queries and logs pending errors
    otherwise. *)
Theorem completion_run_shape :
  (forall cb now status p,
      ensures (ReadCommandCb_Run cb now status) p (fun _ _ evs =>
        exists h e,
          handler_latency (rcb_metrics_internal_ cb) = Some h
          /\ evs = [EvIncrement h (now - rcb_start_ cb); e]
          /\ if ok status
             then exists r, e = EvRespondSuccess (rcb_redis_call_ cb) r (rcb_metrics_ cb)
             else e = EvRespondFailure (rcb_redis_call_ cb) status (rcb_metrics_ cb)))
  /\ (forall cb now pending status p,
        ensures (WriteCommandCb_Run cb now pending status) p (fun _ _ evs =>
          exists h mid e,
            handler_latency (wcb_metrics_internal_ cb) = Some h
            /\ evs = [EvIncrement h (now - wcb_start_ cb)] ++ mid ++ [e]
            /\ forallb is_pending_error_event mid = true
            /\ if ok status
               then mid = []
                    /\ exists r,
                        e = EvRespondSuccess (wcb_redis_call_ cb) r (wcb_metrics_ cb)
               else e = EvRespondFailure (wcb_redis_call_ cb) status (wcb_metrics_ cb))).
Proof.
  split.
  - intros cb now status p. unfold ensures, ReadCommandCb_Run.
    destruct (handler_latency (rcb_metrics_internal_ cb)) as [h|]; [| exact I].
    unfold bind, emit, get, lift; simpl.
    destruct (ok status); simpl.
    + destruct (read_ops p !! read_op_ cb) as [op|]; [| exact I].
      destruct (YBRedisReadOp.response (responses p) op); simpl; try exact I.
      eexists _, _. split; [reflexivity |]. split; [reflexivity |]. eauto.
    + eexists _, _. split; [reflexivity |]. split; reflexivity.
  - intros cb now pending status p. unfold ensures, WriteCommandCb_Run.
    destruct (handler_latency (wcb_metrics_internal_ cb)) as [h|] eqn:Hh; [| exact I].
    destruct (ok status) eqn:Hok.
    + unfold bind, emit, get, lift; simpl.
      destruct (write_ops p !! write_op_ cb) as [op|]; [| exact I].
      destruct (YBRedisWriteOp.response (responses p) op); simpl; try exact I.
      exists h, [], (EvRespondSuccess (wcb_redis_call_ cb) a (wcb_metrics_ cb)).
      split; [reflexivity |]. split; [reflexivity |]. split; [reflexivity |]. eauto.
    + pose proof (WriteCommandCb_Run_fails cb now pending status p h Hh Hok) as Hrun.
      unfold WriteCommandCb_Run in Hrun. rewrite Hh, Hok in Hrun. rewrite Hrun.
      eexists h, _, _. split; [reflexivity |].
      split; [reflexivity |]. split; [| reflexivity].
      destruct (wcb_session_ cb); [| reflexivity]. simpl.
      apply warnings_are_pending_error_events.
Qed.

End DispatchAsAWhole.

(** ** The keys of [metrics_] *)
Section MetricKeys.

Context `{Externals}.

Lemma metrics_within_refl s : metrics_within s s.
Proof. intros k Hk. left. exact Hk. Qed.

Lemma metrics_within_trans s1 s2 s3 :
  metrics_within s1 s2 -> metrics_within s2 s3 -> metrics_within s1 s3.
Proof.
  intros H12 H23 k Hk. destruct (H23 k Hk) as [Hk2 | Hin]; [| right; exact Hin].
  apply (H12 k Hk2).
Qed.

Lemma adds_ret {A} (a : A) : adds_registered_keys_only (ret a).
Proof. intros p. apply metrics_within_refl. Qed.

Lemma adds_emit e : adds_registered_keys_only (emit e).
Proof. intros p. apply metrics_within_refl. Qed.

Lemma adds_get : adds_registered_keys_only get.
Proof. intros p. apply metrics_within_refl. Qed.

Lemma adds_lift {A} (o : Outcome A) : adds_registered_keys_only (lift o).
Proof. intros p. unfold ensures, lift. destruct o; simpl; auto using metrics_within_refl. Qed.

Lemma adds_check_failure {A} what : adds_registered_keys_only (@check_failure A what).
Proof. intros p. exact I. Qed.

Lemma adds_undefined {A} what : adds_registered_keys_only (@undefined A what).
Proof. intros p. exact I. Qed.

Lemma adds_modify f :
  (forall p, metrics_ (service (f p)) = metrics_ (service p)) ->
  adds_registered_keys_only (modify f).
Proof.
  intros Hf p k Hk. left. simpl in Hk. rewrite Hf in Hk. exact Hk.
Qed.

Lemma adds_bind {A B} (x : M A) (f : A -> M B) :
  adds_registered_keys_only x -> (forall a, adds_registered_keys_only (f a)) ->
  adds_registered_keys_only (bind x f).
Proof.
  intros Hx Hf p. specialize (Hx p). unfold ensures, bind in *.
  destruct (x p) as [[[a p1] e1]| | |]; try exact I.
  specialize (Hf a p1). unfold ensures in Hf.
  destruct (f a p1) as [[[b p2] e2]| | |]; simpl; try exact I.
  eapply metrics_within_trans; eassumption.
Qed.

Lemma adds_metrics_at k : In k metric_keys -> adds_registered_keys_only (metrics_at k).
Proof.
  intros Hin p. unfold ensures, metrics_at.
  destruct (metrics_ (service p) !! k) eqn:Hk; [apply metrics_within_refl |].
  intros k' Hk'. simpl in Hk'. destruct p as [s r ro wo]. destruct s. simpl in *.
  destruct (decide (k = k')) as [<- | Hne]; [right; exact Hin |].
  rewrite lookup_insert_ne in Hk' by exact Hne. left. exact Hk'.
Qed.

Ltac adds_step :=
  first
    [ apply adds_ret | apply adds_emit | apply adds_get | apply adds_lift
    | apply adds_check_failure | apply adds_undefined
    | apply adds_modify; intros [[] ? ? ?]; reflexivity
    | apply adds_metrics_at; unfold metric_keys, methods; simpl; tauto
    | apply adds_bind; [| intros ?]
    | match goal with
      | |- adds_registered_keys_only (match ?x with _ => _ end) => destruct x
      end ].

Lemma adds_RespondWithFailure error call :
  adds_registered_keys_only (RespondWithFailure error call).
Proof. unfold RespondWithFailure. repeat adds_step. Qed.

Lemma adds_SetUpYBClient env addr : adds_registered_keys_only (SetUpYBClient env addr).
Proof. unfold SetUpYBClient. repeat adds_step. Qed.

Lemma adds_open_session env read_only : adds_registered_keys_only (open_session env read_only).
Proof. unfold open_session, ConfigureSession. repeat adds_step. Qed.

Lemma adds_ReadCommand env call command_name parse :
  In command_name methods ->
  adds_registered_keys_only (ReadCommand env call command_name parse).
Proof.
  intros Hn. unfold ReadCommand.
  apply adds_bind; [apply adds_open_session | intros s].
  apply adds_bind; [unfold NewRedisRead; repeat adds_step | intros o].
  apply adds_bind; [unfold parse_read; repeat adds_step | intros st].
  destruct (negb (ok st)); [apply adds_RespondWithFailure |].
  apply adds_bind; [| intros m; repeat adds_step].
  apply adds_metrics_at. unfold metric_keys. apply in_or_app. left. exact Hn.
Qed.

Lemma adds_WriteCommand env call command_name parse :
  In command_name methods ->
  adds_registered_keys_only (WriteCommand env call command_name parse).
Proof.
  intros Hn. unfold WriteCommand.
  apply adds_bind; [apply adds_open_session | intros s].
  apply adds_bind; [unfold NewRedisWrite; repeat adds_step | intros o].
  apply adds_bind; [unfold parse_write; repeat adds_step | intros st].
  destruct (negb (ok st)); [apply adds_RespondWithFailure |].
  apply adds_bind; [apply adds_emit | intros _].
  destruct (negb (ok (env_apply env))); [apply adds_check_failure |].
  apply adds_bind; [| intros m; repeat adds_step].
  apply adds_metrics_at. unfold metric_keys. apply in_or_app. left. exact Hn.
Qed.

Lemma adds_invoke f env call : adds_registered_keys_only (invoke f env call).
Proof.
  destruct f; simpl;
    first [ apply adds_ReadCommand; unfold methods; simpl; tauto
          | apply adds_WriteCommand; unfold methods; simpl; tauto
          | unfold EchoCommand; repeat adds_step ].
Qed.

Lemma adds_log_requested_command call tail :
  adds_registered_keys_only (log_requested_command call tail).
Proof. unfold log_requested_command. repeat adds_step. Qed.

Lemma adds_handle_current_command env info call :
  adds_registered_keys_only (handle_current_command env info call).
Proof.
  destruct info as [info|]; simpl; [| apply adds_RespondWithFailure].
  apply adds_bind; [repeat adds_step | intros too_few].
  destruct too_few.
  - apply adds_bind; [apply adds_log_requested_command | intros _].
    apply adds_RespondWithFailure.
  - destruct ((0 <? arity info) && _); [| apply adds_invoke].
    apply adds_bind; [apply adds_log_requested_command | intros _].
    apply adds_RespondWithFailure.
Qed.

Lemma adds_Handle env call : adds_registered_keys_only (Handle env call).
Proof.
  unfold Handle.
  apply adds_bind; [unfold FetchHandler; repeat adds_step | intros info].
  unfold ValidateAndHandle.
  apply adds_bind; [apply adds_get | intros p].
  destruct (negb (yb_client_initialized_ (service p)));
    [| apply adds_handle_current_command].
  apply adds_bind; [apply adds_SetUpYBClient | intros st].
  destruct (negb (ok st));
    [apply adds_RespondWithFailure | apply adds_handle_current_command].
Qed.

(** X20.  [metrics_[k]] default-constructs a missing entry, but a dispatch
    looks up registered keys only: whatever key [metrics_] has after a
    [Handle] that returned it had before or is one of the sixteen
    [PopulateHandlers] registers, and on a service whose metrics are
    registered [metrics_] is left exactly as it was. *)
Theorem dispatch_adds_no_metric env call p p' evs :
  Handle env call p = Returns (tt, p', evs) ->
  metrics_within (service p) (service p')
  /\ (metrics_registered (service p) -> metrics_ (service p') = metrics_ (service p)).
Proof.
  intros Hrun.
  pose proof (adds_Handle env call p) as Hin.
  pose proof (Handle_post env call p) as Hpost.
  unfold ensures in Hin, Hpost. rewrite Hrun in Hin, Hpost.
  destruct Hpost as [(_ & _ & Hkept & _) _].
  split; [exact Hin |]. intros Hreg. apply map_eq. intros k.
  destruct (metrics_ (service p) !! k) as [v|] eqn:Hk.
  - apply (Hkept k v Hk).
  - destruct (metrics_ (service p') !! k) as [v'|] eqn:Hk'; [| reflexivity].
    destruct (Hin k) as [[v Hv] | Hkey].
    + rewrite Hk'. eauto.
    + congruence.
    + rewrite (Hreg k Hkey) in Hk. discriminate.
Qed.

End MetricKeys.

(** ** The text of a failure *)
Lemma c_str_no_nul s : has_nul (c_str s) = false.
Proof.
  induction s as [|c s IH]; simpl; [reflexivity |].
  destruct (Ascii.eqb c zero) eqn:E; simpl; [reflexivity |].
  rewrite E, IH. reflexivity.
Qed.

Lemma has_nul_app a b : has_nul (a +:+ b) = has_nul a || has_nul b.
Proof.
  induction a as [|c a IH]; simpl; [reflexivity |].
  rewrite IH. apply orb_assoc.
Qed.

Lemma c_str_until_nul s junk : has_nul s = false -> c_str (s +:+ String zero junk) = s.
Proof.
  induction s as [|c s IH]; simpl; [reflexivity |].
  destruct (Ascii.eqb c zero); simpl; [discriminate |].
  intros Hs. rewrite (IH Hs). reflexivity.
Qed.

(** X19.  [RespondWithFailure] assembles its text with ["%s : %s"] from
    two C strings, so the text it sends never contains a NUL byte, and a
    command name with an embedded NUL is reported only up to that byte. *)
Theorem failure_text_stops_at_nul error call cmd rest p :
  cmd_args call = cmd :: rest ->
  produces (RespondWithFailure error call) p (fun _ _ evs =>
    exists text m,
      evs = [EvRespondFailure call (Error RuntimeError text) m]
      /\ has_nul text = false
      /\ forall name junk,
           cmd = name +:+ String zero junk ->
           has_nul name = false -> has_nul error = false ->
           text = error +:+ " : " +:+ name).
Proof.
  intros Hargs.
  eapply produces_mono; [apply (RespondWithFailure_spec _ _ _ _ _ Hargs) |].
  intros u p' evs (_ & m & -> & _).
  exists (StringPrintf_s_colon_s error cmd), m.
  split; [reflexivity |]. unfold StringPrintf_s_colon_s. split.
  - rewrite !has_nul_app, !c_str_no_nul. reflexivity.
  - intros name junk -> Hname Herror.
    rewrite (c_str_until_nul _ _ Hname), (c_str_without_nul _ Herror). reflexivity.
Qed.

(** ** The registry the constructor builds *)
Section Registry.

Context `{Externals}.

Lemma lookup_map_name (l : list RedisCommandInfo) (j : nat) :
  map name l !! j = name <$> (l !! j).
Proof.
  revert j. induction l as [|i l IH]; intros [|j]; simpl; auto.
Qed.

Lemma SETUP_METRICS_FOR_METHOD_exact m idx s s' :
  SETUP_METRICS_FOR_METHOD m idx s = Returns s' ->
  exists i,
    kRedisCommandTable !! idx = Some i /\ name i = m
    /\ s' = set_metrics_ (<[m := metric_of m]> (metrics_ s))
              (set_command_name_to_info_map_ (<[m := i]> (command_name_to_info_map_ s)) s).
Proof.
  unfold SETUP_METRICS_FOR_METHOD.
  destruct (kRedisCommandTable !! idx) as [i|]; [| discriminate].
  destruct (String.eqb m (name i)) eqn:E; [| discriminate].
  apply String.eqb_eq in E. intros [= <-]. exists i. auto.
Qed.

Lemma SETUP_METRICS_FOR_METHOD_succeeds m idx s i :
  kRedisCommandTable !! idx = Some i -> name i = m ->
  exists s', SETUP_METRICS_FOR_METHOD m idx s = Returns s'.
Proof.
  intros Hi Hn. unfold SETUP_METRICS_FOR_METHOD. rewrite Hi.
  replace (String.eqb m (name i)) with true by (symmetry; apply String.eqb_eq; auto).
  eauto.
Qed.

Lemma setup_methods_exact ms :
  forall idx s idx' s',
    setup_methods ms idx s = Returns (idx', s') ->
    NoDup ms ->
    (forall j n, ms !! j = Some n ->
                 is_Some (kRedisCommandTable !! (idx + j)%nat)
                 /\ name <$> (kRedisCommandTable !! (idx + j)%nat) = Some n
                 /\ command_name_to_info_map_ s' !! n = kRedisCommandTable !! (idx + j)%nat)
    /\ (forall n, ~ In n ms ->
                  command_name_to_info_map_ s' !! n = command_name_to_info_map_ s !! n
                  /\ metrics_ s' !! n = metrics_ s !! n)
    /\ yb_tier_master_addresses_ s' = yb_tier_master_addresses_ s
    /\ client_ s' = client_ s /\ table_ s' = table_ s.
Proof.
  induction ms as [|m ms IH]; intros idx s idx' s'; simpl.
  - intros [= <- <-] _. split; [intros j n Hj; discriminate |]. auto.
  - destruct (SETUP_METRICS_FOR_METHOD m idx s) as [s1| | |] eqn:Hm; simpl; try discriminate.
    intros Hrest Hnd. apply NoDup_cons in Hnd as [Hm_notin Hnd].
    destruct (SETUP_METRICS_FOR_METHOD_exact _ _ _ _ Hm) as (i & Hi & Hname & ->).
    destruct (IH _ _ _ _ Hrest Hnd) as (Hin & Hout & Ha & Hc & Ht).
    split; [| split; [| auto]].
    + intros [|j] n Hj; simpl in Hj.
      * injection Hj as <-. rewrite Nat.add_0_r, Hi.
        split; [eauto |]. split; [simpl; congruence |].
        destruct (Hout m) as [Hmap _].
        { intros Hcontra. apply Hm_notin. apply list_elem_of_In. exact Hcontra. }
        rewrite Hmap. simpl. apply lookup_insert_eq.
      * replace (idx + S j)%nat with (S idx + j)%nat by lia. apply Hin, Hj.
    + intros n Hn. destruct (Hout n) as [Hmap Hmet]; [tauto |].
      rewrite Hmap, Hmet. simpl.
      assert (m <> n) by (intros ->; apply Hn; auto).
      rewrite !lookup_insert_ne by assumption. auto.
Qed.

Lemma setup_methods_succeeds ms :
  forall idx s,
    (forall j n, ms !! j = Some n ->
                 exists i, kRedisCommandTable !! (idx + j)%nat = Some i /\ name i = n) ->
    exists s', setup_methods ms idx s = Returns ((idx + length ms)%nat, s').
Proof.
  induction ms as [|m ms IH]; intros idx s Hall; simpl.
  - exists s. rewrite Nat.add_0_r. reflexivity.
  - destruct (Hall 0%nat m eq_refl) as (i & Hi & Hn). rewrite Nat.add_0_r in Hi.
    destruct (SETUP_METRICS_FOR_METHOD_succeeds m idx s i Hi Hn) as (s1 & Hs1).
    rewrite Hs1. simpl.
    destruct (IH (S idx) s1) as (s' & Hs').
    { intros j n Hj. replace (S idx + j)%nat with (idx + S j)%nat by lia.
      apply (Hall (S j) n). exact Hj. }
    exists s'. rewrite Hs'. f_equal. f_equal. lia.
Qed.

Lemma methods_NoDup : NoDup methods.
Proof.
  unfold methods.
  repeat (apply NoDup_cons; split;
          [intros Hin; apply list_elem_of_In in Hin; simpl in Hin;
           repeat (destruct Hin as [Hin | Hin]; [discriminate |]); destruct Hin |]).
  apply NoDup_nil. exact I.
Qed.

Lemma setup_methods_stops ms :
  forall idx s j m,
    ms !! j = Some m ->
    (forall j' m', (j' < j)%nat -> ms !! j' = Some m' ->
                   name <$> (kRedisCommandTable !! (idx + j')%nat) = Some m') ->
    (kRedisCommandTable !! (idx + j)%nat = None ->
     setup_methods ms idx s = Undefined "kRedisCommandTable[idx]")
    /\ (forall i, kRedisCommandTable !! (idx + j)%nat = Some i -> name i <> m ->
                  setup_methods ms idx s = CheckFailure "Expected command at index").
Proof.
  induction ms as [|m0 ms IH]; intros idx s j m Hj Hbefore; [discriminate |].
  destruct j as [|j]; simpl in Hj.
  - injection Hj as ->. rewrite Nat.add_0_r. simpl. unfold SETUP_METRICS_FOR_METHOD.
    split.
    + intros ->. reflexivity.
    + intros i -> Hne.
      replace (String.eqb m (name i)) with false; [reflexivity |].
      symmetry. apply String.eqb_neq. congruence.
  - simpl.
    destruct (kRedisCommandTable !! idx) as [i0|] eqn:Hi0.
    2:{ specialize (Hbefore 0%nat m0 ltac:(lia) eq_refl).
        rewrite Nat.add_0_r, Hi0 in Hbefore. discriminate. }
    assert (Hn0 : name i0 = m0).
    { specialize (Hbefore 0%nat m0 ltac:(lia) eq_refl).
      rewrite Nat.add_0_r, Hi0 in Hbefore. simpl in Hbefore. congruence. }
    destruct (SETUP_METRICS_FOR_METHOD_succeeds m0 idx s i0 Hi0 Hn0) as (s1 & Hs1).
    rewrite Hs1. simpl.
    replace (idx + S j)%nat with (S idx + j)%nat by lia.
    apply (IH (S idx) s1 j m Hj).
    intros j' m' Hlt Hj'.
    replace (S idx + j')%nat with (idx + S j')%nat by lia.
    apply (Hbefore (S j') m'); [lia | exact Hj'].
Qed.

(** X1.  How the constructor ends.  It returns exactly when the declared
    count is thirteen and the names of the command table, read in order, are
    the thirteen method names in the order [PopulateHandlers] sets them up.
    Otherwise it does not return: a count other than the length of the table
    fails the first CHECK_EQ; at the first method whose table entry has
    another name the CHECK_EQ of the set-up macro fails, and when the table
    ends before that method the macro reads [kRedisCommandTable[idx]] out of
    range, which is undefined; with thirteen matching names and a longer
    table the last CHECK_EQ fails. *)
Theorem construction_returns_iff addresses :
  ((exists s, RedisServiceImpl_new addresses = Returns s)
   <-> kMethodCount = 13 /\ map name kRedisCommandTable = methods)
  /\ (kMethodCount <> Z.of_nat (length kRedisCommandTable) ->
      RedisServiceImpl_new addresses
      = CheckFailure "Expect to see kMethodCount elements in kRedisCommandTable")
  /\ (kMethodCount = Z.of_nat (length kRedisCommandTable) ->
      forall j m,
        methods !! j = Some m ->
        take j (map name kRedisCommandTable) = take j methods ->
        (kRedisCommandTable !! j = None ->
         RedisServiceImpl_new addresses = Undefined "kRedisCommandTable[idx]")
        /\ (forall i, kRedisCommandTable !! j = Some i -> name i <> m ->
                      RedisServiceImpl_new addresses
                      = CheckFailure "Expected command at index"))
  /\ (kMethodCount = Z.of_nat (length kRedisCommandTable) ->
      take 13 (map name kRedisCommandTable) = methods ->
      kMethodCount <> 13 ->
      RedisServiceImpl_new addresses = CheckFailure "kMethodCount == idx").
Proof.
  split; [| split; [| split]].
  - unfold RedisServiceImpl_new, PopulateHandlers. split.
    + intros (s & Hnew).
      destruct (kMethodCount =? Z.of_nat (length kRedisCommandTable)) eqn:Hlen;
        [| discriminate].
      destruct (setup_methods methods 0 _) as [[idx s1]| | |] eqn:Hsetup; simpl in Hnew;
        try discriminate.
      destruct (kMethodCount =? Z.of_nat idx) eqn:Hcount; [| discriminate].
      destruct (setup_methods_spec _ _ _ _ _ Hsetup) as (-> & _).
      destruct (setup_methods_exact _ _ _ _ _ Hsetup methods_NoDup) as (Hin & _).
      apply Z.eqb_eq in Hlen. apply Z.eqb_eq in Hcount. simpl in Hcount.
      split; [exact Hcount |].
      assert (Hl : length kRedisCommandTable = 13%nat) by lia.
      apply list_eq. intros j. rewrite lookup_map_name.
      destruct (methods !! j) as [n|] eqn:Hj.
      * destruct (Hin j n Hj) as (_ & Hname & _). exact Hname.
      * apply lookup_ge_None in Hj.
        replace (kRedisCommandTable !! j) with (@None RedisCommandInfo); [reflexivity |].
        symmetry. apply lookup_ge_None. simpl in Hj. lia.
    + intros [Hcount Hnames].
      assert (Hl : length kRedisCommandTable = 13%nat).
      { rewrite <- (length_map name), Hnames. reflexivity. }
      rewrite Hcount, Hl. simpl (13 =? Z.of_nat 13).
      cbv iota.
      edestruct (setup_methods_succeeds methods 0) as (s1 & Hs1).
      { intros j n Hj. simpl. rewrite <- Hnames, lookup_map_name in Hj.
        destruct (kRedisCommandTable !! j) as [i|]; [| discriminate].
        injection Hj as <-. eauto. }
      rewrite Hs1. simpl. eauto.
  - intros Hne. unfold RedisServiceImpl_new, PopulateHandlers.
    replace (kMethodCount =? Z.of_nat (length kRedisCommandTable)) with false;
      [reflexivity |].
    symmetry. apply Z.eqb_neq. exact Hne.
  - intros Hlen j m Hj Hprefix.
    assert (Hbefore : forall j' m', (j' < j)%nat -> methods !! j' = Some m' ->
                        name <$> (kRedisCommandTable !! (0 + j')%nat) = Some m').
    { intros j' m' Hlt Hj'. simpl. rewrite <- lookup_map_name.
      rewrite <- (lookup_take_lt _ j j') by lia. rewrite Hprefix.
      rewrite lookup_take_lt by lia. exact Hj'. }
    destruct (setup_methods_stops methods 0
                {| yb_tier_master_addresses_ := addresses;
                   yb_client_initialized_ := false;
                   client_ := None; table_ := None;
                   command_name_to_info_map_ := ∅; metrics_ := ∅ |} j m Hj Hbefore)
      as [Hnone Hsome].
    change (0 + j)%nat with j in Hnone, Hsome.
    unfold RedisServiceImpl_new, PopulateHandlers.
    rewrite Hlen, Z.eqb_refl.
    split.
    + intros Hn. rewrite (Hnone Hn). reflexivity.
    + intros i Hi Hne. rewrite (Hsome i Hi Hne). reflexivity.
  - intros Hlen Hnames Hcount.
    unfold RedisServiceImpl_new, PopulateHandlers.
    rewrite Hlen at 1. rewrite Z.eqb_refl.
    edestruct (setup_methods_succeeds methods 0) as (s1 & Hs1).
    { intros j n Hj. simpl.
      assert (Hlt : (j < 13)%nat) by (apply lookup_lt_Some in Hj; exact Hj).
      rewrite <- Hnames in Hj. rewrite lookup_take_lt in Hj by exact Hlt.
      rewrite lookup_map_name in Hj.
      destruct (kRedisCommandTable !! j) as [i|]; [| discriminate].
      injection Hj as <-. eauto. }
    rewrite Hs1. simpl.
    replace (kMethodCount =? 13) with false; [reflexivity |].
    symmetry. apply Z.eqb_neq. exact Hcount.
Qed.

Lemma RedisServiceImpl_new_registry addresses s :
  RedisServiceImpl_new addresses = Returns s ->
  (forall j n, methods !! j = Some n ->
               is_Some (kRedisCommandTable !! j)
               /\ command_name_to_info_map_ s !! n = kRedisCommandTable !! j)
  /\ (forall n, ~ In n methods ->
                command_name_to_info_map_ s !! n = None /\ (~ In n metric_keys -> metrics_ s !! n = None))
  /\ yb_tier_master_addresses_ s = addresses
  /\ client_ s = None /\ table_ s = None.
Proof.
  intros Hnew.
  unfold RedisServiceImpl_new, PopulateHandlers in Hnew.
  destruct (kMethodCount =? Z.of_nat (length kRedisCommandTable)); [| discriminate].
  destruct (setup_methods methods 0 _) as [[idx s1]| | |] eqn:Hsetup; simpl in Hnew;
    try discriminate.
  destruct (kMethodCount =? Z.of_nat idx); [| discriminate].
  injection Hnew as <-.
  destruct (setup_methods_exact _ _ _ _ _ Hsetup methods_NoDup)
    as (Hin & Hout & Ha & Hc & Ht).
  simpl in Ha, Hc, Ht.
  split; [| split; [| auto]].
  - intros j n Hj. destruct (Hin j n Hj) as (Hsome & _ & Hmap). simpl in *. auto.
  - intros n Hn. destruct (Hout n Hn) as [Hmap Hmet]. split.
    + simpl in Hmap |- *. rewrite Hmap. apply lookup_empty.
    + intros Hk. rewrite !setup_internal_metric_lookup.
      repeat case_decide; subst;
        try (exfalso; apply Hk; unfold metric_keys; apply in_or_app; right; simpl; tauto).
      rewrite Hmet. apply lookup_empty.
Qed.

Lemma registry_well_formed_from_table addresses s :
  RedisServiceImpl_new addresses = Returns s ->
  Forall (fun i => valid_arity (arity i) /\ echo_safe i) kRedisCommandTable ->
  registry_well_formed s.
Proof.
  intros Hnew Hall n i Hn.
  destruct (RedisServiceImpl_new_registry _ _ Hnew) as (Hin & Hout & _).
  destruct (decide (n ∈ methods)) as [Hmem | Hmem].
  - apply list_elem_of_lookup_1 in Hmem as [j Hj].
    destruct (Hin j n Hj) as [_ Hmap]. rewrite Hmap in Hn.
    rewrite Forall_forall in Hall. apply Hall.
    apply (list_elem_of_lookup_2 _ j). exact Hn.
  - destruct (Hout n) as [Hnone _].
    { intros Hi. apply Hmem. apply list_elem_of_In. exact Hi. }
    congruence.
Qed.

(** X2.  What the constructor leaves when it returns: the registry maps
    the j-th method name to the j-th entry of the command table and nothing
    else to anything; [metrics_] holds, under each of the thirteen names and
    the three internal keys, the histogram of that name, and nothing under
    any other key; the addresses are the ones given, the flag is unset and
    there is neither client nor table. *)
Theorem construction_builds_the_registry addresses s :
  RedisServiceImpl_new addresses = Returns s ->
  (forall j n, methods !! j = Some n ->
               is_Some (kRedisCommandTable !! j)
               /\ command_name_to_info_map_ s !! n = kRedisCommandTable !! j)
  /\ (forall n, ~ In n methods -> command_name_to_info_map_ s !! n = None)
  /\ metrics_registered s
  /\ (forall k, ~ In k metric_keys -> metrics_ s !! k = None)
  /\ yb_tier_master_addresses_ s = addresses
  /\ yb_client_initialized_ s = false
  /\ client_ s = None /\ table_ s = None.
Proof.
  intros Hnew.
  destruct (RedisServiceImpl_new_invariant _ _ Hnew) as ([Hreg _] & Hflag & _).
  destruct (RedisServiceImpl_new_registry _ _ Hnew) as (Hin & Hout & Ha & Hc & Ht).
  split; [exact Hin |].
  split; [intros n Hn; apply (Hout n Hn) |].
  split; [exact Hreg |].
  split; [| auto].
  intros k Hk. apply (Hout k); [| exact Hk].
  intros Hi. apply Hk. unfold metric_keys. apply in_or_app. auto.
Qed.

End Registry.

(** ** Response objects of different operations *)

Lemma read_mutable_response_keeps (h : Store) (op : YBRedisReadOp.t) l r :
  h !! l = Some r -> (YBRedisReadOp.mutable_response h op).1.2 !! l = Some r.
Proof.
  intros Hl. unfold YBRedisReadOp.mutable_response.
  destruct (YBRedisReadOp.redis_response_ op); simpl; [| exact Hl].
  rewrite lookup_insert_ne; [exact Hl |].
  intros E. pose proof (new_is_fresh new_RedisResponsePB h) as Hf.
  simpl in Hf. rewrite E in Hf. congruence.
Qed.

Lemma write_mutable_response_keeps (h : Store) (op : YBRedisWriteOp.t) l r :
  h !! l = Some r -> (YBRedisWriteOp.mutable_response h op).1.2 !! l = Some r.
Proof.
  intros Hl. unfold YBRedisWriteOp.mutable_response.
  destruct (YBRedisWriteOp.redis_response_ op); simpl; [| exact Hl].
  rewrite lookup_insert_ne; [exact Hl |].
  intros E. pose proof (new_is_fresh new_RedisResponsePB h) as Hf.
  simpl in Hf. rewrite E in Hf. congruence.
Qed.

(** X17.  After [mutable_response] the read operation's [response] no
    longer fails its assertion: on an operation whose slot was empty it
    returns the default response, and once a response is stored through the
    pointer [mutable_response] returned, [response] returns that response.
    Before the call it fails the assertion. *)
Theorem response_reads_what_mutable_response_allocated
  (h : Store) (op : YBRedisReadOp.t) :
  YBRedisReadOp.redis_response_ op = nullptr ->
  YBRedisReadOp.response h op = AssertionFailure "redis_response_ != nullptr"
  /\ exists l,
       (YBRedisReadOp.mutable_response h op).1.1 = Ptr l
       /\ YBRedisReadOp.response (YBRedisReadOp.mutable_response h op).1.2
                                 (YBRedisReadOp.mutable_response h op).2
          = Returns new_RedisResponsePB
       /\ forall r,
            YBRedisReadOp.response (<[l := r]> (YBRedisReadOp.mutable_response h op).1.2)
                                   (YBRedisReadOp.mutable_response h op).2
            = Returns r.
Proof.
  intros E. split.
  - unfold YBRedisReadOp.response. rewrite E. reflexivity.
  - destruct (read_mutable_response_first h op E) as (l & _ & ->). exists l.
    split; [reflexivity |]. simpl. unfold YBRedisReadOp.response. simpl.
    split; [| intros r]; rewrite lookup_insert_eq; reflexivity.
Qed.

(** X18.  Operations do not share response objects.  [mutable_response]
    leaves every object that was already allocated as it was; and when a
    read and then a write operation, both with an empty slot, allocate their
    responses, the two pointers differ, so that a response stored through
    the write operation's pointer is what the write operation's [response]
    returns while the read operation's [response] is unchanged. *)
Theorem operations_do_not_share_responses
  (h : Store) (rd : YBRedisReadOp.t) (wr : YBRedisWriteOp.t) :
  YBRedisReadOp.redis_response_ rd = nullptr ->
  YBRedisWriteOp.redis_response_ wr = nullptr ->
  let r1 := YBRedisReadOp.mutable_response h rd in
  let r2 := YBRedisWriteOp.mutable_response r1.1.2 wr in
  (forall l r, h !! l = Some r -> r2.1.2 !! l = Some r)
  /\ r1.1.1 <> r2.1.1
  /\ exists l2,
       r2.1.1 = Ptr l2
       /\ forall v,
            YBRedisWriteOp.response (<[l2 := v]> r2.1.2) r2.2 = Returns v
            /\ YBRedisReadOp.response (<[l2 := v]> r2.1.2) r1.2
               = YBRedisReadOp.response r2.1.2 r1.2
            /\ YBRedisReadOp.response r2.1.2 r1.2 = Returns new_RedisResponsePB.
Proof.
  intros E1 E2 r1 r2. split.
  - intros l r Hl. subst r1 r2.
    apply write_mutable_response_keeps, read_mutable_response_keeps, Hl.
  - destruct (read_mutable_response_first h rd E1) as (l1 & Hl1 & Hr1).
    destruct (write_mutable_response_first r1.1.2 wr E2) as (l2 & Hl2 & Hr2).
    fold r2 in Hr2. subst r1. rewrite Hr1 in Hr2, Hl2 |- *. simpl in Hr2, Hl2 |- *.
    rewrite Hr2. simpl.
    assert (Hne : l1 <> l2).
    { intros ->. rewrite lookup_insert_eq in Hl2. discriminate. }
    split; [congruence |]. exists l2. split; [reflexivity |]. intros v.
    unfold YBRedisWriteOp.response, YBRedisReadOp.response. simpl.
    rewrite lookup_insert_eq.
    rewrite !(lookup_insert_ne _ l2 l1) by congruence.
    rewrite lookup_insert_eq. auto.
Qed.

(** ** The YSQL operations *)
Section YSQLLemmas.

Context `{PartialRow}.

Lemma static_cast_int_range w z :
  0 < w -> - 2 ^ (w - 1) <= static_cast_int w z < 2 ^ (w - 1).
Proof.
  intros Hw. unfold static_cast_int.
  assert (E : 2 ^ w = 2 * 2 ^ (w - 1)).
  { replace w with (Z.succ (w - 1)) at 1 by lia. apply Z.pow_succ_r. lia. }
  assert (0 < 2 ^ (w - 1)) by (apply Z.pow_pos_nonneg; lia).
  pose proof (Z.mod_pos_bound (z + 2 ^ (w - 1)) (2 ^ w)) as B. lia.
Qed.

Lemma static_cast_int_fits w z :
  0 < w -> - 2 ^ (w - 1) <= z < 2 ^ (w - 1) -> static_cast_int w z = z.
Proof.
  intros Hw Hz. unfold static_cast_int.
  assert (E : 2 ^ w = 2 * 2 ^ (w - 1)).
  { replace w with (Z.succ (w - 1)) at 1 by lia. apply Z.pow_succ_r. lia. }
  rewrite Z.mod_small by lia. lia.
Qed.

Lemma set_hashed_columns_app xs :
  forall ys row,
    set_hashed_columns (xs ++ ys) row
    = match set_hashed_columns xs row with
      | Returns (s, row', lines) =>
          if ok s then
            match set_hashed_columns ys row' with
            | Returns (s', row'', lines') => Returns (s', row'', lines ++ lines')
            | stopped => stopped
            end
          else Returns (s, row', lines)
      | stopped => stopped
      end.
Proof.
  induction xs as [|x xs IH]; intros ys row; simpl.
  - destruct (set_hashed_columns ys row) as [[[s r] l]| | |]; reflexivity.
  - destruct (SetColumn row (column_id x) (value x)) as [[[s r] l]| | |]; try reflexivity.
    destruct (ok s) eqn:Hs; simpl; rewrite ?Hs; [| reflexivity].
    rewrite IH.
    destruct (set_hashed_columns xs r) as [[[s1 r1] l1]| | |]; try reflexivity.
    destruct (ok s1) eqn:Hs1; simpl; rewrite ?Hs1; [| reflexivity].
    destruct (set_hashed_columns ys r1) as [[[s2 r2] l2]| | |]; try reflexivity.
    rewrite app_assoc. reflexivity.
Qed.

(** X11.  [SetColumn] returns exactly when the column id is found in the
    schema and the value carries a datatype; otherwise it stops in the
    CHECK that failed, the column check first. *)
Theorem SetColumn_returns_iff row id v :
  ((exists r, SetColumn row id v = Returns r)
   <-> find_column_by_id row id <> kColumnNotFound /\ has_datatype v = true)
  /\ (find_column_by_id row id = kColumnNotFound ->
      SetColumn row id v = CheckFailure "CHECK_NE(column_idx, Schema::kColumnNotFound)")
  /\ (find_column_by_id row id <> kColumnNotFound -> has_datatype v = false ->
      SetColumn row id v = CheckFailure "CHECK(value.has_datatype())").
Proof.
  unfold SetColumn.
  destruct (Z.eqb_spec (find_column_by_id row id) kColumnNotFound) as [E|E].
  - split; [| split; [reflexivity | tauto]].
    split; [intros [r Hr]; discriminate | tauto].
  - destruct (has_datatype v); simpl.
    + split; [| split; [tauto | discriminate]].
      split; [tauto | intros _].
      unfold quietly. destruct (datatype v); eauto.
    + split; [| split; [tauto | reflexivity]].
      split; [intros [r Hr]; discriminate | intros [_ ?]; discriminate].
Qed.

(** X12.  For a datatype without a case of its own (the unsigned ones,
    BINARY and UNKNOWN_DATA) [SetColumn] calls no setter: it returns the
    RuntimeError "unsupported datatype", leaves the row as it was and writes
    one line to the error log, whatever fields the value carries. *)
Theorem SetColumn_unsupported_datatype row id v :
  find_column_by_id row id <> kColumnNotFound ->
  has_datatype v = true ->
  supported (datatype v) = false ->
  SetColumn row id v
  = Returns (Error RuntimeError "unsupported datatype", row,
             ["Internal error: unsupported datatype " +:+ DataType_to_ostream (datatype v)]).
Proof.
  intros Hc Hd Hs. unfold SetColumn.
  destruct (Z.eqb_spec (find_column_by_id row id) kColumnNotFound); [contradiction |].
  rewrite Hd. simpl. destruct (datatype v); try discriminate; reflexivity.
Qed.

(** X13.  For a datatype with a case, a value whose field of that type is
    absent sets the column to null, and nothing is logged; no other field of
    the value matters. *)
Theorem SetColumn_absent_value_sets_null row id v :
  find_column_by_id row id <> kColumnNotFound ->
  has_datatype v = true ->
  supported (datatype v) = true ->
  has_value_of (datatype v) v = false ->
  SetColumn row id v = Returns (SetNull (find_column_by_id row id) row, []).
Proof.
  intros Hc Hd Hs Hv. unfold SetColumn.
  destruct (Z.eqb_spec (find_column_by_id row id) kColumnNotFound); [contradiction |].
  rewrite Hd. simpl. unfold quietly.
  destruct (datatype v); try discriminate; simpl in Hv; rewrite Hv; reflexivity.
Qed.

(** X14.  The INT16 case tests [has_int16_value] but stores
    [int32_value], cut to 16 bits: the number passed to [SetInt16] lies in
    the 16-bit range and is [int32_value] itself when that fits; and no call
    of [SetColumn], of any datatype, depends on what [int16_value] holds. *)
Theorem SetColumn_int16_stores_int32_value row id v :
  (find_column_by_id row id <> kColumnNotFound ->
   has_datatype v = true -> datatype v = INT16 -> has_int16_value v = true ->
   SetColumn row id v
   = Returns (SetInt16 (find_column_by_id row id) (static_cast_int 16 (int32_value v)) row, [])
   /\ - 2 ^ 15 <= static_cast_int 16 (int32_value v) < 2 ^ 15
   /\ (- 2 ^ 15 <= int32_value v < 2 ^ 15 ->
       static_cast_int 16 (int32_value v) = int32_value v))
  /\ (forall z, has_int16_value v = true ->
                SetColumn row id (set_int16_value z v) = SetColumn row id v).
Proof.
  split.
  - intros Hc Hd Ht Hv. split; [| split].
    + unfold SetColumn.
      destruct (Z.eqb_spec (find_column_by_id row id) kColumnNotFound); [contradiction |].
      rewrite Hd, Ht. simpl. rewrite Hv. reflexivity.
    + apply (static_cast_int_range 16). lia.
    + apply (static_cast_int_fits 16). lia.
  - intros z Hv. unfold SetColumn. simpl.
    destruct (find_column_by_id row id =? kColumnNotFound); [reflexivity |].
    destruct (has_datatype v); [| reflexivity]. simpl.
    destruct (datatype v); try reflexivity. rewrite Hv. reflexivity.
Qed.

Lemma set_hashed_columns_stops xs ys row :
  not_ok (set_hashed_columns xs row) ->
  set_hashed_columns (xs ++ ys) row = set_hashed_columns xs row.
Proof.
  intros Hno. rewrite set_hashed_columns_app.
  destruct (set_hashed_columns xs row) as [[[s r] l]| | |]; try reflexivity.
  simpl in Hno. rewrite Hno. reflexivity.
Qed.

(** X15.  [SetKey], of the write and of the read operation, stops at the
    first column that is not set with [Status::OK()]: when it ends in an
    error status or in a failed CHECK on some hashed columns, it ends the
    same way, with the same row and the same log lines, on these columns
    followed by any others, so no later column is looked at. *)
Theorem SetKey_stops_at_first_failure row xs ys :
  not_ok (set_hashed_columns xs row) ->
  YBSqlWriteOp_SetKey (mkYBSqlWriteOp row (xs ++ ys))
  = YBSqlWriteOp_SetKey (mkYBSqlWriteOp row xs)
  /\ YBSqlReadOp_SetKey (mkYBSqlReadOp row (xs ++ ys))
     = YBSqlReadOp_SetKey (mkYBSqlReadOp row xs).
Proof.
  intros Hno. unfold YBSqlWriteOp_SetKey, YBSqlReadOp_SetKey. simpl.
  split; apply set_hashed_columns_stops, Hno.
Qed.

Lemma SetColumn_ok row id v row' lines :
  SetColumn row id v = Returns (OK, row', lines) ->
  has_datatype v = true /\ supported (datatype v) = true /\ lines = [].
Proof.
  unfold SetColumn.
  destruct (find_column_by_id row id =? kColumnNotFound); [discriminate |].
  destruct (has_datatype v); [| discriminate]. simpl. unfold quietly.
  destruct (datatype v); try discriminate; intros [= _ <-]; auto.
Qed.

Lemma set_hashed_columns_ok cvs :
  forall row row' lines,
    set_hashed_columns cvs row = Returns (OK, row', lines) ->
    lines = []
    /\ forall cv, In cv cvs ->
                  has_datatype (value cv) = true /\ supported (datatype (value cv)) = true.
Proof.
  induction cvs as [|cv cvs IH]; intros row row' lines; simpl.
  - intros [= _ <-]. split; [reflexivity | tauto].
  - destruct (SetColumn row (column_id cv) (value cv)) as [[[s r] l]| | |] eqn:Hcol;
      try discriminate.
    destruct s as [|c m]; simpl; [| discriminate].
    destruct (set_hashed_columns cvs r) as [[[s1 r1] l1]| | |] eqn:Hrest; try discriminate.
    intros [= -> -> <-].
    destruct (IH _ _ _ Hrest) as (-> & Hall).
    destruct (SetColumn_ok _ _ _ _ _ Hcol) as (Hd & Hs & ->).
    split; [reflexivity |].
    intros cv' [<- | Hin]; auto.
Qed.

(** X16.  [SetKey] returns [Status::OK()] only if every hashed column
    value of the request carries a datatype, and one [SetColumn] has a case
    for; and then nothing was written to the error log. *)
Theorem SetKey_ok_only_for_supported_columns :
  (forall op row' lines,
      YBSqlWriteOp_SetKey op = Returns (OK, row', lines) ->
      lines = []
      /\ forall cv, In cv (ysql_write_request_ op) ->
                    has_datatype (value cv) = true
                    /\ supported (datatype (value cv)) = true)
  /\ (forall op row' lines,
        YBSqlReadOp_SetKey op = Returns (OK, row', lines) ->
        lines = []
        /\ forall cv, In cv (ysql_read_request_ op) ->
                      has_datatype (value cv) = true
                      /\ supported (datatype (value cv)) = true).
Proof.
  split; intros op row' lines; apply set_hashed_columns_ok.
Qed.

End YSQLLemmas.

(** ** The order of the checks, and the arity contract *)
Section OrderOfChecks.

Context `{Externals}.

Lemma c_str_app_clean a b : has_nul a = false -> c_str (a +:+ b) = a +:+ c_str b.
Proof.
  induction a as [|c a IH]; simpl; [reflexivity |].
  destruct (Ascii.eqb c zero); simpl; [discriminate |].
  intros Ha. rewrite (IH Ha). reflexivity.
Qed.

Lemma ReadCommand_run env call command_name parse p cmd rest :
  is_Some (client_ (service p)) -> is_Some (table_ (service p)) ->
  ok (env_set_flush_mode env) = true ->
  cmd_args call = cmd :: rest ->
  produces (ReadCommand env call command_name parse) p (fun _ _ evs =>
    exists o m mi,
      evs = [EvNewSession true;
             EvSetTimeoutMillis FLAGS_redis_service_yb_client_timeout_millis;
             EvSetFlushMode MANUAL_FLUSH;
             EvNewRedisRead o;
             if ok (parse [] (cmd_args call)).1 then
               EvReadAsync (manual_session true) o
                 {| rcb_session_ := Some (manual_session true);
                    rcb_redis_call_ := call; read_op_ := o;
                    rcb_metrics_ := m; rcb_metrics_internal_ := mi;
                    rcb_start_ := env_now env |}
             else
               EvRespondFailure call
                 (Error RuntimeError
                    (c_str (message (parse [] (cmd_args call)).1)
                     +:+ " : " +:+ c_str cmd)) m]).
Proof.
  intros [c Hc] [tbl Ht] Hflush Hargs.
  destruct (ReadCommand_returns env call command_name parse p c tbl cmd rest
              Hc Ht Hflush Hargs) as (u & p' & evs & Hrun & _).
  pose proof (ReadCommand_outcome env call command_name parse p) as Hout.
  unfold ensures in Hout. rewrite Hrun in Hout.
  exists u, p', evs. split; [exact Hrun |].
  destruct Hout as (o & tbl' & _ & _ & _ & e & -> & He).
  destruct (ok (parse [] (cmd_args call)).1).
  - destruct He as (m & mi & -> & _). exists o, m, mi. reflexivity.
  - destruct He as (cmd' & rest' & m & Hargs' & -> & _).
    rewrite Hargs in Hargs'. injection Hargs' as <- <-.
    exists o, m, m. reflexivity.
Qed.

Lemma WriteCommand_run env call command_name parse p cmd rest :
  is_Some (client_ (service p)) -> is_Some (table_ (service p)) ->
  ok (env_set_flush_mode env) = true ->
  ok (env_apply env) = true ->
  cmd_args call = cmd :: rest ->
  produces (WriteCommand env call command_name parse) p (fun _ _ evs =>
    exists o m mi,
      evs = [EvNewSession false;
             EvSetTimeoutMillis FLAGS_redis_service_yb_client_timeout_millis;
             EvSetFlushMode MANUAL_FLUSH;
             EvNewRedisWrite o]
            ++ (if ok (parse [] (cmd_args call)).1 then
                  [EvApply (manual_session false) o;
                   EvFlushAsync (manual_session false)
                     {| wcb_session_ := Some (manual_session false);
                        wcb_redis_call_ := call; write_op_ := o;
                        wcb_metrics_ := m; wcb_metrics_internal_ := mi;
                        wcb_start_ := env_now env |}]
                else
                  [EvRespondFailure call
                     (Error RuntimeError
                        (c_str (message (parse [] (cmd_args call)).1)
                         +:+ " : " +:+ c_str cmd)) m])).
Proof.
  intros [c Hc] [tbl Ht] Hflush Happly Hargs.
  destruct (WriteCommand_returns env call command_name parse p c tbl cmd rest
              Hc Ht Hflush Happly Hargs) as (u & p' & evs & Hrun & _).
  pose proof (WriteCommand_outcome env call command_name parse p) as Hout.
  unfold ensures in Hout. rewrite Hrun in Hout.
  exists u, p', evs. split; [exact Hrun |].
  destruct Hout as (o & tbl' & _ & _ & _ & He).
  destruct (ok (parse [] (cmd_args call)).1).
  - destruct He as (m & mi & -> & _). exists o, m, mi. reflexivity.
  - destruct He as (cmd' & rest' & m & Hargs' & -> & _).
    rewrite Hargs in Hargs'. injection Hargs' as <- <-.
    exists o, m, m. reflexivity.
Qed.

Lemma EchoCommand_run env call p :
  is_Some (cmd_args call !! 1%nat) ->
  produces (EchoCommand env call) p (fun _ _ evs =>
    exists a m,
      cmd_args call !! 1%nat = Some a
      /\ evs = [EvRespondSuccess call (set_string_response a new_RedisResponsePB) m]).
Proof.
  intros [a Ha].
  assert (Hlen : (2 <= length (cmd_args call))%nat).
  { apply lookup_lt_Some in Ha. lia. }
  destruct (EchoCommand_returns env call p Hlen) as (u & p' & evs & Hrun & _).
  pose proof (EchoCommand_outcome env call p) as Hout.
  unfold ensures in Hout. rewrite Hrun in Hout.
  exists u, p', evs. split; [exact Hrun |].
  destruct Hout as (_ & a' & m & Ha' & -> & _). exists a', m. auto.
Qed.

Lemma invoke_run f env call cmd rest p :
  cmd_args call = cmd :: rest ->
  handler_can_run env call f p ->
  produces (invoke f env call) p (fun _ _ evs => handler_run env call cmd f evs).
Proof.
  intros Hargs Hcan.
  destruct f; simpl in Hcan |- *;
    try (destruct Hcan as (Hc & Ht & Hflush & Happly);
         first [ apply (ReadCommand_run _ _ _ _ _ _ _ Hc Ht Hflush Hargs)
               | apply (WriteCommand_run _ _ _ _ _ _ _ Hc Ht Hflush
                          (Happly (ltac:(eexists; reflexivity))) Hargs) ]).
  apply EchoCommand_run, Hcan.
Qed.

Lemma failure_produces error call cmd rest p :
  cmd_args call = cmd :: rest ->
  produces (RespondWithFailure error call) p (fun _ _ evs =>
    exists m,
      evs = [EvRespondFailure call
               (Error RuntimeError (c_str error +:+ " : " +:+ c_str cmd)) m]).
Proof.
  intros Hargs.
  eapply produces_mono; [apply (RespondWithFailure_spec _ _ _ _ _ Hargs) |].
  intros u p' evs (_ & m & -> & _). exists m. reflexivity.
Qed.

(** C2.  [ValidateAndHandle] first makes sure the client is set up.  When
    that fails, the caller gets the failure "Could not open .redis table. "
    followed by the status, " : " and the command token, whatever the
    command information and the arguments are.  When it succeeds and the
    command is unknown, the caller gets "Unsupported call. : " and the
    command token, whatever the number of arguments.  Only when it succeeds
    and the command is known is the arity looked at: when the contract is
    met the bound handler runs, and what the caller and the backend see is
    the run of that handler; otherwise the caller gets "Too few arguments."
    for a negative arity and "Wrong number of arguments." for a positive
    one, after one line in the error log. *)
Theorem ValidateAndHandle_order env info call cmd rest p :
  cmd_args call = cmd :: rest ->
  exists status p1 pre,
    ensure_client env p = Returns (status, p1, pre)
    /\ responses_of pre = []
    /\ (ok status = false ->
        produces (ValidateAndHandle env info call) p (fun _ _ evs =>
          exists m,
            evs = pre ++ [EvRespondFailure call
                            (Error RuntimeError
                               ("Could not open .redis table. "
                                +:+ c_str (Status_ToString status)
                                +:+ " : " +:+ c_str cmd)) m]))
    /\ (ok status = true -> info = None ->
        produces (ValidateAndHandle env info call) p (fun _ _ evs =>
          exists m,
            evs = pre ++ [EvRespondFailure call
                            (Error RuntimeError ("Unsupported call. : " +:+ c_str cmd)) m]))
    /\ (ok status = true ->
        forall i, info = Some i -> valid_arity (arity i) ->
        if arity_satisfied (arity i) (Z.of_nat (length (cmd_args call))) then
          ValidateAndHandle env info call p
          = prefixed pre (invoke (function_ptr i) env call p1)
          /\ (handler_can_run env call (function_ptr i) p1 ->
              produces (ValidateAndHandle env info call) p (fun _ _ evs =>
                exists run,
                  evs = pre ++ run /\ handler_run env call cmd (function_ptr i) run))
        else
          produces (ValidateAndHandle env info call) p (fun _ _ evs =>
            exists m,
              (arity i < 0
               /\ evs = pre ++ [EvLogError ("Requested command " +:+ Slice_to_ostream cmd
                                            +:+ " does not have enough arguments.");
                                EvRespondFailure call
                                  (Error RuntimeError
                                     ("Too few arguments. : " +:+ c_str cmd)) m])
              \/ (0 < arity i
                  /\ evs = pre ++ [EvLogError ("Requested command " +:+ Slice_to_ostream cmd
                                               +:+ " has wrong number of arguments.");
                                   EvRespondFailure call
                                     (Error RuntimeError
                                        ("Wrong number of arguments. : " +:+ c_str cmd)) m]))).
Proof.
  intros Hargs.
  destruct (ValidateAndHandle_stages env info call p)
    as (st & p1 & pre & Hens & Hvh & _).
  exists st, p1, pre. split; [exact Hens |].
  split; [apply (ensure_client_events _ _ _ _ _ Hens) |].
  split; [| split].
  - intros Hok. rewrite Hok in Hvh.
    eapply produces_prefixed; [exact Hvh |].
    eapply produces_mono; [apply (failure_produces _ _ _ _ _ Hargs) |].
    intros u p' evs (m & ->). exists m.
    rewrite (c_str_app_clean "Could not open .redis table. ") by reflexivity.
    reflexivity.
  - intros Hok ->. rewrite Hok in Hvh.
    eapply produces_prefixed; [exact Hvh |].
    eapply produces_mono; [apply (failure_produces _ _ _ _ _ Hargs) |].
    intros u p' evs (m & ->). exists m. reflexivity.
  - intros Hok i -> Hv. rewrite Hok in Hvh.
    rewrite (handle_current_command_arity _ _ _ _ Hv) in Hvh.
    rewrite arity_satisfied_tests.
    destruct ((arity i <? 0) && _) eqn:Hfew.
    + simpl. apply andb_true_iff in Hfew as [Hneg _]. apply Z.ltb_lt in Hneg.
      eapply produces_prefixed; [exact Hvh |].
      eapply produces_mono; [apply (logged_failure_produces _ _ _ _ _ _ Hargs) |].
      intros u p' evs (m & ->). exists m. left. split; [exact Hneg | reflexivity].
    + destruct ((0 <? arity i) && _) eqn:Hwrong.
      * simpl. apply andb_true_iff in Hwrong as [Hpos _]. apply Z.ltb_lt in Hpos.
        eapply produces_prefixed; [exact Hvh |].
        eapply produces_mono; [apply (logged_failure_produces _ _ _ _ _ _ Hargs) |].
        intros u p' evs (m & ->). exists m. right. split; [exact Hpos | reflexivity].
      * simpl. split; [exact Hvh |]. intros Hcan.
        eapply produces_prefixed; [exact Hvh |].
        eapply produces_mono; [apply (invoke_run _ _ _ _ _ _ Hargs Hcan) |].
        intros u p' evs Hrun. exists evs. auto.
Qed.

(** C3.  For a recognized command, once the client is set up: with an
    "at least N" contract (negative arity) and fewer than N arguments the
    dispatch answers "Too few arguments."; with an "exactly N" contract
    (positive arity) and a number of arguments other than N it answers
    "Wrong number of arguments."; in both cases nothing is handed to the
    backend.  Otherwise the bound handler runs, and what the caller and the
    backend see is the run of that handler.  When the client cannot be set
    up the dispatch answers "Could not open .redis table." instead,
    whatever the number of arguments, and nothing is handed to the backend
    either. *)
Theorem arity_contract_enforced env call cmd rest i p status p1 pre :
  cmd_args call = cmd :: rest ->
  command_name_to_info_map_ (service p) !! ToLowerCase cmd = Some i ->
  valid_arity (arity i) ->
  ensure_client env p = Returns (status, p1, pre) ->
  (ok status = false ->
   produces (Handle env call) p (fun _ _ evs =>
     no_backend_call evs
     /\ exists m,
         evs = pre ++ [EvRespondFailure call
                         (Error RuntimeError
                            ("Could not open .redis table. "
                             +:+ c_str (Status_ToString status)
                             +:+ " : " +:+ c_str cmd)) m]))
  /\ (ok status = true ->
      (forall n, at_least i n -> Z.of_nat (length (cmd_args call)) < n ->
         produces (Handle env call) p (fun _ _ evs =>
           no_backend_call evs
           /\ exists m,
               evs = pre ++ [EvLogError ("Requested command " +:+ Slice_to_ostream cmd
                                         +:+ " does not have enough arguments.");
                             EvRespondFailure call
                               (Error RuntimeError
                                  ("Too few arguments. : " +:+ c_str cmd)) m]))
      /\ (forall n, exactly i n -> Z.of_nat (length (cmd_args call)) <> n ->
            produces (Handle env call) p (fun _ _ evs =>
              no_backend_call evs
              /\ exists m,
                  evs = pre ++ [EvLogError ("Requested command " +:+ Slice_to_ostream cmd
                                            +:+ " has wrong number of arguments.");
                                EvRespondFailure call
                                  (Error RuntimeError
                                     ("Wrong number of arguments. : " +:+ c_str cmd)) m]))
      /\ (arity_satisfied (arity i) (Z.of_nat (length (cmd_args call))) = true ->
          Handle env call p = prefixed pre (invoke (function_ptr i) env call p1)
          /\ (handler_can_run env call (function_ptr i) p1 ->
              produces (Handle env call) p (fun _ _ evs =>
                exists run,
                  evs = pre ++ run /\ handler_run env call cmd (function_ptr i) run)))).
Proof.
  intros Hargs Hi Hv Hens.
  destruct (ValidateAndHandle_stages env (Some i) call p)
    as (st & q & pre' & Hens' & Hvh & _).
  rewrite Hens in Hens'. injection Hens' as <- <- <-.
  rewrite <- (Handle_recognized _ _ _ _ _ _ Hargs Hi) in Hvh.
  destruct (ensure_client_events _ _ _ _ _ Hens) as (_ & Hpre & _).
  split.
  - intros Hok. rewrite Hok in Hvh.
    eapply produces_prefixed; [exact Hvh |].
    eapply produces_mono; [apply (failure_produces _ _ _ _ _ Hargs) |].
    intros u p' evs (m & ->). split.
    + apply no_backend_call_app; [exact Hpre | reflexivity].
    + exists m.
      rewrite (c_str_app_clean "Could not open .redis table. ") by reflexivity.
      reflexivity.
  - intros Hok. rewrite Hok in Hvh.
    rewrite (handle_current_command_arity _ _ _ _ Hv) in Hvh.
    split; [| split].
    + intros n [Hneg ->] Hsize.
      replace ((arity i <? 0) && (Z.of_nat (length (cmd_args call)) <? - arity i))
        with true in Hvh
        by (symmetry; apply andb_true_iff; split; apply Z.ltb_lt; lia).
      eapply produces_prefixed; [exact Hvh |].
      eapply produces_mono; [apply (logged_failure_produces _ _ _ _ _ _ Hargs) |].
      intros u p' evs (m & ->). split; [| exists m; reflexivity].
      apply no_backend_call_app; [exact Hpre | reflexivity].
    + intros n [Hpos ->] Hsize.
      replace (arity i <? 0) with false in Hvh by (symmetry; apply Z.ltb_ge; lia).
      replace ((0 <? arity i) && negb (Z.of_nat (length (cmd_args call)) =? arity i))
        with true in Hvh
        by (symmetry; apply andb_true_iff; split;
            [apply Z.ltb_lt; lia | apply negb_true_iff, Z.eqb_neq; lia]).
      simpl in Hvh.
      eapply produces_prefixed; [exact Hvh |].
      eapply produces_mono; [apply (logged_failure_produces _ _ _ _ _ _ Hargs) |].
      intros u p' evs (m & ->). split; [| exists m; reflexivity].
      apply no_backend_call_app; [exact Hpre | reflexivity].
    + intros Hsat. rewrite arity_satisfied_tests in Hsat.
      apply andb_true_iff in Hsat as [H1 H2].
      apply negb_true_iff in H1. apply negb_true_iff in H2.
      rewrite H1, H2 in Hvh. split; [exact Hvh |]. intros Hcan.
      eapply produces_prefixed; [exact Hvh |].
      eapply produces_mono; [apply (invoke_run _ _ _ _ _ _ Hargs Hcan) |].
      intros u p' evs Hrun. exists evs. auto.
Qed.

End OrderOfChecks.

(** ** The properties above on the sample instances *)
Module SampleDispatch.
Import Sample SampleFaults.

Lemma sample_table_well_formed :
  Forall (fun i => valid_arity (arity i) /\ echo_safe i) (@kRedisCommandTable externals).
Proof.
  repeat (constructor;
          [split;
           [unfold valid_arity, INT_MIN, INT_MAX; simpl; lia
           | unfold echo_safe; simpl; intros E; first [discriminate E | lia]] |]).
  constructor.
Qed.

Lemma connected_well_formed : registry_well_formed (service connected).
Proof.
  assert (E : command_name_to_info_map_ (service connected)
              = command_name_to_info_map_ (service started))
    by (vm_compute; reflexivity).
  unfold registry_well_formed. rewrite E.
  exact (registry_well_formed_from_table (H := externals) _ _
           SampleRuns.started_is_constructed sample_table_well_formed).
Qed.

(** The service right after its constructor. *)
Lemma construction_builds_the_registry_witness :
  RedisServiceImpl_new (H := externals) "127.0.0.1:7100" = Returns (service started)
  /\ command_name_to_info_map_ (service started) !! "set"
     = Some (mkRedisCommandInfo "set" fn_SetCommand (-3))
  /\ command_name_to_info_map_ (service started) !! "ping" = None
  /\ metrics_ (service started) !! "ping" = None
  /\ yb_client_initialized_ (service started) = false.
Proof.
  destruct (construction_builds_the_registry (H := externals) _ _
              SampleRuns.started_is_constructed)
    as (Hin & Hout & _ & Hmet & _ & Hflag & _).
  split; [exact SampleRuns.started_is_constructed |].
  split; [exact (proj2 (Hin 5%nat "set" eq_refl)) |].
  split; [| split; [| exact Hflag]].
  - apply Hout. unfold methods. simpl. intros Hf.
    repeat (destruct Hf as [Hf | Hf]; [discriminate Hf |]). exact Hf.
  - apply Hmet. unfold metric_keys, methods. simpl. intros Hf.
    repeat (destruct Hf as [Hf | Hf]; [discriminate Hf |]). exact Hf.
Defined.

(** GET k on the connected service. *)
Lemma dispatch_ends_one_way_witness :
  metrics_registered (service connected)
  /\ Handle (H := externals) env_up get_k connected
     = Returns (tt, after env_up get_k connected, events env_up get_k connected)
  /\ dispatch_events (H := externals) env_up get_k (events env_up get_k connected).
Proof.
  assert (Hrun : Handle (H := externals) env_up get_k connected
                 = Returns (tt, after env_up get_k connected, events env_up get_k connected))
    by (vm_compute; reflexivity).
  split; [exact SampleRuns.connected_registered |]. split; [exact Hrun |].
  exact (dispatch_ends_one_way (H := externals) env_up get_k connected _ _
           SampleRuns.connected_registered Hrun).
Defined.

(** SET k v on the connected service. *)
Lemma dispatch_keeps_the_rest_witness :
  Handle (H := externals) env_up set_k_v connected
  = Returns (tt, after env_up set_k_v connected, events env_up set_k_v connected)
  /\ dispatch_frame connected (after env_up set_k_v connected).
Proof.
  assert (Hrun : Handle (H := externals) env_up set_k_v connected
                 = Returns (tt, after env_up set_k_v connected,
                            events env_up set_k_v connected))
    by (vm_compute; reflexivity).
  split; [exact Hrun |].
  exact (dispatch_keeps_the_rest (H := externals) env_up set_k_v connected _ _ Hrun).
Defined.


(** FOO bar on the connected service. *)
Lemma dispatch_returns_witness :
  service_invariant (service connected)
  /\ registry_well_formed (service connected)
  /\ cmd_args foo_bar <> []
  /\ ok (env_set_flush_mode env_up) = true
  /\ ok (env_apply env_up) = true
  /\ exists p' evs, Handle (H := externals) env_up foo_bar connected = Returns (tt, p', evs).
Proof.
  split; [exact SampleRuns.connected_invariant |].
  split; [exact connected_well_formed |].
  split; [discriminate |]. split; [reflexivity |]. split; [reflexivity |].
  apply (dispatch_returns (H := externals) env_up foo_bar connected
           SampleRuns.connected_invariant connected_well_formed);
    [discriminate | reflexivity | reflexivity].
Defined.

(** GET k and SET k v with a session that refuses manual flush, and SET k v
    with an [Apply] that fails. *)
Lemma check_ok_failures_abort_witness :
  client_ (service connected) = Some (redis_ybclient (H := externals) "127.0.0.1:7100")
  /\ table_ (service connected) = Some (mkYBTable ".redis")
  /\ ok (env_set_flush_mode env_no_manual_flush) = false
  /\ ok (env_apply env_apply_fails) = false
  /\ ReadCommand (H := externals) env_no_manual_flush get_k "get" parse_key connected
     = CheckFailure "CHECK_OK(SetFlushMode)"
  /\ WriteCommand (H := externals) env_no_manual_flush set_k_v "set" parse_key connected
     = CheckFailure "CHECK_OK(SetFlushMode)"
  /\ WriteCommand (H := externals) env_apply_fails set_k_v "set" parse_key connected
     = CheckFailure "CHECK_OK(Apply)".
Proof.
  assert (Hc : client_ (service connected)
               = Some (redis_ybclient (H := externals) "127.0.0.1:7100"))
    by (vm_compute; reflexivity).
  assert (Ht : table_ (service connected) = Some (mkYBTable ".redis"))
    by (vm_compute; reflexivity).
  split; [exact Hc |]. split; [exact Ht |].
  split; [reflexivity |]. split; [reflexivity |].
  destruct (check_ok_failures_abort (H := externals) env_no_manual_flush get_k "get"
              connected _ Hc) as [Hflush _].
  destruct (check_ok_failures_abort (H := externals) env_no_manual_flush set_k_v "set"
              connected _ Hc) as [Hflush' _].
  destruct (check_ok_failures_abort (H := externals) env_apply_fails set_k_v "set"
              connected _ Hc) as [_ Happly].
  split; [exact (proj1 (Hflush eq_refl) parse_key) |].
  split; [exact (proj2 (Hflush' eq_refl) parse_key) |].
  exact (Happly parse_key _ Ht eq_refl eq_refl eq_refl).
Defined.

(** ECHO hello on the connected service. *)
Lemma echo_answers_with_its_argument_witness :
  cmd_args ping = "ECHO" :: "hello" :: []
  /\ command_name_to_info_map_ (service connected) !! ToLowerCase "ECHO"
     = Some (mkRedisCommandInfo "echo" fn_EchoCommand 2)
  /\ valid_arity 2
  /\ yb_client_initialized_ (service connected) = true
  /\ metrics_ (service connected) !! "echo" = Some (metric_of "echo")
  /\ Handle (H := externals) env_up ping connected
     = Returns (tt, connected,
                [EvRespondSuccess ping (set_string_response "hello" new_RedisResponsePB)
                   (metric_of "echo")]).
Proof.
  assert (Hinfo : command_name_to_info_map_ (service connected) !! ToLowerCase "ECHO"
                  = Some (mkRedisCommandInfo "echo" fn_EchoCommand 2))
    by (vm_compute; reflexivity).
  assert (Hv : valid_arity 2) by (unfold valid_arity, INT_MIN, INT_MAX; lia).
  assert (Hm : metrics_ (service connected) !! "echo" = Some (metric_of "echo"))
    by (vm_compute; reflexivity).
  split; [reflexivity |]. split; [exact Hinfo |]. split; [exact Hv |].
  split; [exact SampleRuns.connected_initialized |]. split; [exact Hm |].
  exact (echo_answers_with_its_argument (H := externals) env_up ping "ECHO" "hello" []
           (mkRedisCommandInfo "echo" fn_EchoCommand 2) connected
           eq_refl Hinfo eq_refl Hv eq_refl SampleRuns.connected_initialized Hm).
Defined.

(** A read operation fresh from its constructor, on an empty store. *)
Lemma response_reads_what_mutable_response_allocated_witness :
  YBRedisReadOp.redis_response_ (YBRedisReadOp.create (mkYBTable ".redis")) = nullptr
  /\ YBRedisReadOp.response ∅ (YBRedisReadOp.create (mkYBTable ".redis"))
     = AssertionFailure "redis_response_ != nullptr"
  /\ exists l,
      (YBRedisReadOp.mutable_response ∅ (YBRedisReadOp.create (mkYBTable ".redis"))).1.1 = Ptr l
      /\ YBRedisReadOp.response
           (<[l := payload]>
              (YBRedisReadOp.mutable_response ∅ (YBRedisReadOp.create (mkYBTable ".redis"))).1.2)
           (YBRedisReadOp.mutable_response ∅ (YBRedisReadOp.create (mkYBTable ".redis"))).2
         = Returns payload.
Proof.
  split; [reflexivity |].
  destruct (response_reads_what_mutable_response_allocated
              ∅ (YBRedisReadOp.create (mkYBTable ".redis")) eq_refl)
    as (Hassert & l & Hl & _ & Hstored).
  split; [exact Hassert |]. exists l. split; [exact Hl | exact (Hstored payload)].
Defined.

(** A read and a write operation fresh from their constructors. *)
Lemma operations_do_not_share_responses_witness :
  YBRedisReadOp.redis_response_ (YBRedisReadOp.create (mkYBTable ".redis")) = nullptr
  /\ YBRedisWriteOp.redis_response_ (YBRedisWriteOp.create (mkYBTable ".redis")) = nullptr
  /\ (YBRedisReadOp.mutable_response ∅ (YBRedisReadOp.create (mkYBTable ".redis"))).1.1
     <> (YBRedisWriteOp.mutable_response
           (YBRedisReadOp.mutable_response ∅ (YBRedisReadOp.create (mkYBTable ".redis"))).1.2
           (YBRedisWriteOp.create (mkYBTable ".redis"))).1.1.
Proof.
  split; [reflexivity |]. split; [reflexivity |].
  exact (proj1 (proj2 (operations_do_not_share_responses
                         ∅ (YBRedisReadOp.create (mkYBTable ".redis"))
                         (YBRedisWriteOp.create (mkYBTable ".redis")) eq_refl eq_refl))).
Defined.

(** A failure for FOO, NUL, bar on the connected service. *)
Lemma failure_text_stops_at_nul_witness :
  cmd_args foo_nul = ("FOO" +:+ String zero "bar") :: ["x"]
  /\ produces (RespondWithFailure "Unsupported call." foo_nul) connected
       (fun _ _ evs =>
          exists m,
            evs = [EvRespondFailure foo_nul (Error RuntimeError "Unsupported call. : FOO") m]).
Proof.
  split; [reflexivity |].
  destruct (failure_text_stops_at_nul "Unsupported call." foo_nul _ _ connected eq_refl)
    as (u & p' & evs & Hrun & text & m & Hevs & _ & Htext).
  exists u, p', evs. split; [exact Hrun |]. exists m.
  rewrite Hevs, (Htext "FOO" "bar" eq_refl eq_refl eq_refl). reflexivity.
Defined.

(** GET k on the connected service. *)
Lemma dispatch_adds_no_metric_witness :
  Handle (H := externals) env_up get_k connected
  = Returns (tt, after env_up get_k connected, events env_up get_k connected)
  /\ metrics_registered (service connected)
  /\ metrics_ (service (after env_up get_k connected)) = metrics_ (service connected).
Proof.
  assert (Hrun : Handle (H := externals) env_up get_k connected
                 = Returns (tt, after env_up get_k connected, events env_up get_k connected))
    by (vm_compute; reflexivity).
  split; [exact Hrun |]. split; [exact SampleRuns.connected_registered |].
  exact (proj2 (dispatch_adds_no_metric (H := externals) env_up get_k connected _ _ Hrun)
           SampleRuns.connected_registered).
Defined.

(** FOO bar while the master is unreachable: the initialization failure is
    what the caller hears, not "Unsupported call."; and GeT k on the
    connected service, where the handler bound to "get" runs. *)
Lemma ValidateAndHandle_order_witness :
  cmd_args foo_bar = "FOO" :: ["bar"]
  /\ ensure_client (H := externals) env_down started
     = Returns (Error NetworkError "master unreachable", started,
                setup_events (H := externals) env_down "127.0.0.1:7100")
  /\ produces (ValidateAndHandle (H := externals) env_down None foo_bar) started
       (fun _ _ evs =>
          exists m,
            evs = setup_events (H := externals) env_down "127.0.0.1:7100"
                  ++ [EvRespondFailure foo_bar
                        (Error RuntimeError
                           "Could not open .redis table. Network error: master unreachable : FOO")
                        m])
  /\ cmd_args get_k = "GeT" :: ["k"]
  /\ valid_arity 2
  /\ handler_can_run (H := externals) env_up get_k fn_GetCommand connected
  /\ produces (ValidateAndHandle (H := externals) env_up
                 (Some (mkRedisCommandInfo "get" fn_GetCommand 2)) get_k) connected
       (fun _ _ evs =>
          exists o m mi,
            evs = [EvNewSession true; EvSetTimeoutMillis 60000;
                   EvSetFlushMode MANUAL_FLUSH; EvNewRedisRead o;
                   EvReadAsync read_session o
                     (mkReadCommandCb (Some read_session) get_k o m mi 1000)]).
Proof.
  assert (Hens : ensure_client (H := externals) env_down started
                 = Returns (Error NetworkError "master unreachable", started,
                            setup_events (H := externals) env_down "127.0.0.1:7100"))
    by (vm_compute; reflexivity).
  assert (Hens2 : ensure_client (H := externals) env_up connected
                  = Returns (OK, connected, []))
    by (vm_compute; reflexivity).
  assert (Hv : valid_arity 2) by (unfold valid_arity, INT_MIN, INT_MAX; lia).
  assert (Hcan : handler_can_run (H := externals) env_up get_k fn_GetCommand connected).
  { split; [vm_compute; eauto |]. split; [vm_compute; eauto |].
    split; [reflexivity |]. intros [x Hx]. discriminate Hx. }
  split; [reflexivity |]. split; [exact Hens |].
  split.
  { destruct (ValidateAndHandle_order (H := externals) env_down None foo_bar
                "FOO" ["bar"] started eq_refl)
      as (status & p1 & pre & Hens' & _ & Hfail & _).
    rewrite Hens in Hens'. injection Hens' as <- <- <-.
    exact (Hfail eq_refl). }
  split; [reflexivity |]. split; [exact Hv |]. split; [exact Hcan |].
  destruct (ValidateAndHandle_order (H := externals) env_up
              (Some (mkRedisCommandInfo "get" fn_GetCommand 2)) get_k
              "GeT" ["k"] connected eq_refl)
    as (status & p1 & pre & Hens' & _ & _ & _ & Hknown).
  rewrite Hens2 in Hens'. injection Hens' as <- <- <-.
  specialize (Hknown eq_refl _ eq_refl Hv).
  change (arity_satisfied (arity (mkRedisCommandInfo "get" fn_GetCommand 2))
            (Z.of_nat (length (cmd_args get_k)))) with true in Hknown.
  destruct (proj2 Hknown Hcan) as (u & p' & evs & Hrun & run & -> & o & m & mi & ->).
  exists u, p', ([] ++ [EvNewSession true; EvSetTimeoutMillis 60000;
                        EvSetFlushMode MANUAL_FLUSH; EvNewRedisRead o;
                        EvReadAsync read_session o
                          (mkReadCommandCb (Some read_session) get_k o m mi 1000)]).
  split; [exact Hrun |]. exists o, m, mi. reflexivity.
Defined.

(** SET k on the connected service: "set" wants at least three arguments. *)
Lemma arity_contract_enforced_witness :
  cmd_args set_k = "SET" :: ["k"]
  /\ command_name_to_info_map_ (service connected) !! ToLowerCase "SET"
     = Some (mkRedisCommandInfo "set" fn_SetCommand (-3))
  /\ valid_arity (-3)
  /\ ensure_client (H := externals) env_up connected = Returns (OK, connected, [])
  /\ produces (Handle (H := externals) env_up set_k) connected
       (fun _ _ evs =>
          no_backend_call evs
          /\ exists m,
              evs = [] ++ [EvLogError "Requested command SET does not have enough arguments.";
                           EvRespondFailure set_k
                             (Error RuntimeError "Too few arguments. : SET") m]).
Proof.
  assert (Hinfo : command_name_to_info_map_ (service connected) !! ToLowerCase "SET"
                  = Some (mkRedisCommandInfo "set" fn_SetCommand (-3)))
    by (vm_compute; reflexivity).
  assert (Hv : valid_arity (-3)) by (unfold valid_arity, INT_MIN, INT_MAX; lia).
  assert (Hens : ensure_client (H := externals) env_up connected
                 = Returns (OK, connected, []))
    by (vm_compute; reflexivity).
  split; [reflexivity |]. split; [exact Hinfo |]. split; [exact Hv |].
  split; [exact Hens |].
  destruct (arity_contract_enforced (H := externals) env_up set_k "SET" ["k"]
              (mkRedisCommandInfo "set" fn_SetCommand (-3)) connected OK connected []
              eq_refl Hinfo Hv Hens) as [_ Hup].
  destruct (Hup eq_refl) as (Hfew & _ & _).
  apply (Hfew 3); [split; [simpl; lia | reflexivity] | simpl; lia].
Defined.

(** SET k while the master is unreachable: "set" is recognized and wants
    at least three arguments, the call has two, and the answer is not "Too
    few arguments." but the failure of the set-up. *)
Lemma arity_failure_needs_the_client_counterexample :
  cmd_args set_k = "SET" :: ["k"]
  /\ command_name_to_info_map_ (service started) !! ToLowerCase "SET"
     = Some (mkRedisCommandInfo "set" fn_SetCommand (-3))
  /\ at_least (mkRedisCommandInfo "set" fn_SetCommand (-3)) 3
  /\ Z.of_nat (length (cmd_args set_k)) < 3
  /\ Handle (H := externals) env_down set_k started
     = Returns (tt, started,
                setup_events (H := externals) env_down "127.0.0.1:7100"
                ++ [EvRespondFailure set_k
                      (Error RuntimeError
                         "Could not open .redis table. Network error: master unreachable : SET")
                      (metric_of "error")])
  /\ ~ produces (Handle (H := externals) env_down set_k) started
         (fun _ _ evs =>
            exists m,
              In (EvRespondFailure set_k
                    (Error RuntimeError "Too few arguments. : SET") m) evs).
Proof.
  assert (Hrun : Handle (H := externals) env_down set_k started
                 = Returns (tt, started,
                            setup_events (H := externals) env_down "127.0.0.1:7100"
                            ++ [EvRespondFailure set_k
                                  (Error RuntimeError
                                     "Could not open .redis table. Network error: master unreachable : SET")
                                  (metric_of "error")]))
    by (vm_compute; reflexivity).
  split; [reflexivity |].
  split; [vm_compute; reflexivity |].
  split; [split; [simpl; lia | reflexivity] |].
  split; [simpl; lia |].
  split; [exact Hrun |].
  intros (u & p' & evs & Hrun' & m & Hin).
  rewrite Hrun in Hrun'. injection Hrun' as _ _ <-.
  simpl in Hin.
  repeat (destruct Hin as [Hin | Hin]; [discriminate Hin |]). exact Hin.
Defined.

(** A table of five entries with a count of five: the sixth set-up reads
    past the end of the table. *)
Lemma construction_returns_iff_witness :
  @kMethodCount short_externals = Z.of_nat (length (@kRedisCommandTable short_externals))
  /\ take 5 (map name (@kRedisCommandTable short_externals)) = take 5 methods
  /\ @kRedisCommandTable short_externals !! 5%nat = None
  /\ RedisServiceImpl_new (H := short_externals) "127.0.0.1:7100"
     = Undefined "kRedisCommandTable[idx]".
Proof.
  split; [reflexivity |]. split; [reflexivity |]. split; [reflexivity |].
  destruct (construction_returns_iff (H := short_externals) "127.0.0.1:7100")
    as (_ & _ & Hstops & _).
  exact (proj1 (Hstops eq_refl 5%nat "set" eq_refl eq_refl) eq_refl).
Defined.

End SampleDispatch.

Module SampleRowRuns.
Import SampleRow.

(** An UINT32 value for column 1 of an empty row. *)
Lemma SetColumn_unsupported_datatype_witness :
  find_column_by_id (PartialRow := partial_row) ([] : row) 1 <> -1
  /\ supported (datatype (of_type UINT32)) = false
  /\ SetColumn (H := partial_row) ([] : row) 1 (of_type UINT32)
     = Returns (Error RuntimeError "unsupported datatype", ([] : row),
                ["Internal error: unsupported datatype 5"]).
Proof.
  assert (Hc : find_column_by_id (PartialRow := partial_row) ([] : row) 1 <> -1)
    by (simpl; lia).
  split; [exact Hc |]. split; [reflexivity |].
  exact (SetColumn_unsupported_datatype (H := partial_row) ([] : row) 1 (of_type UINT32)
           Hc eq_refl eq_refl).
Defined.

(** An INT64 value without a number for column 1 of an empty row. *)
Lemma SetColumn_absent_value_sets_null_witness :
  find_column_by_id (PartialRow := partial_row) ([] : row) 1 <> -1
  /\ has_value_of INT64 (of_type INT64) = false
  /\ SetColumn (H := partial_row) ([] : row) 1 (of_type INT64)
     = Returns ((OK, [(1, CNull)]), []).
Proof.
  assert (Hc : find_column_by_id (PartialRow := partial_row) ([] : row) 1 <> -1)
    by (simpl; lia).
  split; [exact Hc |]. split; [reflexivity |].
  exact (SetColumn_absent_value_sets_null (H := partial_row) ([] : row) 1 (of_type INT64)
           Hc eq_refl eq_refl eq_refl).
Defined.

(** An INT16 value whose [int16_value] is 300 and whose [int32_value] is
    absent: column 0 receives 0. *)
Lemma SetColumn_int16_stores_int32_value_witness :
  int16_value int16_300 = 300
  /\ SetColumn (H := partial_row) ([] : row) 0 int16_300
     = Returns ((OK, [(0, CInt16 0)]), [])
  /\ SetColumn (H := partial_row) ([] : row) 0 (set_int16_value 7 int16_300)
     = SetColumn (H := partial_row) ([] : row) 0 int16_300.
Proof.
  destruct (SetColumn_int16_stores_int32_value (H := partial_row) ([] : row) 0 int16_300)
    as [Hstore Hany].
  assert (Hc : find_column_by_id (PartialRow := partial_row) ([] : row) 0 <> -1)
    by (simpl; lia).
  split; [reflexivity |].
  split; [exact (proj1 (Hstore Hc eq_refl eq_refl eq_refl)) | exact (Hany 7 eq_refl)].
Defined.

(** The string for column 1 is refused, so column 7, which the schema does
    not have, is never looked up. *)
Lemma SetKey_stops_at_first_failure_witness :
  set_hashed_columns (H := partial_row) key_columns ([] : row)
  = Returns (Error InvalidArgument "invalid type string provided for column",
             [(0, CInt16 0)], [])
  /\ YBSqlWriteOp_SetKey (H := partial_row)
       (mkYBSqlWriteOp (H := partial_row) ([] : row) (key_columns ++ more_columns))
     = YBSqlWriteOp_SetKey (H := partial_row)
         (mkYBSqlWriteOp (H := partial_row) ([] : row) key_columns)
  /\ YBSqlReadOp_SetKey (H := partial_row)
       (mkYBSqlReadOp (H := partial_row) ([] : row) (key_columns ++ more_columns))
     = YBSqlReadOp_SetKey (H := partial_row)
         (mkYBSqlReadOp (H := partial_row) ([] : row) key_columns).
Proof.
  split; [reflexivity |].
  exact (SetKey_stops_at_first_failure (H := partial_row) ([] : row)
           key_columns more_columns eq_refl).
Defined.

(** Three columns that are all set. *)
Lemma SetKey_ok_only_for_supported_columns_witness :
  YBSqlWriteOp_SetKey (H := partial_row)
    (mkYBSqlWriteOp (H := partial_row) ([] : row) good_columns)
  = Returns (OK, [(1, CNull); (2, CString "abc"); (0, CInt16 0)], [])
  /\ forall cv, In cv good_columns ->
                has_datatype (value cv) = true /\ supported (datatype (value cv)) = true.
Proof.
  assert (Hrun : YBSqlWriteOp_SetKey (H := partial_row)
                   (mkYBSqlWriteOp (H := partial_row) ([] : row) good_columns)
                 = Returns (OK, [(1, CNull); (2, CString "abc"); (0, CInt16 0)], []))
    by reflexivity.
  split; [exact Hrun |].
  exact (proj2 (proj1 (SetKey_ok_only_for_supported_columns (H := partial_row)) _ _ _ Hrun)).
Defined.

End SampleRowRuns.
